(** * tCore SBI: inter-hart signalling (CLINT software interrupts, the boot
      barrier of [smp_resume] and the shared-memory mailbox of [main.c])

    A shallow embedding of the C sources under [sbi/] and of the assembly
    macro [smp_resume] of [include/smp.h].

    - Memory is byte addressed; multi-byte accesses are little endian
      (RV64).  Integers of the C code are [Z] with the wrap-around of
      their width written out.
    - C code is written in a state-and-failure monad over the shared
      memory, the [clint_base] global and a log of the accesses the
      executing hart performs, in program order.  [None] means that a
      loop did not finish within its fuel.
    - The registers of the serial device are bytes of that memory: the
      driver reaches them through [readw] and [writew] as uart.c does,
      and a load returns the word last stored.  What the device receives
      is given as the list of values its receive register will return.
    - [smp_resume] is a list of instructions run by a small-step machine;
      the other harts interleave with it through a schedule. *)

From Stdlib Require Import Strings.Byte Strings.String.
From Stdlib Require Import ZArith List Bool Lia.
Import ListNotations.
Local Open Scope Z_scope.

(* ================================================================== *)
(** ** Machine integers and bytes *)

Definition wrap64 (x : Z) : Z := x mod 2 ^ 64.
Definition wrap32 (x : Z) : Z := x mod 2 ^ 32.

(** Value left in a 64-bit register by a sign-extending load of
    [8 * width] bits ([lb], [lw]); registers are kept unsigned. *)
Definition sext (width : nat) (z : Z) : Z :=
  let bits := 8 * Z.of_nat width in
  if z <? 2 ^ (bits - 1) then z else wrap64 (z + 2 ^ 64 - 2 ^ bits).

(** Signed reading of a 64-bit register (for [blt]). *)
Definition signed64 (x : Z) : Z :=
  if x <? 2 ^ 63 then x else x - 2 ^ 64.

Definition byte_to_Z (b : byte) : Z := Z.of_N (Byte.to_N b).

Definition byte_of_Z (z : Z) : byte :=
  match Byte.of_N (Z.to_N (z mod 256)) with
  | Some b => b
  | None => x00
  end.

Definition byte_eqb (a b : byte) : bool := Byte.eqb a b.

(* ================================================================== *)
(** ** Memory *)

Definition memory := Z -> byte.

Definition mem_set (m : memory) (a : Z) (b : byte) : memory :=
  fun x => if x =? a then b else m x.

(** Little-endian load and store of [n] bytes at [a]. *)
Fixpoint load_le (m : memory) (a : Z) (n : nat) : Z :=
  match n with
  | O => 0
  | S k => byte_to_Z (m a) + 256 * load_le m (a + 1) k
  end.

Fixpoint store_le (m : memory) (a : Z) (n : nat) (v : Z) : memory :=
  match n with
  | O => m
  | S k => store_le (mem_set m a (byte_of_Z v)) (a + 1) k (v / 256)
  end.

(** The [n] bytes found at [a], [a+1], ... (no wrap: used for buffers
    that lie inside the address space). *)
Fixpoint load_bytes (m : memory) (a : Z) (n : nat) : list byte :=
  match n with
  | O => []
  | S k => m a :: load_bytes m (a + 1) k
  end.

(* ================================================================== *)
(** ** include/mem.h, include/smp.h, include/riscv.h, clint.h: constants *)

Definition CLINT_CTRL_ADDR : Z := 0x2000000.
Definition SMP_ADDR : Z := 0x80100000.
Definition SMP_SIZE : Z := 0x1000.

Definition MAX_HARTS : Z := 5.
Definition ZERO_HART : Z := 0.

Definition CLINT_MSIP_OFFSET : Z := 0x0000.
Definition CLINT_MTIMECMP_OFFSET : Z := 0x4000.
Definition CLINT_MTIME_OFFSET : Z := 0xbff8.
Definition CLINT_MSIP_SIZE : Z := 0x4.
Definition CLINT_MTIMECMP_SIZE : Z := 0x8.

(** [#define CLINT_END_HART_IPI CLINT_CTRL_ADDR + (MAX_HARTS * CLINT_MSIP_SIZE)] *)
Definition CLINT_END_HART_IPI : Z :=
  CLINT_CTRL_ADDR + (MAX_HARTS * CLINT_MSIP_SIZE).

Definition IRQ_M_SOFT : Z := 3.
Definition BIT (nr : Z) : Z := wrap64 (Z.shiftl 1 nr).
Definition MIP_MSIP : Z := BIT IRQ_M_SOFT.

(** [#define CLINT_SOFT(base, hartid) base + hartid* CLINT_MSIP_SIZE + CLINT_MSIP_OFFSET]
    with [base] a [void*] and [hartid] a [uint64_t]. *)
Definition CLINT_SOFT (base hartid : Z) : Z :=
  wrap64 (wrap64 (base + wrap64 (hartid * CLINT_MSIP_SIZE)) + CLINT_MSIP_OFFSET).

(* ================================================================== *)
(** ** Access log *)

(** Operands of [fence(p, s)] as the source spells them. *)
Inductive fence_set := FI | FO | FR | FW.

Inductive csr := CSR_mip | CSR_mhartid.

Inductive event :=
| EvFence (pred succ : fence_set)
| EvLoad (width : nat) (addr val : Z)
| EvStore (width : nat) (addr val : Z)
| EvCsrRead (r : csr) (val : Z)
| EvWfi.

(** What another hart does to the pending bits while the executing hart
    sleeps in [wfi]: [clint_send_soft h], [clint_clear_soft h], or
    nothing (a spurious wake). *)
Inductive env_event :=
| EnvRaise (h : Z)
| EnvClear (h : Z)
| EnvIdle.

(* ================================================================== *)
(** ** State and monad of the C code *)

Record state := mkState {
  mem : memory;
  clint_base : Z;            (* static volatile void* clint_base; *)
  trace : list event;        (* accesses of the executing hart, oldest first *)
  env : list env_event       (* activity of the other harts, one per wfi *)
}.

Definition M (A : Type) : Type := state -> option (A * state).

Definition ret {A} (a : A) : M A := fun st => Some (a, st).

Definition bind {A B} (c : M A) (k : A -> M B) : M B :=
  fun st =>
    match c st with
    | Some (a, st') => k a st'
    | None => None
    end.

Declare Scope m_scope.
Delimit Scope m_scope with m.
Notation "x <- c ;; k" := (bind c (fun x => k))
  (at level 61, c at next level, right associativity) : m_scope.
Notation "c ;; k" := (bind c (fun _ => k))
  (at level 61, right associativity) : m_scope.
Local Open Scope m_scope.

Definition emit (e : event) : M unit :=
  fun st => Some (tt, mkState (mem st) (clint_base st) (trace st ++ [e]) (env st)).

Definition get_mem : M memory := fun st => Some (mem st, st).

Definition put_mem (m : memory) : M unit :=
  fun st => Some (tt, mkState m (clint_base st) (trace st) (env st)).

(** A load of [width] bytes into a register, as [lb]/[lw]/[ld] do. *)
Definition load_insn (width : nat) (a : Z) : M Z :=
  m <- get_mem ;;
  let v := load_le m a width in
  emit (EvLoad width a v) ;;
  ret (sext width v).

(** A store of the low [width] bytes of a register, as [sb]/[sw]/[sd] do. *)
Definition store_insn (width : nat) (v a : Z) : M unit :=
  m <- get_mem ;;
  emit (EvStore width a (v mod 2 ^ (8 * Z.of_nat width))) ;;
  put_mem (store_le m a width v).

(* ================================================================== *)
(** ** include/riscv.h *)

Definition fence (p s : fence_set) : M unit := emit (EvFence p s).

Definition env_apply (e : env_event) (base : Z) (m : memory) : memory :=
  match e with
  | EnvRaise h => store_le m (CLINT_SOFT base h) 4 1
  | EnvClear h => store_le m (CLINT_SOFT base h) 4 0
  | EnvIdle => m
  end.

(** [wfi]: the hart resumes after the next activity of the other harts
    (or at once when there is none left: the instruction may be a nop). *)
Definition wfi : M unit :=
  fun st =>
    match env st with
    | [] => Some (tt, mkState (mem st) (clint_base st) (trace st ++ [EvWfi]) [])
    | e :: rest =>
        Some (tt, mkState (env_apply e (clint_base st) (mem st)) (clint_base st)
                          (trace st ++ [EvWfi]) rest)
    end.

(** Hardware: bit [IRQ_M_SOFT] of the [mip] of hart [self] mirrors bit 0 of
    that hart's msip register in the CLINT, at
    [CLINT_CTRL_ADDR + self * CLINT_MSIP_SIZE].  The other bits of [mip]
    are masked off by every reader in this code and are read as 0. *)
Definition mip_of (m : memory) (self : Z) : Z :=
  if Z.testbit (load_le m (CLINT_CTRL_ADDR + self * CLINT_MSIP_SIZE) 4) 0
  then MIP_MSIP else 0.

(** [read_csr(mip)] executed by hart [self]. *)
Definition read_csr_mip (self : Z) : M Z :=
  m <- get_mem ;;
  let v := mip_of m self in
  emit (EvCsrRead CSR_mip v) ;;
  ret v.

(** [read_csr(mhartid)] executed by hart [self]. *)
Definition read_csr_mhartid (self : Z) : M Z :=
  emit (EvCsrRead CSR_mhartid self) ;;
  ret self.

(* ================================================================== *)
(** ** include/io.h *)

(** [__io_br()] and [__io_aw()] expand to nothing; [__io_ar()] is
    [fence(i, r)] and [__io_bw()] is [fence(w, o)]. *)
Definition __io_br : M unit := ret tt.
Definition __io_ar : M unit := fence FI FR.
Definition __io_bw : M unit := fence FW FO.
Definition __io_aw : M unit := ret tt.

(** [sb]/[sw]/[sd] of an argument of type [uint8_t]/[uint32_t]/[uint64_t]. *)
Definition __raw_writeb (v a : Z) : M unit := store_insn 1 (v mod 2 ^ 8) a.
Definition __raw_writew (v a : Z) : M unit := store_insn 4 (wrap32 v) a.
Definition __raw_writed (v a : Z) : M unit := store_insn 8 (wrap64 v) a.

(** [lb]/[lw]/[ld] into a variable of type [uint8_t]/[uint32_t]/[uint64_t]:
    the sign extension done by the instruction is cut off by the type. *)
Definition __raw_readb (a : Z) : M Z := r <- load_insn 1 a ;; ret (r mod 2 ^ 8).
Definition __raw_readw (a : Z) : M Z := r <- load_insn 4 a ;; ret (wrap32 r).
Definition __raw_readd (a : Z) : M Z := r <- load_insn 8 a ;; ret (wrap64 r).

Definition readb (a : Z) : M Z :=
  __io_br ;; v <- __raw_readb a ;; __io_ar ;; ret v.
Definition readw (a : Z) : M Z :=
  __io_br ;; v <- __raw_readw a ;; __io_ar ;; ret v.
Definition readd (a : Z) : M Z :=
  __io_br ;; v <- __raw_readd a ;; __io_ar ;; ret v.

(** The value is a macro argument: it is evaluated inside
    [__raw_writeX((v), (a))], after [__io_bw()]. *)
Definition writeb (v : M Z) (a : Z) : M unit :=
  __io_bw ;; x <- v ;; __raw_writeb x a ;; __io_aw.
Definition writew (v : M Z) (a : Z) : M unit :=
  __io_bw ;; x <- v ;; __raw_writew x a ;; __io_aw.
Definition writed (v : M Z) (a : Z) : M unit :=
  __io_bw ;; x <- v ;; __raw_writed x a ;; __io_aw.

(* ================================================================== *)
(** ** devices/clint/clint.c *)

Definition get_clint_base : M Z := fun st => Some (clint_base st, st).

Definition clint_init (base : Z) : M unit :=
  fun st => Some (tt, mkState (mem st) (wrap64 base) (trace st) (env st)).

Definition clint_get_mtime : M Z :=
  base <- get_clint_base ;;
  readd (wrap64 (base + CLINT_MTIME_OFFSET)).

Definition clint_set_timecmp (hartid time : Z) : M unit :=
  base <- get_clint_base ;;
  writed (ret time)
         (wrap64 (wrap64 (base + wrap64 (hartid * CLINT_MTIMECMP_SIZE))
                  + CLINT_MTIMECMP_OFFSET)).

Definition clint_check_soft (hartid : Z) : M Z :=
  base <- get_clint_base ;;
  readw (CLINT_SOFT base hartid).

Definition clint_send_soft (hartid : Z) : M unit :=
  base <- get_clint_base ;;
  writew (ret 1) (CLINT_SOFT base hartid).

Definition clint_clear_soft (hartid : Z) : M unit :=
  base <- get_clint_base ;;
  writew (ret 0) (CLINT_SOFT base hartid).

(** [is_pending(h)]: the truth value of [clint_check_soft(h)]. *)
Definition is_pending (hartid : Z) (st : state) : option bool :=
  match clint_check_soft hartid st with
  | Some (v, _) => Some (negb (v =? 0))
  | None => None
  end.

(* ================================================================== *)
(** ** Plain C accesses through a [char*] *)

Definition load_char (a : Z) : M byte :=
  m <- get_mem ;;
  emit (EvLoad 1 a (byte_to_Z (m a))) ;;
  ret (m a).

Definition store_char (a : Z) (c : byte) : M unit :=
  m <- get_mem ;;
  emit (EvStore 1 a (byte_to_Z c)) ;;
  put_mem (mem_set m a c).

(** A loop that ran out of fuel. *)
Definition out_of_fuel {A} : M A := fun _ => None.

(* ================================================================== *)
(** ** libs/string.c *)

(** [while ( *s++ != '\0') cnt++;] *)
Fixpoint strlen_loop (fuel : nat) (s cnt : Z) : M Z :=
  match fuel with
  | O => out_of_fuel
  | S f =>
      c <- load_char s ;;
      if byte_eqb c x00 then ret cnt
      else strlen_loop f (wrap64 (s + 1)) (wrap64 (cnt + 1))
  end.

Definition strlen (fuel : nat) (s : Z) : M Z := strlen_loop fuel s 0.

(** [while (n-- > 0) { *d++ = *s++; }]: the loop runs [n] times. *)
Fixpoint memcpy_loop (n : nat) (d s : Z) : M unit :=
  match n with
  | O => ret tt
  | S k =>
      c <- load_char s ;;
      store_char d c ;;
      memcpy_loop k (wrap64 (d + 1)) (wrap64 (s + 1))
  end.

Definition memcpy (dst src n : Z) : M Z :=
  memcpy_loop (Z.to_nat (wrap64 n)) dst src ;;
  ret dst.

(* ================================================================== *)
(** ** devices/uart/uart.c and uart.h: the registers and the output *)

Definition UART_REG_TXDATA : Z := 0.
Definition UART_REG_RXDATA : Z := 1.
Definition UART_REG_TXCTRL : Z := 2.
Definition UART_REG_RXCTRL : Z := 3.
Definition UART_REG_IE : Z := 4.
Definition UART_REG_IP : Z := 5.
Definition UART_REG_DIV : Z := 6.
Definition UART_TXDATA_FULL : Z := 0x80000000.
Definition UART_TXCTRL_TXEN : Z := 0x1.
Definition UART_RXCTRL_RXEN : Z := 0x1.

(** The three static variables of uart.c.  Only [uart_init] assigns
    them; the other functions of the driver read [uart_base] and take
    the statics as an argument. *)
Record uart := mkUart {
  uart_base : Z;
  uart_in_freq : Z;
  uart_baudrate : Z
}.

(** [uart_base + (i << 2)] with [i] a [uint32_t]. *)
Definition uart_reg_addr (u : uart) (i : Z) : Z :=
  wrap64 (uart_base u + wrap32 (Z.shiftl i 2)).

Definition get_reg (u : uart) (i : Z) : M Z := readw (uart_reg_addr u i).

Definition set_reg (u : uart) (i v : Z) : M unit :=
  writew (ret v) (uart_reg_addr u i).

(** [while (get_reg(UART_REG_TXDATA) & UART_TXDATA_FULL);] *)
Fixpoint uart_putc_wait (fuel : nat) (u : uart) : M unit :=
  match fuel with
  | O => out_of_fuel
  | S f =>
      reg <- get_reg u UART_REG_TXDATA ;;
      if Z.land reg UART_TXDATA_FULL =? 0 then ret tt
      else uart_putc_wait f u
  end.

(** [uart_putc(char ch)]: the wait for room in the transmit FIFO, then
    [set_reg(UART_REG_TXDATA, ch)]; [char] is unsigned on RISC-V. *)
Definition uart_putc (fuel : nat) (u : uart) (ch : byte) : M unit :=
  uart_putc_wait fuel u ;;
  set_reg u UART_REG_TXDATA (byte_to_Z ch).

(** [while ( *s != '\0') uart_putc( *s++);] on a string held in memory. *)
Fixpoint uart_puts_loop (fuel : nat) (u : uart) (s : Z) : M unit :=
  match fuel with
  | O => out_of_fuel
  | S f =>
      c <- load_char s ;;
      if byte_eqb c x00 then ret tt
      else
        ch <- load_char s ;;
        uart_putc fuel u ch ;;
        uart_puts_loop f u (wrap64 (s + 1))
  end.

Definition uart_puts (fuel : nat) (u : uart) (s : Z) : M unit :=
  uart_puts_loop fuel u s.

(** [uart_puts] on a string literal: the literal lives in read-only data
    at an address the sources do not fix, so the loads of its characters
    are not logged; each character goes through [uart_putc]. *)
Fixpoint uart_puts_lit (fuel : nat) (u : uart) (s : list byte) : M unit :=
  match s with
  | [] => ret tt
  | c :: rest => uart_putc fuel u c ;; uart_puts_lit fuel u rest
  end.

(** [c < 0xa ? ('0' + c) : ('a' + c - 0xa)] *)
Definition hex_digit (c : Z) : byte :=
  byte_of_Z (if c <? 0xa then byte_to_Z "0"%byte + c
             else byte_to_Z "a"%byte + c - 0xa).

(** [for (int idx = num - 1; idx >= 0; idx--)], counting [idx + 1] down. *)
Fixpoint uart_put_hex_loop (fuel : nat) (u : uart) (k : nat) (hex : Z)
  : M unit :=
  match k with
  | O => ret tt
  | S idx =>
      uart_putc fuel u
        (hex_digit (Z.land (Z.shiftr hex (Z.of_nat idx * 4)) 0xf)) ;;
      uart_put_hex_loop fuel u idx hex
  end.

Definition uart_put_hex (fuel : nat) (u : uart) (hex : Z) : M unit :=
  uart_puts_lit fuel u (list_byte_of_string "0x") ;;
  uart_put_hex_loop fuel u 8 (wrap32 hex).

(* ================================================================== *)
(** ** main.c *)

(** [puts], run by hart [self]; [s] is a string literal. *)
Definition puts (fuel : nat) (u : uart) (self : Z) (s : string) : M unit :=
  uart_puts_lit fuel u ([x0d; x0a] ++ list_byte_of_string "[HART ") ;;
  hartid <- read_csr_mhartid self ;;
  uart_putc fuel u (byte_of_Z (byte_to_Z "0"%byte + hartid)) ;;
  uart_puts_lit fuel u (list_byte_of_string "] ") ;;
  uart_puts_lit fuel u (list_byte_of_string s).

(** [while (n-- > 0) { writeb(readb(s), d); s++, d++; }] *)
Fixpoint smp_memcpy_loop (n : nat) (d s : Z) : M unit :=
  match n with
  | O => ret tt
  | S k =>
      writeb (readb s) d ;;
      smp_memcpy_loop k (wrap64 (d + 1)) (wrap64 (s + 1))
  end.

Definition smp_memcpy (dst src n : Z) : M Z :=
  smp_memcpy_loop (Z.to_nat (wrap64 n)) dst src ;;
  ret dst.

(** [while (!(read_csr(mip) & MIP_MSIP)) wfi();] run by hart [self]. *)
Fixpoint wait_ipi_loop (fuel : nat) (self : Z) : M unit :=
  match fuel with
  | O => out_of_fuel
  | S f =>
      v <- read_csr_mip self ;;
      if Z.land v MIP_MSIP =? 0 then wfi ;; wait_ipi_loop f self
      else ret tt
  end.

Definition wait_ipi (fuel : nat) (self hartid : Z) : M Z :=
  wait_ipi_loop fuel self ;;
  clint_clear_soft hartid ;;
  ret 0.

(** [test_ipi], from the message [m] that [readline] returned to the
    signal (main.c lines 89 to 95), run by hart [self]: the sending half
    of the mailbox. *)
Definition test_ipi_send (fuel : nat) (u : uart) (self to_hartid m : Z)
  : M unit :=
  len <- strlen fuel m ;;
  memcpy SMP_ADDR m (wrap64 (len + 1)) ;;
  puts fuel u self "Send software interrupt. Hartid=" ;;
  uart_put_hex fuel u to_hartid ;;
  clint_send_soft to_hartid.

(** The check [test_ipi] makes on the target typed at the console. *)
Definition to_hartid_ok (to_hartid : Z) : bool :=
  (ZERO_HART + 1 <=? to_hartid) && (to_hartid <=? MAX_HARTS - 1).

(** One round of the [while (1)] of [other_main], run by hart [self] with
    argument [hartid]: the receiving half of the mailbox. *)
Definition other_main_body (fuel : nat) (u : uart) (self hartid : Z)
  : M unit :=
  wait_ipi fuel self hartid ;;
  puts fuel u self "Software interrupt from Hart 0" ;;
  puts fuel u self "Message from Hart 0: " ;;
  uart_puts fuel u SMP_ADDR ;;
  clint_send_soft ZERO_HART.

(* ================================================================== *)
(** ** include/smp.h: the macro [smp_resume(reg1, reg2)]

    The macro is assembly.  Its two register parameters are [Reg1] and
    [Reg2]; its numeric local labels are resolved to instruction indices
    ([41b] is the nearest [41:] above the branch). *)

Inductive reg := Reg1 | Reg2 | Zero.

Inductive instr :=
| Li (rd : reg) (imm : Z)
| Sw (rs2 : reg) (off : Z) (rs1 : reg)
| Lw (rd : reg) (off : Z) (rs1 : reg)
| Addi (rd rs : reg) (imm : Z)
| Andi (rd rs : reg) (imm : Z)
| Slli (rd rs : reg) (sh : Z)
| Add (rd rs1 rs2 : reg)
| Blt (rs1 rs2 : reg) (target : nat)
| Beqz (rs : reg) (target : nat)
| Bnez (rs : reg) (target : nat)
| Wfi
| Csrr (rd : reg) (r : csr).

Definition L_broadcast : nat := 1.   (* first  41: *)
Definition L_wait : nat := 6.        (*        42: *)
Definition L_ack : nat := 10.        (* fall through of beqz *)
Definition L_sweep : nat := 15.      (* second 41: *)
Definition L_end : nat := 20.        (* past the macro *)

Definition smp_resume : list instr :=
  [ (*  0 *) Li Reg1 CLINT_CTRL_ADDR;
    (*  1 *) Li Reg2 1;                          (* 41: *)
    (*  2 *) Sw Reg2 0 Reg1;
    (*  3 *) Addi Reg1 Reg1 4;
    (*  4 *) Li Reg2 CLINT_END_HART_IPI;
    (*  5 *) Blt Reg1 Reg2 L_broadcast;
    (*  6 *) Wfi;                                (* 42: *)
    (*  7 *) Csrr Reg2 CSR_mip;
    (*  8 *) Andi Reg2 Reg2 MIP_MSIP;
    (*  9 *) Beqz Reg2 L_wait;
    (* 10 *) Li Reg1 CLINT_CTRL_ADDR;
    (* 11 *) Csrr Reg2 CSR_mhartid;
    (* 12 *) Slli Reg2 Reg2 2;
    (* 13 *) Add Reg2 Reg2 Reg1;
    (* 14 *) Sw Zero 0 Reg2;
    (* 15 *) Lw Reg2 0 Reg1;                     (* 41: *)
    (* 16 *) Bnez Reg2 L_sweep;
    (* 17 *) Addi Reg1 Reg1 4;
    (* 18 *) Li Reg2 CLINT_END_HART_IPI;
    (* 19 *) Blt Reg1 Reg2 L_sweep ].

(** One hart: its program counter inside the macro, the two registers the
    macro uses, its [mhartid] and the log of its own accesses. *)
Record hart := mkHart {
  pc : nat;
  reg1 : Z;
  reg2 : Z;
  mhartid : Z;
  htrace : list event
}.

Definition rd_reg (r : reg) (h : hart) : Z :=
  match r with
  | Reg1 => reg1 h
  | Reg2 => reg2 h
  | Zero => 0
  end.

Definition wr_reg (r : reg) (v : Z) (h : hart) : hart :=
  match r with
  | Reg1 => mkHart (pc h) v (reg2 h) (mhartid h) (htrace h)
  | Reg2 => mkHart (pc h) (reg1 h) v (mhartid h) (htrace h)
  | Zero => h
  end.

Definition goto (target : nat) (h : hart) : hart :=
  mkHart target (reg1 h) (reg2 h) (mhartid h) (htrace h).

Definition next (h : hart) : hart := goto (S (pc h)) h.

Definition log (e : event) (h : hart) : hart :=
  mkHart (pc h) (reg1 h) (reg2 h) (mhartid h) (htrace h ++ [e]).

Definition exec (i : instr) (h : hart) (m : memory) : hart * memory :=
  match i with
  | Li rd imm => (next (wr_reg rd (wrap64 imm) h), m)
  | Sw rs2 off rs1 =>
      let a := wrap64 (rd_reg rs1 h + off) in
      (next (log (EvStore 4 a (wrap32 (rd_reg rs2 h))) h),
       store_le m a 4 (rd_reg rs2 h))
  | Lw rd off rs1 =>
      let a := wrap64 (rd_reg rs1 h + off) in
      let v := load_le m a 4 in
      (next (wr_reg rd (sext 4 v) (log (EvLoad 4 a v) h)), m)
  | Addi rd rs imm => (next (wr_reg rd (wrap64 (rd_reg rs h + imm)) h), m)
  | Andi rd rs imm => (next (wr_reg rd (Z.land (rd_reg rs h) (wrap64 imm)) h), m)
  | Slli rd rs sh => (next (wr_reg rd (wrap64 (Z.shiftl (rd_reg rs h) sh)) h), m)
  | Add rd rs1 rs2 => (next (wr_reg rd (wrap64 (rd_reg rs1 h + rd_reg rs2 h)) h), m)
  | Blt rs1 rs2 target =>
      (if signed64 (rd_reg rs1 h) <? signed64 (rd_reg rs2 h)
       then goto target h else next h, m)
  | Beqz rs target =>
      (if rd_reg rs h =? 0 then goto target h else next h, m)
  | Bnez rs target =>
      (if rd_reg rs h =? 0 then next h else goto target h, m)
  | Wfi => (next (log EvWfi h), m)
  | Csrr rd CSR_mip =>
      let v := mip_of m (mhartid h) in
      (next (wr_reg rd v (log (EvCsrRead CSR_mip v) h)), m)
  | Csrr rd CSR_mhartid =>
      (next (wr_reg rd (mhartid h) (log (EvCsrRead CSR_mhartid (mhartid h)) h)), m)
  end.

(** One instruction of the macro; a hart that left the macro stays put. *)
Definition step (h : hart) (m : memory) : hart * memory :=
  match nth_error smp_resume (pc h) with
  | Some i => exec i h m
  | None => (h, m)
  end.

(** All harts over the shared memory.  Hart 0 of the list is the primary,
    which enters the macro at its top; [smp_pause] sends every other hart
    to the label [42] ([bne reg1, reg2, 42f]). *)
Record system := mkSystem {
  harts : list hart;
  smem : memory
}.

Fixpoint set_nth {A} (i : nat) (x : A) (l : list A) : list A :=
  match l, i with
  | [], _ => []
  | _ :: t, O => x :: t
  | y :: t, S j => y :: set_nth j x t
  end.

(** Hart number [i] of the list executes one instruction. *)
Definition sys_step (i : nat) (s : system) : system :=
  match nth_error (harts s) i with
  | Some h => let (h', m') := step h (smem s) in
              mkSystem (set_nth i h' (harts s)) m'
  | None => s
  end.

(** An interleaving: the list says which hart moves next. *)
Fixpoint run (sched : list nat) (s : system) : system :=
  match sched with
  | [] => s
  | i :: rest => run rest (sys_step i s)
  end.

Definition primary (s : system) : option hart := nth_error (harts s) 0.

(** The harts as the boot code leaves them in front of the macro. *)
Definition booted (s : system) : bool :=
  match harts s with
  | [] => false
  | p :: others =>
      (pc p =? 0)%nat && forallb (fun h => (pc h =? L_wait)%nat) others
  end.

(** The pending word of hart [h] as the macro addresses it. *)
Definition msip_word (m : memory) (h : Z) : Z :=
  load_le m (CLINT_CTRL_ADDR + h * CLINT_MSIP_SIZE) 4.

(* ================================================================== *)
(** ** libs/string.c: the other memory routines *)

(** [while (n-- > 0) *p++ = c;] *)
Fixpoint memset_loop (n : nat) (p : Z) (c : byte) : M unit :=
  match n with
  | O => ret tt
  | S k => store_char p c ;; memset_loop k (wrap64 (p + 1)) c
  end.

Definition memset (s : Z) (c : byte) (n : Z) : M Z :=
  memset_loop (Z.to_nat (wrap64 n)) s c ;;
  ret s.

(** [while (n-- > 0) *--d = *--s;] *)
Fixpoint memmove_back_loop (n : nat) (d s : Z) : M unit :=
  match n with
  | O => ret tt
  | S k =>
      let s' := wrap64 (s - 1) in
      let d' := wrap64 (d - 1) in
      c <- load_char s' ;;
      store_char d' c ;;
      memmove_back_loop k d' s'
  end.

(** [if (s < d && s + n > d) { s += n, d += n; <backwards> } else <forwards>] *)
Definition memmove (dst src n : Z) : M Z :=
  let n' := wrap64 n in
  (if (src <? dst) && (dst <? wrap64 (src + n'))
   then memmove_back_loop (Z.to_nat n') (wrap64 (dst + n')) (wrap64 (src + n'))
   else memcpy_loop (Z.to_nat n') dst src) ;;
  ret dst.

(** [while (n-- > 0) { if ( *s1 != *s2) return (int)((unsigned char)*s1 -
    (unsigned char)*s2); s1++, s2++; } return 0;] *)
Fixpoint memcmp_loop (n : nat) (s1 s2 : Z) : M Z :=
  match n with
  | O => ret 0
  | S k =>
      a <- load_char s1 ;;
      b <- load_char s2 ;;
      if byte_eqb a b
      then memcmp_loop k (wrap64 (s1 + 1)) (wrap64 (s2 + 1))
      else
        a' <- load_char s1 ;;
        b' <- load_char s2 ;;
        ret (byte_to_Z a' - byte_to_Z b')
  end.

Definition memcmp (v1 v2 n : Z) : M Z :=
  memcmp_loop (Z.to_nat (wrap64 n)) v1 v2.

(* ================================================================== *)
(** ** devices/uart/uart.c: clock divisor and input

    On the input side the device is represented by [rx], the values its
    receive register returns to successive reads. *)

Definition UART_RXDATA_EMPTY : Z := 0x80000000.
Definition UART_RXDATA_MASK : Z := 0x000000ff.

(** [uint64_t quotient = (in_freq + max_target_hz - 1) / (max_target_hz);]
    returned through [unsigned int].  For a rate of zero the division is
    undefined in C: the function stands for the code only where
    [max_target_hz] is not zero, and every statement about it has that
    as a hypothesis. *)
Definition uart_min_clk_divisor (in_freq max_target_hz : Z) : Z :=
  let quotient :=
    wrap64 (wrap64 (in_freq + max_target_hz) - 1) / max_target_hz in
  if quotient =? 0 then 0 else wrap32 (quotient - 1).

(** The value [uart_getc] makes of what the receive register returned. *)
Definition uart_getc_of (reg : Z) : Z :=
  if Z.land reg UART_RXDATA_EMPTY =? 0
  then Z.land reg UART_RXDATA_MASK
  else -1.

(** [uart_getc]: one read of the receive register; a device that has
    nothing more to deliver reads as empty. *)
Definition uart_getc (rx : list Z) : Z * list Z :=
  match rx with
  | [] => (-1, [])
  | reg :: rest => (uart_getc_of (wrap32 reg), rest)
  end.

(* ================================================================== *)
(** ** libs/console.c *)

Definition BUFSIZE : Z := 1024.
Definition NULL : Z := 0.
Definition MSTATUS_MIE : Z := 0x00000008.

(** [__intr_save] and [__intr_restore] on the value of [mstatus]:
    [clear_csr] is [csrrc], [set_csr] is [csrrs].  The first returns its
    flag and the new [mstatus]. *)
Definition __intr_save (mstatus : Z) : Z * Z :=
  if Z.land mstatus MSTATUS_MIE =? 0
  then (0, mstatus)
  else (1, Z.land mstatus (wrap64 (Z.lnot MSTATUS_MIE))).

Definition __intr_restore (flag mstatus : Z) : Z :=
  if flag =? 0 then mstatus else Z.lor mstatus MSTATUS_MIE.

(** [while ((c = uart_getc()) == -1);]: every turn is one read of the
    receive register; with nothing more to come the loop never ends. *)
Fixpoint getchar (rx : list Z) : option (Z * list Z) :=
  match rx with
  | [] => None
  | reg :: rest =>
      let c := fst (uart_getc (reg :: rest)) in
      if c =? -1 then getchar rest else Some (c, rest)
  end.

(** The [while (1)] of [readline]; [buf] is the address of its static
    buffer and [i] the index into it.  Every turn reads at least one
    register value, so that [n] turns are enough when [n] exceeds their
    number; [fuel] bounds the wait of each [uart_putc]. *)
Fixpoint readline_loop (fuel n : nat) (u : uart) (buf : Z) (rx : list Z)
         (i : Z) : M (Z * list Z) :=
  match n with
  | O => out_of_fuel
  | S f =>
      match getchar rx with
      | None => out_of_fuel
      | Some (c, rx') =>
          if c <? 0 then ret (NULL, rx')
          else if (byte_to_Z " "%byte <=? c) && (i <? BUFSIZE - 1) then
            uart_putc fuel u (byte_of_Z c) ;;
            store_char (wrap64 (buf + i)) (byte_of_Z c) ;;
            readline_loop fuel f u buf rx' (i + 1)
          else if (c =? 8) && (0 <? i) then
            uart_putc fuel u (byte_of_Z c) ;;
            readline_loop fuel f u buf rx' (i - 1)
          else if (c =? 10) || (c =? 13) then
            uart_putc fuel u (byte_of_Z c) ;;
            store_char (wrap64 (buf + i)) x00 ;;
            ret (buf, rx')
          else readline_loop fuel f u buf rx' i
      end
  end.

(** [readline(prompt)]: [fuel] bounds the printing of the prompt and the
    waits of [uart_putc]; the loop itself cannot take more turns than
    there are register values. *)
Definition readline (fuel : nat) (u : uart) (prompt buf : Z) (rx : list Z)
  : M (Z * list Z) :=
  (if prompt =? NULL then ret tt else uart_puts fuel u prompt) ;;
  readline_loop fuel (S (length rx)) u buf rx 0.

(* ================================================================== *)
(** ** main.c: choosing the target, and a whole round of [test_ipi] *)

(** [to_hartid = readline(NULL)[0] - '0';] into a [size_t]. *)
Definition to_hartid_of (c : byte) : Z :=
  wrap64 (byte_to_Z c - byte_to_Z "0"%byte).

(** [test_ipi] from the message to the end of its round: send, wait for
    the answer, report. *)
Definition test_ipi_round (fuel : nat) (u : uart) (hartid to_hartid m : Z)
  : M unit :=
  test_ipi_send fuel u hartid to_hartid m ;;
  wait_ipi fuel hartid hartid ;;
  puts fuel u hartid "Finished receiving. Hartid=" ;;
  uart_put_hex fuel u to_hartid.

(** The console test of [main] (main.c lines 56 to 61), run by hart
    [self]; [buf] is the address of the buffer of [readline]. *)
Definition main_console_test (fuel : nat) (u : uart) (self buf : Z)
           (rx : list Z) : M (list Z) :=
  puts fuel u self "Test console: " ;;
  r <- readline fuel u NULL buf rx ;;
  (if fst r =? NULL then ret tt
   else puts fuel u self "Test console OK: " ;; uart_puts fuel u (fst r)) ;;
  ret (snd r).

(** The inner [while (1)] of [test_ipi]: ask until the answer names a
    hart to wake; [n] bounds the number of questions. *)
Fixpoint read_target (fuel n : nat) (u : uart) (self buf : Z) (rx : list Z)
  : M (Z * list Z) :=
  match n with
  | O => out_of_fuel
  | S k =>
      puts fuel u self "Input hartid to wake up target hart: " ;;
      r <- readline fuel u NULL buf rx ;;
      c <- load_char (fst r) ;;
      let to_hartid := to_hartid_of c in
      if to_hartid_ok to_hartid then ret (to_hartid, snd r)
      else puts fuel u self "Hartid out of range!" ;;
           read_target fuel k u self buf (snd r)
  end.

(** One turn of the outer [while (1)] of [test_ipi] (main.c lines 76 to
    98), run by hart [self]. *)
Definition test_ipi_turn (fuel n : nat) (u : uart) (self buf : Z)
           (rx : list Z) : M (list Z) :=
  t <- read_target fuel n u self buf rx ;;
  puts fuel u self "Input message: " ;;
  r <- readline fuel u NULL buf (snd t) ;;
  test_ipi_round fuel u self (fst t) (fst r) ;;
  ret (snd r).

(* ================================================================== *)
(** ** include/io.h: the half-word accessors *)

(** [sh] of an argument of type [uint16_t], [lh] into a [uint16_t]. *)
Definition __raw_writeh (v a : Z) : M unit := store_insn 2 (v mod 2 ^ 16) a.
Definition __raw_readh (a : Z) : M Z := r <- load_insn 2 a ;; ret (r mod 2 ^ 16).

Definition readh (a : Z) : M Z :=
  __io_br ;; v <- __raw_readh a ;; __io_ar ;; ret v.
Definition writeh (v : M Z) (a : Z) : M unit :=
  __io_bw ;; x <- v ;; __raw_writeh x a ;; __io_aw.

(* ================================================================== *)
(** ** devices/uart/uart.c: [uart_init] *)

(** [uart_init(size_t base, uint32_t in_freq, uint32_t baudrate)]; the
    statics it assigns are returned. *)
Definition uart_init (base in_freq baudrate : Z) : M uart :=
  let u := mkUart (wrap64 base) (wrap32 in_freq) (wrap32 baudrate) in
  (if uart_in_freq u =? 0 then ret tt
   else set_reg u UART_REG_DIV
                (uart_min_clk_divisor (uart_in_freq u) (uart_baudrate u))) ;;
  set_reg u UART_REG_IE 0 ;;
  set_reg u UART_REG_TXCTRL UART_TXCTRL_TXEN ;;
  set_reg u UART_REG_RXCTRL UART_RXCTRL_RXEN ;;
  ret u.

(* ================================================================== *)
(** ** Vocabulary of the statements *)

(** A memory, a controller binding and nothing logged yet. *)
Definition boot_state : state :=
  mkState (fun _ => x00) CLINT_CTRL_ADDR [] [].

(** No pending bit of the configured harts is set. *)
Definition all_clear (st : state) : Prop :=
  forall h, 0 <= h < MAX_HARTS -> is_pending h st = Some false.

(** The memory after the forward byte-by-byte copy that both [memcpy] and
    [smp_memcpy] perform, and the accesses each of them logs for it. *)
Fixpoint copy_fwd (n : nat) (d s : Z) (m : memory) : memory :=
  match n with
  | O => m
  | S k => copy_fwd k (wrap64 (d + 1)) (wrap64 (s + 1)) (mem_set m d (m s))
  end.

Fixpoint memcpy_events (n : nat) (d s : Z) (m : memory) : list event :=
  match n with
  | O => []
  | S k =>
      EvLoad 1 s (byte_to_Z (m s)) :: EvStore 1 d (byte_to_Z (m s)) ::
      memcpy_events k (wrap64 (d + 1)) (wrap64 (s + 1)) (mem_set m d (m s))
  end.

Fixpoint smp_memcpy_events (n : nat) (d s : Z) (m : memory) : list event :=
  match n with
  | O => []
  | S k =>
      EvFence FW FO :: EvLoad 1 s (byte_to_Z (m s)) :: EvFence FI FR ::
      EvStore 1 d (byte_to_Z (m s)) ::
      smp_memcpy_events k (wrap64 (d + 1)) (wrap64 (s + 1)) (mem_set m d (m s))
  end.

(** Loads of consecutive characters starting at [a]. *)
Fixpoint load_events (a : Z) (bs : list byte) : list event :=
  match bs with
  | [] => []
  | b :: rest => EvLoad 1 a (byte_to_Z b) :: load_events (a + 1) rest
  end.

Fixpoint hex_digits (k : nat) (hex : Z) : list byte :=
  match k with
  | O => []
  | S idx => hex_digit (Z.land (Z.shiftr hex (Z.of_nat idx * 4)) 0xf)
             :: hex_digits idx hex
  end.

(** The message [bs] sits at [a] as a C string: its characters, none of
    them NUL, followed by a NUL. *)
Definition cstring_at (m : memory) (a : Z) (bs : list byte) : Prop :=
  load_bytes m a (S (length bs)) = bs ++ [x00] /\
  forallb (fun b => negb (byte_eqb b x00)) bs = true.

(** Addresses of the mailbox region. *)
Definition in_mailbox (a : Z) : bool :=
  (SMP_ADDR <=? a) && (a <? SMP_ADDR + SMP_SIZE).

Definition is_fence (e : event) : bool :=
  match e with EvFence _ _ => true | _ => false end.

Definition is_store (e : event) : bool :=
  match e with EvStore _ _ _ => true | _ => false end.

(** Every store into the mailbox has a [fence(w, o)] of its own in front
    of it, issued after the store before it, as [writeb] does; [armed]
    says that such a fence is outstanding. *)
Fixpoint fenced_stores (armed : bool) (t : list event) : bool :=
  match t with
  | [] => true
  | EvFence FW FO :: rest => fenced_stores true rest
  | EvStore _ a _ :: rest =>
      (armed || negb (in_mailbox a)) && fenced_stores false rest
  | _ :: rest => fenced_stores armed rest
  end.

(** The byte stores that copy [bs] to [a], [a+1], ... *)
Fixpoint store_events (a : Z) (bs : list byte) : list event :=
  match bs with
  | [] => []
  | b :: rest => EvStore 1 a (byte_to_Z b) :: store_events (a + 1) rest
  end.

(** A buffer of [n] bytes at [a] that lies inside the address space. *)
Definition buffer_ok (a n : Z) : Prop := 0 <= a /\ a + n < 2 ^ 64.

(** The two buffers do not overlap. *)
Definition apart (a b n : Z) : Prop := a + n <= b \/ b + n <= a.

(** A state whose memory holds the message [bs] and its terminator at
    [msg_addr] (the base of DRAM) and zeroes elsewhere, with the
    controller bound as [main] binds it. *)
Definition msg_addr : Z := 0x80000000.

Definition msg_state (bs : list byte) : state :=
  mkState (fun a => if msg_addr <=? a
                    then nth (Z.to_nat (a - msg_addr)) bs x00 else x00)
          CLINT_CTRL_ADDR [] [].

Definition hello : list byte := list_byte_of_string "hello".

(** What the wait loop of [wait_ipi] logs while the bit is not set. *)
Definition is_wait_event (e : event) : bool :=
  match e with
  | EvWfi => true
  | EvCsrRead CSR_mip 0 => true
  | _ => false
  end.

(** A hart of the macro under arbitrary interference: [ms] lists the
    memory the hart finds at each of its moves, whatever the other harts
    made of it in between. *)
Fixpoint moves (ms : list memory) (h : hart) : hart :=
  match ms with
  | [] => h
  | m :: rest => moves rest (fst (step h m))
  end.

(** The stores of [clint_send_soft 0], ..., [clint_send_soft 4] with the
    controller at [CLINT_CTRL_ADDR]. *)
Definition broadcast_stores : list event :=
  map (fun h => EvStore 4 (CLINT_SOFT CLINT_CTRL_ADDR h) 1) [0; 1; 2; 3; 4].

(** A state in which hart 1 waits and the other harts first do nothing
    and then raise its bit. *)
Definition waiting_state : state :=
  mkState (fun _ => x00) CLINT_CTRL_ADDR [] [EnvIdle; EnvRaise 1].

(** The program counters a hart passes through, its first included. *)
Fixpoint visited (ms : list memory) (h : hart) : list nat :=
  match ms with
  | [] => [pc h]
  | m :: rest => pc h :: visited rest (fst (step h m))
  end.

(** A hart in front of the macro and the interference-free memories of
    its first moves. *)
Definition hart_at_entry : hart := mkHart 0 0 0 ZERO_HART [].

Definition quiet (n : nat) : list memory := repeat (fun _ => x00) n.

(** The pending words of harts [0 .. k-1] read zero. *)
Definition swept (m : memory) (k : Z) : Prop :=
  forall j, 0 <= j < k -> msip_word m j = 0.

(** [reg1] points at the pending word of hart [k]. *)
Definition at_hart (p : hart) (k : Z) : Prop :=
  reg1 p = CLINT_CTRL_ADDR + k * CLINT_MSIP_SIZE.

(** The log [t] holds, for each of the harts [0 .. k-1], a load of its
    pending word that returned zero. *)
Definition polled (t : list event) (k : Z) : Prop :=
  forall j, 0 <= j < k ->
    In (EvLoad 4 (CLINT_CTRL_ADDR + j * CLINT_MSIP_SIZE) 0) t.

(** The sweep is past the harts [0 .. k-1]: each was seen clear and is
    clear. *)
Definition behind (t : list event) (m : memory) (k : Z) : Prop :=
  swept m k /\ polled t k.

(** What holds of the primary at each instruction of the macro: from the
    reload of [reg1] on, [reg1] walks the pending words and the sweep is
    past every word behind it. *)
Definition primary_inv (p : hart) (m : memory) : Prop :=
  match pc p with
  | 11%nat | 12%nat | 13%nat | 14%nat => reg1 p = CLINT_CTRL_ADDR
  | 15%nat => exists k, 0 <= k < MAX_HARTS /\ at_hart p k /\
                        behind (htrace p) m k
  | 16%nat => exists k, 0 <= k < MAX_HARTS /\ at_hart p k /\
                        behind (htrace p) m k /\
                        (reg2 p = 0 -> behind (htrace p) m (k + 1))
  | 17%nat => exists k, 0 <= k < MAX_HARTS /\ at_hart p k /\
                        behind (htrace p) m (k + 1)
  | 18%nat => exists k, 1 <= k <= MAX_HARTS /\ at_hart p k /\
                        behind (htrace p) m k
  | 19%nat => exists k, 1 <= k <= MAX_HARTS /\ at_hart p k /\
                        behind (htrace p) m k /\
                        reg2 p = CLINT_END_HART_IPI
  | n => if (n <? 11)%nat then True else behind (htrace p) m MAX_HARTS
  end.

(** What holds of the whole system: the primary's invariant, and every
    other hart is at or behind the wait label. *)
Definition system_inv (s : system) : Prop :=
  match harts s with
  | [] => False
  | p :: others =>
      primary_inv p (smem s) /\ Forall (fun h => (L_wait <= pc h)%nat) others
  end.

(** Five harts as the boot code leaves them, over a zeroed memory, and an
    interleaving in which the primary broadcasts and acknowledges, the
    four others acknowledge in turn, and the primary sweeps. *)
Definition boot_system : system :=
  mkSystem (mkHart 0 0 0 0 [] ::
            map (fun i => mkHart L_wait 0 0 i []) [1; 2; 3; 4])
           (fun _ => x00).

Definition barrier_schedule : list nat :=
  repeat 0%nat 35 ++ repeat 1%nat 9 ++ repeat 2%nat 9 ++ repeat 3%nat 9 ++
  repeat 4%nat 9 ++ repeat 0%nat 25.

(** The memory after [memset]'s loop, after the backward loop of
    [memmove] ([d] and [s] point behind the bytes still to copy), and the
    verdict of [memcmp] on two byte lists. *)
Fixpoint fill_fwd (n : nat) (p : Z) (c : byte) (m : memory) : memory :=
  match n with
  | O => m
  | S k => fill_fwd k (wrap64 (p + 1)) c (mem_set m p c)
  end.

Fixpoint copy_bwd (n : nat) (d s : Z) (m : memory) : memory :=
  match n with
  | O => m
  | S k =>
      copy_bwd k (wrap64 (d - 1)) (wrap64 (s - 1))
               (mem_set m (wrap64 (d - 1)) (m (wrap64 (s - 1))))
  end.

Fixpoint bytes_cmp (l1 l2 : list byte) : Z :=
  match l1, l2 with
  | a :: r1, b :: r2 =>
      if byte_eqb a b then bytes_cmp r1 r2 else byte_to_Z a - byte_to_Z b
  | _, _ => 0
  end.

(** The state [st] with memory [m] and [evs] appended to its log. *)
Definition after (st : state) (m : memory) (evs : list event) : state :=
  mkState m (clint_base st) (trace st ++ evs) (env st).

(** Reading back what [uart_put_hex] printed: the value of a digit, and
    of a string of digits, most significant first. *)
Definition hex_value (b : byte) : option Z :=
  let z := byte_to_Z b in
  if (byte_to_Z "0"%byte <=? z) && (z <=? byte_to_Z "9"%byte)
  then Some (z - byte_to_Z "0"%byte)
  else if (byte_to_Z "a"%byte <=? z) && (z <=? byte_to_Z "f"%byte)
       then Some (z - byte_to_Z "a"%byte + 10)
       else None.

Fixpoint parse_hex (l : list byte) (acc : Z) : option Z :=
  match l with
  | [] => Some acc
  | b :: rest =>
      match hex_value b with
      | Some d => parse_hex rest (acc * 16 + d)
      | None => None
      end
  end.

(** The characters a sequence of receive-register values delivers. *)
Definition rx_chars (rx : list Z) : list Z :=
  filter (fun c => negb (c =? -1))
         (map (fun reg => uart_getc_of (wrap32 reg)) rx).

(** The line editor of [readline] on the characters delivered: from the
    line typed so far to the line returned, the characters echoed and the
    characters left over; [None] when no end of line ever comes. *)
Fixpoint edit (cs : list Z) (line : list byte)
  : option (list byte * list byte * list Z) :=
  match cs with
  | [] => None
  | c :: rest =>
      if (byte_to_Z " "%byte <=? c) && (Z.of_nat (length line) <? BUFSIZE - 1) then
        match edit rest (line ++ [byte_of_Z c]) with
        | Some (l, e, r) => Some (l, byte_of_Z c :: e, r)
        | None => None
        end
      else if (c =? 8) && (0 <? Z.of_nat (length line)) then
        match edit rest (removelast line) with
        | Some (l, e, r) => Some (l, byte_of_Z c :: e, r)
        | None => None
        end
      else if (c =? 10) || (c =? 13) then Some (line, [byte_of_Z c], rest)
      else edit rest line
  end.

(** A character that [readline] stores. *)
Definition printable (b : byte) : Prop := 32 <= byte_to_Z b.


(** What the other harts may do while hart [self] waits without waking
    it: anything but raise its bit. *)
Definition quiet_for (self : Z) (e : env_event) : bool :=
  match e with
  | EnvRaise h => (0 <=? h) && (h <? MAX_HARTS) && negb (h =? self)
  | EnvClear _ => true
  | EnvIdle => true
  end.

(** The state [st] with the activity [e] of the other harts ahead. *)
Definition with_env (st : state) (e : list env_event) : state :=
  mkState (mem st) (clint_base st) (trace st) e.

(** The addresses of the timer registers, as clint.c computes them. *)
Definition mtimecmp_addr (base hartid : Z) : Z :=
  wrap64 (wrap64 (base + wrap64 (hartid * CLINT_MTIMECMP_SIZE))
          + CLINT_MTIMECMP_OFFSET).

Definition mtime_addr (base : Z) : Z := wrap64 (base + CLINT_MTIME_OFFSET).


(** An activity of the other harts on the pending bit of a hart of the
    configured range. *)
Definition in_range_env (e : env_event) : bool :=
  match e with
  | EnvRaise h | EnvClear h => (0 <=? h) && (h <? MAX_HARTS)
  | EnvIdle => true
  end.

(** The characters a call of [puts] by hart [self] transmits. *)
Definition puts_chars (self : Z) (s : string) : list byte :=
  ([x0d; x0a] ++ list_byte_of_string "[HART ") ++
  [byte_of_Z (byte_to_Z "0"%byte + self)] ++
  list_byte_of_string "] " ++ list_byte_of_string s.

(** The characters [uart_put_hex] transmits. *)
Definition hex_chars (hex : Z) : list byte :=
  list_byte_of_string "0x" ++ hex_digits 8 (wrap32 hex).



(** Hart [h] is a hart of the configured range other than hart [k]. *)
Definition not_hart (k : Z) (h : hart) : Prop :=
  0 <= mhartid h < MAX_HARTS /\ mhartid h <> k.

(** Between the reload of [reg1] and the acknowledging store the two
    registers hold what the store needs. *)
Definition ack_regs (h : hart) : Prop :=
  match pc h with
  | 11%nat => reg1 h = CLINT_CTRL_ADDR
  | 12%nat => reg1 h = CLINT_CTRL_ADDR /\ reg2 h = mhartid h
  | 13%nat => reg1 h = CLINT_CTRL_ADDR /\
              reg2 h = mhartid h * CLINT_MSIP_SIZE
  | 14%nat => reg1 h = CLINT_CTRL_ADDR /\
              reg2 h = CLINT_CTRL_ADDR + mhartid h * CLINT_MSIP_SIZE
  | _ => True
  end.

(** The primary when nobody clears the pending word of hart [k]: the
    broadcast is on its way to that word or has raised it, and the sweep
    is not past it. *)
Definition held_up (k : Z) (p : hart) (m : memory) : Prop :=
  match pc p with
  | 0%nat => True
  | 1%nat => exists j, 0 <= j < MAX_HARTS /\ at_hart p j /\
                       (k < j -> msip_word m k = 1)
  | 2%nat => exists j, 0 <= j < MAX_HARTS /\ at_hart p j /\ reg2 p = 1 /\
                       (k < j -> msip_word m k = 1)
  | 3%nat => exists j, 0 <= j < MAX_HARTS /\ at_hart p j /\
                       (k <= j -> msip_word m k = 1)
  | 4%nat => exists j, 1 <= j <= MAX_HARTS /\ at_hart p j /\
                       (k < j -> msip_word m k = 1)
  | 5%nat => exists j, 1 <= j <= MAX_HARTS /\ at_hart p j /\
                       reg2 p = CLINT_END_HART_IPI /\
                       (k < j -> msip_word m k = 1)
  | 15%nat => msip_word m k = 1 /\ exists j, 0 <= j <= k /\ at_hart p j
  | 16%nat => msip_word m k = 1 /\
              exists j, 0 <= j <= k /\ at_hart p j /\ (j = k -> reg2 p <> 0)
  | 17%nat => msip_word m k = 1 /\ exists j, 0 <= j < k /\ at_hart p j
  | 18%nat => msip_word m k = 1 /\ exists j, 1 <= j <= k /\ at_hart p j
  | 19%nat => msip_word m k = 1 /\
              exists j, 1 <= j <= k /\ at_hart p j /\
                        reg2 p = CLINT_END_HART_IPI
  | n => (n < 15)%nat /\ msip_word m k = 1
  end.

(** What holds of the whole system when no hart is hart [k]. *)
Definition absent_inv (k : Z) (s : system) : Prop :=
  match harts s with
  | [] => False
  | p :: others =>
      held_up k p (smem s) /\
      Forall (fun h => ack_regs h /\ not_hart k h) (p :: others) /\
      Forall (fun h => (L_wait <= pc h)%nat) others
  end.

(** The board with hart 3 missing. *)
Definition boot_system_without_3 : system :=
  mkSystem (mkHart 0 0 0 0 [] ::
            map (fun i => mkHart L_wait 0 0 i []) [1; 2; 4])
           (fun _ => x00).

(** The transmit register of the serial device, and the device having
    room for a character: the register reads with [UART_TXDATA_FULL]
    clear.  The registers of the device are bytes of the memory here: a
    load of the transmit register returns the word last stored to it, so
    that after [uart_putc] has stored a character the register reads
    with the bit clear, and only a store changes what it reads. *)
Definition uart_tx_addr (u : uart) : Z := uart_reg_addr u UART_REG_TXDATA.

Definition tx_ready (u : uart) (m : memory) : Prop :=
  Z.land (load_le m (uart_tx_addr u) 4) UART_TXDATA_FULL = 0.

(** The transmit register lies outside the [n] bytes at [a]. *)
Definition tx_outside (u : uart) (a n : Z) : Prop :=
  uart_tx_addr u + 4 <= a \/ a + n <= uart_tx_addr u.

(** The characters handed to the serial device: what the log stores into
    the transmit register, in order. *)
Fixpoint tx_chars (u : uart) (t : list event) : list byte :=
  match t with
  | [] => []
  | EvStore 4 a v :: rest =>
      if a =? uart_tx_addr u then byte_of_Z v :: tx_chars u rest
      else tx_chars u rest
  | _ :: rest => tx_chars u rest
  end.

(** What the console output of the driver logs: fences, the read of
    [mhartid] by [puts], and word accesses of the transmit register. *)
Definition console_event (u : uart) (e : event) : bool :=
  match e with
  | EvFence _ _ => true
  | EvCsrRead CSR_mhartid _ => true
  | EvLoad 4 a _ => a =? uart_tx_addr u
  | EvStore 4 a _ => a =? uart_tx_addr u
  | _ => false
  end.

(** A computation that only prints: from a state in which the device has
    room it returns [a], has handed the characters [cs] to the device,
    has logged console accesses only and has changed no byte outside the
    transmit register; the device has room again. *)
Definition sends {A} (u : uart) (c : M A) (a : A) (cs : list byte) : Prop :=
  forall st, tx_ready u (mem st) ->
    exists m' evs,
      c st = Some (a, after st m' evs) /\
      tx_ready u m' /\
      (forall x, x < uart_tx_addr u \/ uart_tx_addr u + 4 <= x ->
                 m' x = mem st x) /\
      forallb (console_event u) evs = true /\
      tx_chars u evs = cs.

(** The serial device as [main] sets it up:
    [uart_init(UART0_ADDR, DEFAULT_UART_FREQ, DEFAULT_UART_BAUDRATE)]. *)
Definition UART0_ADDR : Z := 0x10010000.

Definition uart0 : uart := mkUart UART0_ADDR 0 115200.

(** A computation that, whenever it returns, has only added to the
    log. *)
Definition extends {A} (c : M A) : Prop :=
  forall st a st', c st = Some (a, st') -> exists evs, trace st' = trace st ++ evs.
(* ================================================================== *)
(** * Properties *)

(** ** Bytes and words *)

Lemma byte_to_Z_range (b : byte) : 0 <= byte_to_Z b < 256.
Proof.
  unfold byte_to_Z. pose proof (Byte.to_N_bounded b). lia.
Qed.

Lemma byte_of_to_Z (b : byte) : byte_of_Z (byte_to_Z b) = b.
Proof.
  unfold byte_of_Z, byte_to_Z.
  rewrite Z.mod_small by (pose proof (Byte.to_N_bounded b); lia).
  rewrite N2Z.id, Byte.of_to_N. reflexivity.
Qed.

Lemma byte_to_of_Z (z : Z) : byte_to_Z (byte_of_Z z) = z mod 256.
Proof.
  unfold byte_of_Z, byte_to_Z.
  assert (Hr : 0 <= z mod 256 < 256) by (apply Z.mod_pos_bound; lia).
  destruct (Byte.of_N (Z.to_N (z mod 256))) as [b|] eqn:E.
  - apply Byte.to_of_N in E. rewrite E. lia.
  - apply Byte.of_N_None_iff in E. lia.
Qed.

Lemma byte_eqb_eq (a b : byte) : byte_eqb a b = true <-> a = b.
Proof.
  unfold byte_eqb. split.
  - apply Byte.byte_dec_bl.
  - apply Byte.byte_dec_lb.
Qed.

Lemma byte_eqb_neq (a b : byte) : byte_eqb a b = false <-> a <> b.
Proof.
  split.
  - intros H E. apply byte_eqb_eq in E. congruence.
  - intros H. destruct (byte_eqb a b) eqn:E; [|reflexivity].
    apply byte_eqb_eq in E. contradiction.
Qed.

Lemma mem_set_same (m : memory) (a : Z) (b : byte) : mem_set m a b a = b.
Proof. unfold mem_set. rewrite Z.eqb_refl. reflexivity. Qed.

Lemma mem_set_other (m : memory) (a x : Z) (b : byte) :
  x <> a -> mem_set m a b x = m x.
Proof.
  intros H. unfold mem_set. destruct (Z.eqb_spec x a); [contradiction|reflexivity].
Qed.

(** Every byte of the memory after a store. *)
Lemma store_le_spec (n : nat) : forall (m : memory) (a v x : Z),
  store_le m a n v x =
  if (a <=? x) && (x <? a + Z.of_nat n)
  then byte_of_Z (v / 256 ^ (x - a)) else m x.
Proof.
  induction n as [|k IH]; intros m a v x.
  - simpl. destruct (Z.leb_spec a x), (Z.ltb_spec x (a + 0)); simpl; auto; lia.
  - cbn [store_le]. rewrite IH.
    destruct (Z.leb_spec (a + 1) x), (Z.ltb_spec x (a + 1 + Z.of_nat k));
      destruct (Z.leb_spec a x), (Z.ltb_spec x (a + Z.of_nat (S k)));
      cbn [andb]; try lia.
    + rewrite Z.div_div by lia.
      replace (256 * 256 ^ (x - (a + 1))) with (256 ^ (x - a)); [reflexivity|].
      replace (x - a) with (Z.succ (x - (a + 1))) by lia.
      rewrite Z.pow_succ_r by lia. reflexivity.
    + apply mem_set_other. lia.
    + assert (x = a) by lia. subst x.
      rewrite mem_set_same, Z.sub_diag. simpl. rewrite Z.div_1_r. reflexivity.
    + apply mem_set_other. lia.
Qed.

Lemma store_le_other (n : nat) (m : memory) (a v x : Z) :
  x < a \/ a + Z.of_nat n <= x -> store_le m a n v x = m x.
Proof.
  intros H. rewrite store_le_spec.
  destruct (Z.leb_spec a x), (Z.ltb_spec x (a + Z.of_nat n)); simpl; auto; lia.
Qed.

Lemma store_le_twice (n : nat) (m : memory) (a v x : Z) :
  store_le (store_le m a n v) a n v x = store_le m a n v x.
Proof.
  rewrite (store_le_spec n (store_le m a n v)), (store_le_spec n m).
  destruct ((a <=? x) && (x <? a + Z.of_nat n)); reflexivity.
Qed.

Lemma load_le_ext (n : nat) : forall (m m' : memory) (a : Z),
  (forall x, a <= x < a + Z.of_nat n -> m x = m' x) ->
  load_le m a n = load_le m' a n.
Proof.
  induction n as [|k IH]; intros m m' a H; [reflexivity|].
  cbn [load_le]. rewrite (H a) by lia.
  rewrite (IH m m' (a + 1)); [reflexivity|].
  intros x Hx. apply H. lia.
Qed.

Lemma load_le_range (n : nat) : forall (m : memory) (a : Z),
  0 <= load_le m a n < 256 ^ Z.of_nat n.
Proof.
  induction n as [|k IH]; intros m a.
  - simpl. lia.
  - cbn [load_le]. rewrite Nat2Z.inj_succ, Z.pow_succ_r by lia.
    pose proof (byte_to_Z_range (m a)). pose proof (IH m (a + 1)). lia.
Qed.

(** A memory that holds the little-endian digits of [v] reads back as [v]. *)
Lemma load_le_digits (n : nat) : forall (m : memory) (a v : Z),
  (forall i, 0 <= i < Z.of_nat n -> m (a + i) = byte_of_Z (v / 256 ^ i)) ->
  load_le m a n = v mod 256 ^ Z.of_nat n.
Proof.
  induction n as [|k IH]; intros m a v H.
  - simpl. rewrite Z.mod_1_r. reflexivity.
  - cbn [load_le].
    rewrite (IH m (a + 1) (v / 256)).
    + replace (m a) with (byte_of_Z v).
      * rewrite byte_to_of_Z, Nat2Z.inj_succ, Z.pow_succ_r by lia.
        symmetry. apply Z.rem_mul_r; [lia|]. apply Z.pow_pos_nonneg; lia.
      * specialize (H 0). rewrite Z.add_0_r in H. rewrite H by lia.
        simpl. rewrite Z.div_1_r. reflexivity.
    + intros i Hi. replace (a + 1 + i) with (a + (i + 1)) by lia.
      rewrite H by lia. rewrite Z.div_div by (try apply Z.pow_pos_nonneg; lia).
      replace (i + 1) with (Z.succ i) by lia.
      rewrite Z.pow_succ_r by lia. reflexivity.
Qed.

Lemma load_le_store_le_same (n : nat) (m : memory) (a v : Z) :
  load_le (store_le m a n v) a n = v mod 256 ^ Z.of_nat n.
Proof.
  apply load_le_digits. intros i Hi. rewrite store_le_spec.
  destruct (Z.leb_spec a (a + i)), (Z.ltb_spec (a + i) (a + Z.of_nat n));
    cbn [andb]; try lia.
  replace (a + i - a) with i by lia. reflexivity.
Qed.

Lemma load_le_store_le_other (n k : nat) (m : memory) (a b v : Z) :
  b + Z.of_nat k <= a \/ a + Z.of_nat n <= b ->
  load_le (store_le m a n v) b k = load_le m b k.
Proof.
  intros H. apply load_le_ext. intros x Hx. apply store_le_other. lia.
Qed.

Lemma wrap64_range (x : Z) : 0 <= wrap64 x < 2 ^ 64.
Proof. unfold wrap64. apply Z.mod_pos_bound. reflexivity. Qed.

Lemma wrap64_small (x : Z) : 0 <= x < 2 ^ 64 -> wrap64 x = x.
Proof. intros H. unfold wrap64. apply Z.mod_small. exact H. Qed.

(** What [readw] hands back for a word held in memory. *)
Lemma wrap32_sext_4 (v : Z) : 0 <= v < 2 ^ 32 -> wrap32 (sext 4 v) = v.
Proof.
  intros H. unfold sext, wrap32, wrap64.
  change (8 * Z.of_nat 4 - 1) with 31. change (8 * Z.of_nat 4) with 32.
  change (2 ^ 64) with 18446744073709551616 in *.
  change (2 ^ 32) with 4294967296 in *.
  change (2 ^ 31) with 2147483648.
  destruct (Z.ltb_spec v 2147483648).
  - apply Z.mod_small. lia.
  - rewrite (Z.mod_small (v + 18446744073709551616 - 4294967296)) by lia.
    replace (v + 18446744073709551616 - 4294967296)
      with (v + 4294967295 * 4294967296) by lia.
    rewrite Z.mod_add by lia. apply Z.mod_small. lia.
Qed.

(** The pending words of two harts of the configured range never overlap,
    wherever the controller is mapped. *)
Lemma CLINT_SOFT_apart (base g h : Z) :
  0 <= g < MAX_HARTS -> 0 <= h < MAX_HARTS -> g <> h ->
  CLINT_SOFT base g + 4 <= CLINT_SOFT base h \/
  CLINT_SOFT base h + 4 <= CLINT_SOFT base g.
Proof.
  unfold MAX_HARTS, CLINT_SOFT, CLINT_MSIP_SIZE, CLINT_MSIP_OFFSET, wrap64.
  intros Hg Hh Hne.
  change (2 ^ 64) with 18446744073709551616.
  rewrite !Z.add_0_r, !Z.mod_mod by lia.
  rewrite (Z.mod_small (g * 4)), (Z.mod_small (h * 4)) by lia.
  pose proof (Z.div_mod (base + g * 4) 18446744073709551616 ltac:(lia)).
  pose proof (Z.div_mod (base + h * 4) 18446744073709551616 ltac:(lia)).
  pose proof (Z.mod_pos_bound (base + g * 4) 18446744073709551616 ltac:(lia)).
  pose proof (Z.mod_pos_bound (base + h * 4) 18446744073709551616 ltac:(lia)).
  lia.
Qed.

(* ================================================================== *)
(** ** The interrupt controller (clint.c) *)

Lemma writew_run (v a : Z) (st : state) :
  writew (ret v) a st =
  Some (tt, mkState (store_le (mem st) a 4 (wrap32 v)) (clint_base st)
                    (trace st ++ [EvFence FW FO; EvStore 4 a (wrap32 v)])
                    (env st)).
Proof.
  unfold writew, __io_bw, __io_aw, __raw_writew, store_insn, fence, emit,
    get_mem, put_mem, bind, ret. cbn [mem clint_base trace env].
  rewrite <- app_assoc. cbn [app].
  change (2 ^ (8 * Z.of_nat 4)) with (2 ^ 32).
  unfold wrap32. rewrite Z.mod_mod by (apply Z.pow_nonzero; lia).
  reflexivity.
Qed.

Lemma readw_run (a : Z) (st : state) :
  readw a st =
  Some (load_le (mem st) a 4,
        mkState (mem st) (clint_base st)
                (trace st ++ [EvLoad 4 a (load_le (mem st) a 4); EvFence FI FR])
                (env st)).
Proof.
  unfold readw, __io_br, __io_ar, __raw_readw, load_insn, fence, emit,
    get_mem, bind, ret. cbn [mem clint_base trace env].
  rewrite <- app_assoc. cbn [app].
  rewrite wrap32_sext_4; [reflexivity|].
  pose proof (load_le_range 4 (mem st) a) as H.
  change (256 ^ Z.of_nat 4) with (2 ^ 32) in H. exact H.
Qed.

Lemma clint_send_soft_run (h : Z) (st : state) :
  clint_send_soft h st =
  Some (tt, mkState (store_le (mem st) (CLINT_SOFT (clint_base st) h) 4 1)
                    (clint_base st)
                    (trace st ++ [EvFence FW FO;
                                  EvStore 4 (CLINT_SOFT (clint_base st) h) 1])
                    (env st)).
Proof.
  unfold clint_send_soft, get_clint_base, bind at 1. rewrite writew_run. reflexivity.
Qed.

Lemma clint_clear_soft_run (h : Z) (st : state) :
  clint_clear_soft h st =
  Some (tt, mkState (store_le (mem st) (CLINT_SOFT (clint_base st) h) 4 0)
                    (clint_base st)
                    (trace st ++ [EvFence FW FO;
                                  EvStore 4 (CLINT_SOFT (clint_base st) h) 0])
                    (env st)).
Proof.
  unfold clint_clear_soft, get_clint_base, bind at 1. rewrite writew_run. reflexivity.
Qed.

Lemma clint_check_soft_run (h : Z) (st : state) :
  clint_check_soft h st =
  Some (load_le (mem st) (CLINT_SOFT (clint_base st) h) 4,
        mkState (mem st) (clint_base st)
                (trace st ++ [EvLoad 4 (CLINT_SOFT (clint_base st) h)
                                (load_le (mem st) (CLINT_SOFT (clint_base st) h) 4);
                              EvFence FI FR])
                (env st)).
Proof.
  unfold clint_check_soft, get_clint_base, bind at 1. rewrite readw_run. reflexivity.
Qed.

Lemma is_pending_word (h : Z) (st : state) :
  is_pending h st =
  Some (negb (load_le (mem st) (CLINT_SOFT (clint_base st) h) 4 =? 0)).
Proof. unfold is_pending. rewrite clint_check_soft_run. reflexivity. Qed.

(** C5.  Whatever the state and the hart id [h] (so in particular for
    every [h] below the hart count): [clint_send_soft h] returns and leaves
    [is_pending h] true, [clint_clear_soft h] returns and leaves it false,
    and doing either a second time returns again and leaves every byte of
    memory, the controller binding and the pending bit as the first call
    left them.  Neither function has a failing outcome. *)
Theorem raise_clear_pending_idempotent (st : state) (h : Z) :
  (exists st1 st2,
      clint_send_soft h st = Some (tt, st1) /\
      is_pending h st1 = Some true /\
      clint_send_soft h st1 = Some (tt, st2) /\
      (forall a, mem st2 a = mem st1 a) /\
      clint_base st2 = clint_base st1 /\
      is_pending h st2 = Some true) /\
  (exists st1 st2,
      clint_clear_soft h st = Some (tt, st1) /\
      is_pending h st1 = Some false /\
      clint_clear_soft h st1 = Some (tt, st2) /\
      (forall a, mem st2 a = mem st1 a) /\
      clint_base st2 = clint_base st1 /\
      is_pending h st2 = Some false).
Proof.
  split.
  - eexists; eexists. split; [apply clint_send_soft_run|].
    split; [|split; [apply clint_send_soft_run|]].
    + rewrite is_pending_word. cbn [mem clint_base].
      rewrite load_le_store_le_same. reflexivity.
    + cbn [mem clint_base]. split; [intros a; apply store_le_twice|].
      split; [reflexivity|].
      rewrite is_pending_word. cbn [mem clint_base].
      rewrite load_le_store_le_same. reflexivity.
  - eexists; eexists. split; [apply clint_clear_soft_run|].
    split; [|split; [apply clint_clear_soft_run|]].
    + rewrite is_pending_word. cbn [mem clint_base].
      rewrite load_le_store_le_same. reflexivity.
    + cbn [mem clint_base]. split; [intros a; apply store_le_twice|].
      split; [reflexivity|].
      rewrite is_pending_word. cbn [mem clint_base].
      rewrite load_le_store_le_same. reflexivity.
Qed.

Lemma send_soft_frame (st : state) (g h : Z) :
  0 <= g < MAX_HARTS -> 0 <= h < MAX_HARTS -> g <> h ->
  exists st1, clint_send_soft h st = Some (tt, st1) /\
              is_pending g st1 = is_pending g st.
Proof.
  intros Hg Hh Hne. eexists. split; [apply clint_send_soft_run|].
  rewrite !is_pending_word. cbn [mem clint_base].
  rewrite load_le_store_le_other; [reflexivity|].
  pose proof (CLINT_SOFT_apart (clint_base st) g h Hg Hh Hne).
  change (Z.of_nat 4) with 4. lia.
Qed.

Lemma clear_soft_frame (st : state) (g h : Z) :
  0 <= g < MAX_HARTS -> 0 <= h < MAX_HARTS -> g <> h ->
  exists st1, clint_clear_soft h st = Some (tt, st1) /\
              is_pending g st1 = is_pending g st.
Proof.
  intros Hg Hh Hne. eexists. split; [apply clint_clear_soft_run|].
  rewrite !is_pending_word. cbn [mem clint_base].
  rewrite load_le_store_le_other; [reflexivity|].
  pose proof (CLINT_SOFT_apart (clint_base st) g h Hg Hh Hne).
  change (Z.of_nat 4) with 4. lia.
Qed.

(** C6.  For two different hart ids [g] and [h] below the hart count,
    [clint_send_soft h] and [clint_clear_soft h] leave [is_pending g] as it
    was; and from a state with no bit set, raising the bit of hart 2 alone
    leaves harts 1, 3 and 4 not pending and hart 2 pending. *)
Theorem cross_hart_isolation (st : state) (g h : Z) :
  0 <= g < MAX_HARTS -> 0 <= h < MAX_HARTS -> g <> h ->
  (exists st1, clint_send_soft h st = Some (tt, st1) /\
               is_pending g st1 = is_pending g st) /\
  (exists st1, clint_clear_soft h st = Some (tt, st1) /\
               is_pending g st1 = is_pending g st) /\
  (all_clear st ->
   exists st1, clint_send_soft 2 st = Some (tt, st1) /\
               is_pending 1 st1 = Some false /\
               is_pending 3 st1 = Some false /\
               is_pending 4 st1 = Some false /\
               is_pending 2 st1 = Some true).
Proof.
  intros Hg Hh Hne.
  split; [apply send_soft_frame; assumption|].
  split; [apply clear_soft_frame; assumption|].
  intros Hc.
  assert (F : forall k, 0 <= k < MAX_HARTS -> k <> 2 ->
              is_pending k (mkState (store_le (mem st) (CLINT_SOFT (clint_base st) 2) 4 1)
                    (clint_base st)
                    (trace st ++ [EvFence FW FO;
                                  EvStore 4 (CLINT_SOFT (clint_base st) 2) 1])
                    (env st)) = Some false).
  { intros k Hk Hk2.
    specialize (Hc k Hk). rewrite is_pending_word in *. cbn [mem clint_base].
    rewrite load_le_store_le_other; [exact Hc|].
    pose proof (CLINT_SOFT_apart (clint_base st) k 2 Hk
                  ltac:(unfold MAX_HARTS; lia) Hk2).
    change (Z.of_nat 4) with 4. lia. }
  eexists. split; [apply clint_send_soft_run|].
  split; [apply F; unfold MAX_HARTS; lia|].
  split; [apply F; unfold MAX_HARTS; lia|].
  split; [apply F; unfold MAX_HARTS; lia|].
  rewrite is_pending_word. cbn [mem clint_base].
  rewrite load_le_store_le_same. reflexivity.
Qed.

(** Instance of C6: harts 1 and 2 in the state with nothing set. *)
Lemma cross_hart_isolation_witness :
  (exists st1, clint_send_soft 2 boot_state = Some (tt, st1) /\
               is_pending 1 st1 = is_pending 1 boot_state) /\
  (exists st1, clint_send_soft 2 boot_state = Some (tt, st1) /\
               is_pending 1 st1 = Some false /\
               is_pending 3 st1 = Some false /\
               is_pending 4 st1 = Some false /\
               is_pending 2 st1 = Some true).
Proof.
  destruct (cross_hart_isolation boot_state 1 2) as (F & _ & S);
    [unfold MAX_HARTS; lia|unfold MAX_HARTS; lia|lia|].
  split; [exact F|]. apply S.
  intros h Hh. rewrite is_pending_word. reflexivity.
Defined.

(* ================================================================== *)
(** ** The two byte copies (string.c [memcpy], main.c [smp_memcpy]) *)

Lemma sext_1_byte (v : Z) : 0 <= v < 256 -> sext 1 v mod 2 ^ 8 = v.
Proof.
  intros H. unfold sext, wrap64.
  change (8 * Z.of_nat 1 - 1) with 7. change (8 * Z.of_nat 1) with 8.
  change (2 ^ 64) with 18446744073709551616.
  change (2 ^ 8) with 256. change (2 ^ 7) with 128.
  destruct (Z.ltb_spec v 128).
  - apply Z.mod_small. lia.
  - rewrite (Z.mod_small (v + 18446744073709551616 - 256)) by lia.
    replace (v + 18446744073709551616 - 256)
      with (v + 72057594037927935 * 256) by lia.
    rewrite Z.mod_add by lia. apply Z.mod_small. lia.
Qed.

Lemma load_le_1 (m : memory) (a : Z) : load_le m a 1 = byte_to_Z (m a).
Proof. simpl. lia. Qed.

Lemma readb_run (a : Z) (st : state) :
  readb a st =
  Some (byte_to_Z (mem st a),
        mkState (mem st) (clint_base st)
                (trace st ++ [EvLoad 1 a (byte_to_Z (mem st a)); EvFence FI FR])
                (env st)).
Proof.
  unfold readb, __io_br, __io_ar, __raw_readb, load_insn, fence, emit,
    get_mem, bind, ret. cbn [mem clint_base trace env].
  rewrite <- app_assoc. cbn [app]. rewrite load_le_1.
  rewrite sext_1_byte by apply byte_to_Z_range. reflexivity.
Qed.

Lemma writeb_readb_run (s d : Z) (st : state) :
  writeb (readb s) d st =
  Some (tt, mkState (mem_set (mem st) d (mem st s)) (clint_base st)
                    (trace st ++ [EvFence FW FO;
                                  EvLoad 1 s (byte_to_Z (mem st s));
                                  EvFence FI FR;
                                  EvStore 1 d (byte_to_Z (mem st s))])
                    (env st)).
Proof.
  unfold writeb, __io_bw, fence, emit, bind at 1 2.
  rewrite readb_run.
  unfold __io_aw, __raw_writeb, store_insn, emit, get_mem, put_mem, bind, ret.
  cbn [mem clint_base trace env store_le].
  rewrite <- !app_assoc. cbn [app].
  change (2 ^ (8 * Z.of_nat 1)) with 256. change (2 ^ 8) with 256.
  rewrite Z.mod_mod by lia.
  rewrite (Z.mod_small (byte_to_Z (mem st s)) 256) by apply byte_to_Z_range.
  rewrite byte_of_to_Z. reflexivity.
Qed.

Lemma copy_char_run (s d : Z) (st : state) :
  (c <- load_char s ;; store_char d c) st =
  Some (tt, mkState (mem_set (mem st) d (mem st s)) (clint_base st)
                    (trace st ++ [EvLoad 1 s (byte_to_Z (mem st s));
                                  EvStore 1 d (byte_to_Z (mem st s))])
                    (env st)).
Proof.
  unfold load_char, store_char, emit, get_mem, put_mem, bind, ret.
  cbn [mem clint_base trace env]. rewrite <- app_assoc. reflexivity.
Qed.

Lemma memcpy_loop_run (n : nat) : forall (d s : Z) (st : state),
  memcpy_loop n d s st =
  Some (tt, mkState (copy_fwd n d s (mem st)) (clint_base st)
                    (trace st ++ memcpy_events n d s (mem st)) (env st)).
Proof.
  induction n as [|k IH]; intros d s st.
  - simpl. unfold ret. rewrite app_nil_r. destruct st; reflexivity.
  - cbn [memcpy_loop].
    change ((c <- load_char s ;; store_char d c ;;
             memcpy_loop k (wrap64 (d + 1)) (wrap64 (s + 1))) st)
      with (match (c <- load_char s ;; store_char d c) st with
            | Some (_, st') => memcpy_loop k (wrap64 (d + 1)) (wrap64 (s + 1)) st'
            | None => None
            end).
    rewrite copy_char_run, IH. cbn [mem clint_base trace env].
    cbn [copy_fwd memcpy_events]. rewrite <- app_assoc. reflexivity.
Qed.

Lemma smp_memcpy_loop_run (n : nat) : forall (d s : Z) (st : state),
  smp_memcpy_loop n d s st =
  Some (tt, mkState (copy_fwd n d s (mem st)) (clint_base st)
                    (trace st ++ smp_memcpy_events n d s (mem st)) (env st)).
Proof.
  induction n as [|k IH]; intros d s st.
  - simpl. unfold ret. rewrite app_nil_r. destruct st; reflexivity.
  - cbn [smp_memcpy_loop]. unfold bind at 1.
    rewrite writeb_readb_run, IH. cbn [mem clint_base trace env].
    cbn [copy_fwd smp_memcpy_events]. rewrite <- app_assoc. reflexivity.
Qed.

Lemma memcpy_run (dst src n : Z) (st : state) :
  memcpy dst src n st =
  Some (dst, mkState (copy_fwd (Z.to_nat (wrap64 n)) dst src (mem st))
                     (clint_base st)
                     (trace st ++ memcpy_events (Z.to_nat (wrap64 n)) dst src (mem st))
                     (env st)).
Proof. unfold memcpy, bind. rewrite memcpy_loop_run. reflexivity. Qed.

Lemma smp_memcpy_run (dst src n : Z) (st : state) :
  smp_memcpy dst src n st =
  Some (dst, mkState (copy_fwd (Z.to_nat (wrap64 n)) dst src (mem st))
                     (clint_base st)
                     (trace st ++ smp_memcpy_events (Z.to_nat (wrap64 n)) dst src (mem st))
                     (env st)).
Proof. unfold smp_memcpy, bind. rewrite smp_memcpy_loop_run. reflexivity. Qed.

(** Bytes outside the destination keep their value. *)
Lemma copy_fwd_other (n : nat) : forall (d s : Z) (m : memory) (x : Z),
  0 <= d -> d + Z.of_nat n <= 2 ^ 64 ->
  x < d \/ d + Z.of_nat n <= x ->
  copy_fwd n d s m x = m x.
Proof.
  induction n as [|k IH]; intros d s m x Hd Hn Hx; [reflexivity|].
  cbn [copy_fwd]. destruct k as [|k'].
  - cbn [copy_fwd]. apply mem_set_other. lia.
  - rewrite (wrap64_small (d + 1)) by lia.
    rewrite IH by lia. apply mem_set_other. lia.
Qed.

(** With source and destination apart, the destination receives the
    source bytes. *)
Lemma copy_fwd_disjoint (n : nat) : forall (d s : Z) (m : memory) (i : Z),
  0 <= d -> d + Z.of_nat n <= 2 ^ 64 ->
  0 <= s -> s + Z.of_nat n <= 2 ^ 64 ->
  d + Z.of_nat n <= s \/ s + Z.of_nat n <= d ->
  0 <= i < Z.of_nat n ->
  copy_fwd n d s m (d + i) = m (s + i).
Proof.
  induction n as [|k IH]; intros d s m i Hd Hdn Hs Hsn Hdis Hi; [simpl in Hi; lia|].
  cbn [copy_fwd]. destruct k as [|k'].
  - cbn [copy_fwd]. assert (i = 0) by lia. subst i.
    rewrite !Z.add_0_r. apply mem_set_same.
  - rewrite (wrap64_small (d + 1)), (wrap64_small (s + 1)) by lia.
    destruct (Z.eq_dec i 0) as [->|Hi0].
    + rewrite !Z.add_0_r. rewrite copy_fwd_other by lia. apply mem_set_same.
    + replace (d + i) with (d + 1 + (i - 1)) by lia.
      rewrite IH by lia.
      rewrite mem_set_other by lia. f_equal. lia.
Qed.

(** C10.  For every destination, source and length, [smp_memcpy] and
    [memcpy] both return [dst] and leave the same memory (and the same
    controller binding).  When the buffers lie inside the address space,
    every byte outside the destination keeps its value, and when source
    and destination do not overlap the destination holds the [n] source
    bytes. *)
Theorem smp_memcpy_refines_memcpy (dst src n : Z) (st : state) :
  exists st1 st2,
    smp_memcpy dst src n st = Some (dst, st1) /\
    memcpy dst src n st = Some (dst, st2) /\
    mem st1 = mem st2 /\
    clint_base st1 = clint_base st2 /\
    (0 <= n < 2 ^ 64 ->
     0 <= dst -> dst + n <= 2 ^ 64 -> 0 <= src -> src + n <= 2 ^ 64 ->
     (forall x, x < dst \/ dst + n <= x -> mem st1 x = mem st x) /\
     (dst + n <= src \/ src + n <= dst ->
      forall i, 0 <= i < n -> mem st1 (dst + i) = mem st (src + i))).
Proof.
  eexists; eexists.
  split; [apply smp_memcpy_run|]. split; [apply memcpy_run|].
  cbn [mem clint_base]. split; [reflexivity|]. split; [reflexivity|].
  intros Hn Hd Hdn Hs Hsn.
  assert (Hw : wrap64 n = n).
  { apply wrap64_small. change (2 ^ 64) with 18446744073709551616 in *. lia. }
  rewrite Hw. split.
  - intros x Hx. apply copy_fwd_other; rewrite ?Z2Nat.id; lia.
  - intros Hdis i Hi. apply copy_fwd_disjoint; rewrite ?Z2Nat.id; lia.
Qed.

(** Instance of C10: six bytes copied from [msg_addr] to the mailbox. *)
Lemma smp_memcpy_refines_memcpy_witness :
  exists st1 st2,
    smp_memcpy SMP_ADDR msg_addr 6 (msg_state hello) = Some (SMP_ADDR, st1) /\
    memcpy SMP_ADDR msg_addr 6 (msg_state hello) = Some (SMP_ADDR, st2) /\
    mem st1 = mem st2 /\
    (forall x, x < SMP_ADDR \/ SMP_ADDR + 6 <= x ->
               mem st1 x = mem (msg_state hello) x) /\
    (forall i, 0 <= i < 6 ->
               mem st1 (SMP_ADDR + i) = mem (msg_state hello) (msg_addr + i)).
Proof.
  destruct (smp_memcpy_refines_memcpy SMP_ADDR msg_addr 6 (msg_state hello))
    as (st1 & st2 & R1 & R2 & E & _ & C).
  exists st1, st2. split; [exact R1|]. split; [exact R2|]. split; [exact E|].
  unfold SMP_ADDR, msg_addr in *.
  destruct (C ltac:(lia) ltac:(lia) ltac:(lia) ltac:(lia) ltac:(lia)) as [C1 C2].
  split; [exact C1|]. apply C2. lia.
Defined.

(* ================================================================== *)
(** ** Console output: the transmit register *)

Lemma bind_run {A B} (c : M A) (k : A -> M B) (st : state) :
  bind c k st = match c st with Some (a, st') => k a st' | None => None end.
Proof. reflexivity. Qed.

Lemma after_after (st : state) (m1 m2 : memory) (e1 e2 : list event) :
  after (after st m1 e1) m2 e2 = after st m2 (e1 ++ e2).
Proof. unfold after. cbn [mem clint_base trace env]. rewrite app_assoc. reflexivity. Qed.

Lemma after_self (st : state) : st = after st (mem st) [].
Proof. unfold after. rewrite app_nil_r. destruct st; reflexivity. Qed.

Lemma store_char_run (a : Z) (c : byte) (st : state) :
  store_char a c st = Some (tt, after st (mem_set (mem st) a c)
                                      [EvStore 1 a (byte_to_Z c)]).
Proof. reflexivity. Qed.

Lemma load_char_after (a : Z) (st : state) :
  load_char a st =
  Some (mem st a, after st (mem st) [EvLoad 1 a (byte_to_Z (mem st a))]).
Proof. reflexivity. Qed.

Lemma bind_assoc_run {A B C} (c : M A) (k : A -> M B) (h : B -> M C)
      (st : state) :
  bind c (fun a => bind (k a) h) st = bind (bind c k) h st.
Proof. unfold bind. destruct (c st) as [[a st1]|]; reflexivity. Qed.

Lemma mem_after (st : state) (m : memory) (e : list event) :
  mem (after st m e) = m.
Proof. reflexivity. Qed.

Lemma get_reg_run (u : uart) (i : Z) (st : state) :
  get_reg u i st =
  Some (load_le (mem st) (uart_reg_addr u i) 4,
        after st (mem st)
              [EvLoad 4 (uart_reg_addr u i)
                      (load_le (mem st) (uart_reg_addr u i) 4);
               EvFence FI FR]).
Proof. unfold get_reg. rewrite readw_run. reflexivity. Qed.

Lemma set_reg_run (u : uart) (i v : Z) (st : state) :
  set_reg u i v st =
  Some (tt, after st (store_le (mem st) (uart_reg_addr u i) 4 (wrap32 v))
                  [EvFence FW FO; EvStore 4 (uart_reg_addr u i) (wrap32 v)]).
Proof. unfold set_reg. rewrite writew_run. reflexivity. Qed.

Lemma byte_not_full (c : byte) : Z.land (byte_to_Z c) UART_TXDATA_FULL = 0.
Proof. destruct c; reflexivity. Qed.

Lemma wrap32_byte (c : byte) : wrap32 (byte_to_Z c) = byte_to_Z c.
Proof.
  pose proof (byte_to_Z_range c). unfold wrap32. apply Z.mod_small. lia.
Qed.

(** A character written leaves the register not full. *)
Lemma tx_ready_after_putc (u : uart) (m : memory) (c : byte) :
  tx_ready u (store_le m (uart_tx_addr u) 4 (byte_to_Z c)).
Proof.
  unfold tx_ready. rewrite load_le_store_le_same.
  pose proof (byte_to_Z_range c). rewrite Z.mod_small by (cbn; lia).
  apply byte_not_full.
Qed.

Lemma tx_ready_ext (u : uart) (m m' : memory) :
  (forall x, uart_tx_addr u <= x < uart_tx_addr u + 4 -> m' x = m x) ->
  tx_ready u m -> tx_ready u m'.
Proof.
  unfold tx_ready. intros H R. rewrite <- R. f_equal.
  apply load_le_ext. intros x Hx. apply H. change (Z.of_nat 4) with 4 in Hx. lia.
Qed.

(** With room in the device the wait of [uart_putc] ends at its first
    test. *)
Lemma uart_putc_run (f : nat) (u : uart) (ch : byte) (st : state) :
  tx_ready u (mem st) ->
  uart_putc (S f) u ch st =
  Some (tt, after st (store_le (mem st) (uart_tx_addr u) 4 (byte_to_Z ch))
                  [EvLoad 4 (uart_tx_addr u) (load_le (mem st) (uart_tx_addr u) 4);
                   EvFence FI FR; EvFence FW FO;
                   EvStore 4 (uart_tx_addr u) (byte_to_Z ch)]).
Proof.
  intros R. unfold uart_putc. cbn [uart_putc_wait].
  rewrite !bind_run, get_reg_run. fold (uart_tx_addr u).
  unfold tx_ready in R. rewrite R. cbn [Z.eqb]. unfold ret at 1.
  rewrite set_reg_run, after_after, wrap32_byte. reflexivity.
Qed.

(** With the register full, and nothing in the model to empty it, the
    wait never ends. *)
Lemma uart_putc_wait_full (fuel : nat) (u : uart) : forall (st : state),
  ~ tx_ready u (mem st) -> uart_putc_wait fuel u st = None.
Proof.
  induction fuel as [|f IH]; intros st R; [reflexivity|].
  cbn [uart_putc_wait]. rewrite bind_run, get_reg_run. fold (uart_tx_addr u).
  unfold tx_ready in R.
  destruct (Z.eqb_spec (Z.land (load_le (mem st) (uart_tx_addr u) 4)
                               UART_TXDATA_FULL) 0) as [E|_]; [contradiction|].
  apply IH. cbn [after mem]. exact R.
Qed.

Lemma tx_chars_app (u : uart) (t1 t2 : list event) :
  tx_chars u (t1 ++ t2) = tx_chars u t1 ++ tx_chars u t2.
Proof.
  induction t1 as [|e t1 IH]; [reflexivity|].
  destruct e as [| | w a v | |]; cbn [app tx_chars]; try exact IH.
  destruct w as [|[|[|[|[|w]]]]]; try exact IH.
  destruct (a =? uart_tx_addr u); [cbn [app]; rewrite IH; reflexivity|exact IH].
Qed.

Lemma sends_ret {A} (u : uart) (a : A) : sends u (ret a) a [].
Proof.
  intros st R. exists (mem st), []. unfold ret. rewrite <- after_self.
  split; [reflexivity|]. split; [exact R|]. split; [reflexivity|].
  split; reflexivity.
Qed.

Lemma sends_bind {A B} (u : uart) (c : M A) (k : A -> M B) (a : A) (b : B)
      (cs1 cs2 : list byte) :
  sends u c a cs1 -> sends u (k a) b cs2 -> sends u (bind c k) b (cs1 ++ cs2).
Proof.
  intros H1 H2 st R.
  destruct (H1 st R) as (m1 & e1 & E1 & R1 & F1 & C1 & T1).
  destruct (H2 (after st m1 e1) R1) as (m2 & e2 & E2 & R2 & F2 & C2 & T2).
  exists m2, (e1 ++ e2). rewrite bind_run, E1, E2, after_after.
  split; [reflexivity|]. split; [exact R2|]. cbn [after mem] in F2.
  split; [intros x Hx; rewrite F2, F1 by exact Hx; reflexivity|].
  split; [rewrite forallb_app, C1, C2; reflexivity|].
  rewrite tx_chars_app, T1, T2. reflexivity.
Qed.

Lemma sends_putc (f : nat) (u : uart) (ch : byte) :
  sends u (uart_putc (S f) u ch) tt [ch].
Proof.
  intros st R. eexists. eexists. split; [apply uart_putc_run; exact R|].
  split; [apply tx_ready_after_putc|].
  split; [intros x Hx; apply store_le_other; change (Z.of_nat 4) with 4; lia|].
  cbn [forallb console_event tx_chars]. rewrite Z.eqb_refl, byte_of_to_Z.
  split; reflexivity.
Qed.

Lemma sends_read_csr_mhartid (u : uart) (self : Z) :
  sends u (read_csr_mhartid self) self [].
Proof.
  intros st R. exists (mem st), [EvCsrRead CSR_mhartid self].
  split; [reflexivity|]. split; [exact R|]. split; [reflexivity|].
  split; reflexivity.
Qed.

Lemma sends_uart_puts_lit (f : nat) (u : uart) (s : list byte) :
  sends u (uart_puts_lit (S f) u s) tt s.
Proof.
  induction s as [|c rest IH]; cbn [uart_puts_lit].
  - apply sends_ret.
  - apply (sends_bind u _ _ tt tt [c]); [apply sends_putc|exact IH].
Qed.

Lemma sends_uart_put_hex_loop (f : nat) (u : uart) (k : nat) (hex : Z) :
  sends u (uart_put_hex_loop (S f) u k hex) tt (hex_digits k hex).
Proof.
  induction k as [|idx IH]; cbn [uart_put_hex_loop hex_digits].
  - apply sends_ret.
  - apply (sends_bind u _ _ tt tt [_]); [apply sends_putc|exact IH].
Qed.

Lemma sends_uart_put_hex (f : nat) (u : uart) (hex : Z) :
  sends u (uart_put_hex (S f) u hex) tt (hex_chars hex).
Proof.
  unfold uart_put_hex, hex_chars.
  apply (sends_bind u _ _ tt); [apply sends_uart_puts_lit|].
  apply sends_uart_put_hex_loop.
Qed.

Lemma sends_puts (f : nat) (u : uart) (self : Z) (s : string) :
  sends u (puts (S f) u self s) tt (puts_chars self s).
Proof.
  unfold puts, puts_chars.
  apply (sends_bind u _ _ tt); [apply sends_uart_puts_lit|].
  apply (sends_bind u _ _ self tt []); [apply sends_read_csr_mhartid|].
  apply (sends_bind u _ _ tt tt [_]); [apply sends_putc|].
  apply (sends_bind u _ _ tt); [apply sends_uart_puts_lit|].
  apply sends_uart_puts_lit.
Qed.

(** Whatever the device does, the output functions only add to the
    log. *)
Lemma extends_ret {A} (a : A) : extends (ret a).
Proof.
  intros st x st' H. injection H as _ <-. exists []. rewrite app_nil_r. reflexivity.
Qed.

Lemma extends_bind {A B} (c : M A) (k : A -> M B) :
  extends c -> (forall a, extends (k a)) -> extends (bind c k).
Proof.
  intros H1 H2 st b st' H. rewrite bind_run in H.
  destruct (c st) as [[a st1]|] eqn:E; [|discriminate].
  destruct (H1 _ _ _ E) as (e1 & T1). destruct (H2 a _ _ _ H) as (e2 & T2).
  exists (e1 ++ e2). rewrite T2, T1, app_assoc. reflexivity.
Qed.

Lemma extends_run {A} (c : M A) :
  (forall st, exists a m evs, c st = Some (a, after st m evs)) -> extends c.
Proof.
  intros H st a st' E. destruct (H st) as (a0 & m & evs & R).
  rewrite R in E. injection E as _ <-. exists evs. reflexivity.
Qed.

Lemma extends_uart_putc_wait (fuel : nat) (u : uart) :
  extends (uart_putc_wait fuel u).
Proof.
  induction fuel as [|f IH]; [intros st a st' H; discriminate|].
  cbn [uart_putc_wait]. apply extends_bind.
  - apply extends_run. intros st. do 3 eexists. apply get_reg_run.
  - intros reg. destruct (_ =? 0); [apply extends_ret|exact IH].
Qed.

Lemma extends_uart_putc (fuel : nat) (u : uart) (ch : byte) :
  extends (uart_putc fuel u ch).
Proof.
  unfold uart_putc. apply extends_bind; [apply extends_uart_putc_wait|].
  intros _. apply extends_run. intros st. do 3 eexists. apply set_reg_run.
Qed.

Lemma extends_uart_puts_lit (fuel : nat) (u : uart) (s : list byte) :
  extends (uart_puts_lit fuel u s).
Proof.
  induction s as [|c rest IH]; cbn [uart_puts_lit]; [apply extends_ret|].
  apply extends_bind; [apply extends_uart_putc|intros _; exact IH].
Qed.

Lemma extends_puts (fuel : nat) (u : uart) (self : Z) (s : string) :
  extends (puts fuel u self s).
Proof.
  unfold puts.
  apply extends_bind; [apply extends_uart_puts_lit|intros _].
  apply extends_bind.
  { apply extends_run. intros st. exists self, (mem st), [EvCsrRead CSR_mhartid self].
    reflexivity. }
  intros hartid.
  apply extends_bind; [apply extends_uart_putc|intros _].
  apply extends_bind; [apply extends_uart_puts_lit|intros _].
  apply extends_uart_puts_lit.
Qed.

(* ================================================================== *)
(** ** C strings in memory: [strlen] and [uart_puts] *)

Lemma load_char_run (a : Z) (st : state) :
  load_char a st =
  Some (mem st a, mkState (mem st) (clint_base st)
                          (trace st ++ [EvLoad 1 a (byte_to_Z (mem st a))])
                          (env st)).
Proof. reflexivity. Qed.

Lemma cstring_at_nil (m : memory) (a : Z) :
  cstring_at m a [] -> m a = x00.
Proof. intros [H _]. cbn in H. congruence. Qed.

Lemma cstring_at_cons (m : memory) (a : Z) (b : byte) (bs : list byte) :
  cstring_at m a (b :: bs) ->
  m a = b /\ byte_eqb b x00 = false /\ cstring_at m (a + 1) bs.
Proof.
  intros [H N]. cbn [length load_bytes app] in H. cbn [forallb] in N.
  apply andb_prop in N. destruct N as [N1 N2].
  injection H as H1 H2.
  split; [exact H1|]. split; [destruct (byte_eqb b x00); [discriminate|reflexivity]|].
  split; assumption.
Qed.

Lemma load_bytes_ext (n : nat) : forall (m m' : memory) (a : Z),
  (forall x, a <= x < a + Z.of_nat n -> m x = m' x) ->
  load_bytes m a n = load_bytes m' a n.
Proof.
  induction n as [|k IH]; intros m m' a H; [reflexivity|].
  cbn [load_bytes]. rewrite (H a) by lia. f_equal.
  apply IH. intros x Hx. apply H. lia.
Qed.

Lemma cstring_at_ext (m m' : memory) (a : Z) (bs : list byte) :
  (forall x, a <= x < a + Z.of_nat (S (length bs)) -> m x = m' x) ->
  cstring_at m a bs -> cstring_at m' a bs.
Proof.
  intros H [L N]. split; [|exact N].
  rewrite <- L. symmetry. apply load_bytes_ext. exact H.
Qed.

Lemma strlen_loop_run (bs : list byte) :
  forall (fuel : nat) (s cnt : Z) (st : state),
    cstring_at (mem st) s bs ->
    (length bs < fuel)%nat ->
    0 <= s -> s + Z.of_nat (length bs) < 2 ^ 64 ->
    0 <= cnt -> cnt + Z.of_nat (length bs) < 2 ^ 64 ->
    strlen_loop fuel s cnt st =
    Some (cnt + Z.of_nat (length bs),
          mkState (mem st) (clint_base st)
                  (trace st ++ load_events s (bs ++ [x00])) (env st)).
Proof.
  induction bs as [|b bs IH]; intros fuel s cnt st C F Hs Hsn Hc Hcn;
    (destruct fuel as [|f]; [cbn in F; lia|]);
    cbn [strlen_loop]; rewrite bind_run, load_char_run.
  - rewrite (cstring_at_nil _ _ C). cbn. rewrite Z.add_0_r. reflexivity.
  - apply cstring_at_cons in C. destruct C as (Hb & Hnz & C).
    rewrite Hb, Hnz. cbn [length] in *.
    rewrite (wrap64_small (s + 1)), (wrap64_small (cnt + 1)) by lia.
    rewrite IH; cbn [mem clint_base trace env]; try assumption; try lia.
    rewrite <- app_assoc. cbn [app load_events].
    do 2 f_equal. lia.
Qed.

(** [uart_puts] on a C string that the transmit register does not lie
    in: the characters of the string are handed to the device. *)
Lemma uart_puts_loop_run (bs : list byte) :
  forall (fuel : nat) (u : uart) (s : Z) (st : state),
    cstring_at (mem st) s bs ->
    (length bs < fuel)%nat ->
    0 <= s -> s + Z.of_nat (length bs) < 2 ^ 64 ->
    tx_ready u (mem st) ->
    tx_outside u s (Z.of_nat (S (length bs))) ->
    exists m' evs,
      uart_puts_loop fuel u s st = Some (tt, after st m' evs) /\
      tx_ready u m' /\
      (forall x, x < uart_tx_addr u \/ uart_tx_addr u + 4 <= x ->
                 m' x = mem st x) /\
      tx_chars u evs = bs.
Proof.
  induction bs as [|b bs IH]; intros fuel u s st C F Hs Hsn R O;
    (destruct fuel as [|f]; [cbn in F; lia|]);
    cbn [uart_puts_loop]; rewrite bind_run, load_char_after.
  - rewrite (cstring_at_nil _ _ C). cbn [byte_eqb Byte.eqb]. unfold ret.
    change (byte_eqb x00 x00) with true. cbv iota.
    exists (mem st). eexists. split; [reflexivity|].
    split; [exact R|]. split; [reflexivity|]. reflexivity.
  - pose proof (cstring_at_cons _ _ _ _ C) as (Hb & Hnz & C').
    rewrite Hb, Hnz. cbn [length] in *.
    rewrite bind_run, load_char_after, mem_after, Hb.
    rewrite bind_run, uart_putc_run by (rewrite !mem_after; exact R).
    rewrite !after_after, !mem_after.
    rewrite (wrap64_small (s + 1)) by lia.
    unfold tx_outside in O. rewrite !Nat2Z.inj_succ in O.
    match goal with
    | |- context [uart_puts_loop f u (s + 1) ?s1] =>
        destruct (IH f u (s + 1) s1) as (m' & evs & E & R' & Fr & T)
    end; rewrite ?mem_after; try lia.
    + apply (cstring_at_ext (mem st)); [|exact C'].
      intros x Hx. symmetry. apply store_le_other.
      rewrite Nat2Z.inj_succ in Hx. change (Z.of_nat 4) with 4. lia.
    + apply tx_ready_after_putc.
    + unfold tx_outside. rewrite Nat2Z.inj_succ. lia.
    + rewrite E, after_after. exists m'. eexists. split; [reflexivity|].
      split; [exact R'|]. rewrite mem_after in Fr. split.
      * intros x Hx. rewrite Fr by exact Hx.
        apply store_le_other. change (Z.of_nat 4) with 4. lia.
      * rewrite !tx_chars_app. cbn [tx_chars app].
        rewrite Z.eqb_refl, byte_of_to_Z, T.
        reflexivity.
Qed.

Lemma extends_uart_puts_loop (fuel : nat) (u : uart) : forall (s : Z),
  extends (uart_puts_loop fuel u s).
Proof.
  induction fuel as [|f IH]; intros s; [intros st a st' H; discriminate|].
  cbn [uart_puts_loop]. apply extends_bind.
  { apply extends_run. intros st. do 3 eexists. apply load_char_after. }
  intros c. destruct (byte_eqb c x00); [apply extends_ret|].
  apply extends_bind.
  { apply extends_run. intros st. do 3 eexists. apply load_char_after. }
  intros ch. apply extends_bind; [apply extends_uart_putc|intros _; apply IH].
Qed.

(* ================================================================== *)
(** ** The mailbox: sending ([test_ipi]) *)

Lemma CLINT_SOFT_boot (h : Z) :
  0 <= h < MAX_HARTS ->
  CLINT_SOFT CLINT_CTRL_ADDR h = CLINT_CTRL_ADDR + h * CLINT_MSIP_SIZE.
Proof.
  unfold MAX_HARTS, CLINT_SOFT, CLINT_CTRL_ADDR, CLINT_MSIP_SIZE,
    CLINT_MSIP_OFFSET, wrap64.
  intros H. change (2 ^ 64) with 18446744073709551616.
  rewrite Z.add_0_r, Z.mod_mod by lia.
  rewrite (Z.mod_small (h * 4)) by lia. apply Z.mod_small. lia.
Qed.

Lemma load_bytes_shift (n : nat) : forall (m1 m2 : memory) (a b : Z),
  (forall i, 0 <= i < Z.of_nat n -> m1 (a + i) = m2 (b + i)) ->
  load_bytes m1 a n = load_bytes m2 b n.
Proof.
  induction n as [|k IH]; intros m1 m2 a b H; [reflexivity|].
  cbn [load_bytes]. f_equal.
  - specialize (H 0). rewrite !Z.add_0_r in H. apply H. lia.
  - apply IH. intros i Hi.
    replace (a + 1 + i) with (a + (i + 1)) by lia.
    replace (b + 1 + i) with (b + (i + 1)) by lia. apply H. lia.
Qed.

(** The sending lines of [test_ipi]: what they log and what they leave
    in memory.  [m2] is the memory between the console output and the
    signal: the copy, with the transmit register changed. *)
Lemma test_ipi_send_run (fuel : nat) (u : uart) (self to_hartid m : Z)
      (bs : list byte) (st : state) :
  cstring_at (mem st) m bs ->
  (length bs < fuel)%nat ->
  buffer_ok m (Z.of_nat (S (length bs))) ->
  buffer_ok SMP_ADDR (Z.of_nat (S (length bs))) ->
  tx_ready u (mem st) ->
  tx_outside u SMP_ADDR (Z.of_nat (S (length bs))) ->
  exists m2 con,
    test_ipi_send fuel u self to_hartid m st =
    Some (tt,
          after st (store_le m2 (CLINT_SOFT (clint_base st) to_hartid) 4 1)
                (load_events m (bs ++ [x00]) ++
                 memcpy_events (S (length bs)) SMP_ADDR m (mem st) ++
                 con ++
                 [EvFence FW FO;
                  EvStore 4 (CLINT_SOFT (clint_base st) to_hartid) 1])) /\
    (forall x, x < uart_tx_addr u \/ uart_tx_addr u + 4 <= x ->
               m2 x = copy_fwd (S (length bs)) SMP_ADDR m (mem st) x) /\
    tx_ready u m2 /\
    forallb (console_event u) con = true /\
    tx_chars u con =
      puts_chars self "Send software interrupt. Hartid=" ++ hex_chars to_hartid.
Proof.
  intros C F [Hm Hn] [Hs Hsn] R O. rewrite Nat2Z.inj_succ in Hn, Hsn.
  destruct fuel as [|f]; [cbn in F; lia|].
  unfold test_ipi_send, strlen. rewrite bind_run.
  rewrite (strlen_loop_run bs) by (assumption || lia).
  rewrite bind_run, memcpy_run. cbn [mem clint_base trace env].
  rewrite Z.add_0_l.
  rewrite !(wrap64_small (Z.of_nat (length bs) + 1)) by lia.
  replace (Z.to_nat (Z.of_nat (length bs) + 1)) with (S (length bs)) by lia.
  set (m1 := copy_fwd (S (length bs)) SMP_ADDR m (mem st)).
  set (e1 := load_events m (bs ++ [x00])).
  set (e2 := memcpy_events (S (length bs)) SMP_ADDR m (mem st)).
  change (mkState m1 (clint_base st) ((trace st ++ e1) ++ e2) (env st))
    with (after (after st (mem st) e1) m1 e2).
  rewrite after_after.
  assert (R1 : tx_ready u m1).
  { apply (tx_ready_ext u (mem st)); [|exact R]. intros x Hx.
    apply copy_fwd_other; try lia. unfold tx_outside in O.
    rewrite Nat2Z.inj_succ in *. lia. }
  pose proof (sends_bind u (puts (S f) u self "Send software interrupt. Hartid=")
                (fun _ => uart_put_hex (S f) u to_hartid) tt tt _ _
                (sends_puts f u self "Send software interrupt. Hartid=")
                (sends_uart_put_hex f u to_hartid)) as Sn.
  destruct (Sn (after st m1 (e1 ++ e2)) R1) as (m2 & con & E & R2 & Fr & Cc & T).
  rewrite bind_assoc_run, bind_run, E, after_after, clint_send_soft_run.
  exists m2, con. split.
  - unfold after. cbn [mem clint_base trace env].
    rewrite <- !app_assoc. reflexivity.
  - split; [exact Fr|]. split; [exact R2|]. split; [exact Cc|exact T].
Qed.

(** The mailbox after the send. *)
Lemma mailbox_after_send (to_hartid m : Z) (bs : list byte) (mm : memory) :
  cstring_at mm m bs ->
  buffer_ok m (Z.of_nat (S (length bs))) ->
  buffer_ok SMP_ADDR (Z.of_nat (S (length bs))) ->
  apart m SMP_ADDR (Z.of_nat (S (length bs))) ->
  0 <= to_hartid < MAX_HARTS ->
  cstring_at (store_le (copy_fwd (S (length bs)) SMP_ADDR m mm)
                       (CLINT_SOFT CLINT_CTRL_ADDR to_hartid) 4 1)
             SMP_ADDR bs.
Proof.
  intros [L N] [Hm Hmn] [Hs Hsn] Hap Hto. split; [|exact N].
  rewrite <- L. apply load_bytes_shift. intros i Hi.
  rewrite store_le_other.
  - apply copy_fwd_disjoint; try lia. unfold apart in Hap. lia.
  - rewrite CLINT_SOFT_boot by exact Hto.
    unfold MAX_HARTS, CLINT_CTRL_ADDR, CLINT_MSIP_SIZE, SMP_ADDR in *.
    change (Z.of_nat 4) with 4. lia.
Qed.

Lemma memcpy_events_no_fence (n : nat) : forall (d s : Z) (m : memory),
  filter is_fence (memcpy_events n d s m) = [].
Proof.
  induction n as [|k IH]; intros d s m; [reflexivity|].
  cbn [memcpy_events filter is_fence]. apply IH.
Qed.

Lemma memcpy_events_stores (n : nat) : forall (d s : Z) (m : memory),
  buffer_ok d (Z.of_nat n) -> buffer_ok s (Z.of_nat n) ->
  apart s d (Z.of_nat n) ->
  filter is_store (memcpy_events n d s m) = store_events d (load_bytes m s n).
Proof.
  induction n as [|k IH]; intros d s m [Hd Hdn] [Hs Hsn] Hap; [reflexivity|].
  unfold apart in Hap. rewrite Nat2Z.inj_succ in *.
  cbn [memcpy_events filter is_store load_bytes store_events].
  rewrite (wrap64_small (d + 1)), (wrap64_small (s + 1)) by lia.
  f_equal. rewrite IH by (unfold buffer_ok, apart; lia).
  f_equal. apply load_bytes_ext. intros x Hx. apply mem_set_other. lia.
Qed.

Lemma load_events_no_store (bs : list byte) : forall (a : Z),
  filter is_store (load_events a bs) = [].
Proof.
  induction bs as [|b bs IH]; intros a; [reflexivity|].
  cbn [load_events filter is_store]. apply IH.
Qed.

(** What [writeb] achieves, for comparison: the copy made by [smp_memcpy]
    has a [fence(w, o)] of its own in front of every store. *)
Lemma smp_memcpy_events_fenced (n : nat) : forall (d s : Z) (m : memory) (armed : bool),
  fenced_stores armed (smp_memcpy_events n d s m) = true.
Proof.
  induction n as [|k IH]; intros d s m armed; [reflexivity|].
  cbn [smp_memcpy_events fenced_stores orb andb]. apply IH.
Qed.

Lemma cstring_at_msg_state (bs : list byte) :
  forallb (fun b => negb (byte_eqb b x00)) bs = true ->
  cstring_at (mem (msg_state bs)) msg_addr bs.
Proof.
  intros N. split; [|exact N]. cbn [mem msg_state].
  assert (G : forall (n : nat) (k : nat),
             load_bytes (fun a => if msg_addr <=? a
                                  then nth (Z.to_nat (a - msg_addr)) bs x00
                                  else x00)
                        (msg_addr + Z.of_nat k) n
             = map (fun i => nth i bs x00) (seq k n)).
  { induction n as [|n IH]; intros k; [reflexivity|].
    cbn [load_bytes seq map]. f_equal.
    - destruct (Z.leb_spec msg_addr (msg_addr + Z.of_nat k)); [|lia].
      f_equal. lia.
    - replace (msg_addr + Z.of_nat k + 1) with (msg_addr + Z.of_nat (S k)) by lia.
      apply IH. }
  specialize (G (S (length bs)) O). rewrite Z.add_0_r in G. rewrite G.
  rewrite seq_S, map_app. cbn [map Nat.add]. f_equal.
  - clear. induction bs as [|b bs IH]; [reflexivity|].
    cbn [length seq map nth]. f_equal. rewrite <- seq_shift, map_map. exact IH.
  - rewrite nth_overflow by lia. reflexivity.
Qed.

(** A store that the console output logs goes to the transmit
    register. *)
Lemma console_stores (u : uart) (con : list event) (w : nat) (a v : Z) :
  forallb (console_event u) con = true ->
  In (EvStore w a v) con -> w = 4%nat /\ a = uart_tx_addr u.
Proof.
  rewrite forallb_forall. intros H I. apply H in I. cbn [console_event] in I.
  destruct w as [|[|[|[|[|w]]]]]; try discriminate I.
  split; [reflexivity|]. apply Z.eqb_eq. exact I.
Qed.

Lemma load_events_are_loads (bs : list byte) : forall (a : Z) (w : nat) (x v : Z),
  ~ In (EvStore w x v) (load_events a bs).
Proof.
  induction bs as [|b bs IH]; intros a w x v; [intros []|].
  cbn [load_events In]. intros [H|H]; [discriminate H|]. exact (IH _ _ _ _ H).
Qed.

(** C4 (amended).  The sending code writes the message with the plain
    [memcpy], not with the fenced [writeb] path: what it logs is, in
    order, the loads of [strlen] ([ld]), the copy ([cp]), the console
    output ([con]), and the [fence(w, o)] and store of [clint_send_soft].
    The copy contains no fence at all; its stores are one byte store per
    message character and one for the terminator, at increasing mailbox
    addresses.  The only other stores made before the signal are the
    word stores of the serial driver into its transmit register, which
    lies outside the mailbox.  So every mailbox store precedes, in
    program order, every fence of the sending code, and in particular the
    [fence(w, o)] that stands immediately in front of the store that sets
    the pending bit. *)
Theorem send_copy_is_plain_and_precedes_fence
        (fuel : nat) (u : uart) (self to_hartid m : Z) (bs : list byte)
        (st : state) :
  cstring_at (mem st) m bs ->
  Z.of_nat (length bs) < SMP_SIZE ->
  (length bs < fuel)%nat ->
  buffer_ok m (Z.of_nat (S (length bs))) ->
  apart m SMP_ADDR (Z.of_nat (S (length bs))) ->
  tx_ready u (mem st) ->
  tx_outside u SMP_ADDR SMP_SIZE ->
  exists st' ld cp con,
    test_ipi_send fuel u self to_hartid m st = Some (tt, st') /\
    trace st' =
      trace st ++ ld ++ cp ++ con ++
      [EvFence FW FO; EvStore 4 (CLINT_SOFT (clint_base st) to_hartid) 1] /\
    filter is_fence (ld ++ cp) = [] /\
    filter is_store cp = store_events SMP_ADDR (bs ++ [x00]) /\
    (forall w a v, In (EvStore w a v) (ld ++ con) ->
                   w = 4%nat /\ a = uart_tx_addr u /\ in_mailbox a = false).
Proof.
  intros C Hlen F Hm Hap R O.
  assert (Hs : buffer_ok SMP_ADDR (Z.of_nat (S (length bs)))).
  { unfold buffer_ok, SMP_ADDR, SMP_SIZE in *. rewrite Nat2Z.inj_succ. lia. }
  assert (O' : tx_outside u SMP_ADDR (Z.of_nat (S (length bs)))).
  { unfold tx_outside, SMP_SIZE in *. rewrite Nat2Z.inj_succ. lia. }
  destruct (test_ipi_send_run fuel u self to_hartid m bs st C F Hm Hs R O')
    as (m2 & con & E & _ & _ & Cc & _).
  eexists. exists (load_events m (bs ++ [x00])).
  exists (memcpy_events (S (length bs)) SMP_ADDR m (mem st)). exists con.
  split; [exact E|]. cbn [after trace]. split; [reflexivity|].
  split; [|split].
  - rewrite filter_app, memcpy_events_no_fence, app_nil_r.
    clear. generalize (bs ++ [x00]). intros l. revert m.
    induction l as [|b l IH]; intros m; [reflexivity|]. cbn. apply IH.
  - rewrite memcpy_events_stores by assumption.
    destruct C as [L _]. rewrite L. reflexivity.
  - intros w a v I. apply in_app_or in I. destruct I as [I|I].
    + exfalso. exact (load_events_are_loads _ _ _ _ _ I).
    + destruct (console_stores u con w a v Cc I) as [-> ->].
      split; [reflexivity|]. split; [reflexivity|].
      unfold in_mailbox, tx_outside in *.
      destruct (Z.leb_spec SMP_ADDR (uart_tx_addr u)),
               (Z.ltb_spec (uart_tx_addr u) (SMP_ADDR + SMP_SIZE));
        cbn [andb]; try reflexivity.
      unfold uart_tx_addr, uart_reg_addr, wrap64 in *.
      pose proof (Z.mod_pos_bound (uart_base u + wrap32 (Z.shiftl UART_REG_TXDATA 2))
                    (2 ^ 64) ltac:(lia)).
      lia.
Qed.

Lemma hello_buffers :
  cstring_at (mem (msg_state hello)) msg_addr hello /\
  buffer_ok msg_addr (Z.of_nat (S (length hello))) /\
  buffer_ok SMP_ADDR (Z.of_nat (S (length hello))) /\
  apart msg_addr SMP_ADDR (Z.of_nat (S (length hello))).
Proof.
  split; [apply cstring_at_msg_state; reflexivity|].
  unfold buffer_ok, apart, msg_addr, SMP_ADDR. cbn. lia.
Qed.

Lemma uart0_ready (bs : list byte) : tx_ready uart0 (mem (msg_state bs)).
Proof.
  unfold tx_ready. cbn [mem msg_state].
  rewrite (load_le_ext 4 _ (fun _ => x00)); [reflexivity|].
  intros x Hx. change (Z.of_nat 4) with 4 in Hx.
  change (uart_tx_addr uart0) with 0x10010000 in Hx.
  destruct (Z.leb_spec msg_addr x); [|reflexivity].
  unfold msg_addr in *. lia.
Qed.

Lemma uart0_outside_mailbox : tx_outside uart0 SMP_ADDR SMP_SIZE.
Proof. left. vm_compute. discriminate. Qed.

(** Instance of C4 (amended): the message "hello" sent to hart 1. *)
Lemma send_copy_is_plain_and_precedes_fence_witness :
  exists st' ld cp con,
    test_ipi_send 10 uart0 ZERO_HART 1 msg_addr (msg_state hello)
      = Some (tt, st') /\
    trace st' =
      trace (msg_state hello) ++ ld ++ cp ++ con ++
      [EvFence FW FO; EvStore 4 (CLINT_SOFT CLINT_CTRL_ADDR 1) 1] /\
    filter is_fence (ld ++ cp) = [] /\
    filter is_store cp = store_events SMP_ADDR (hello ++ [x00]).
Proof.
  destruct hello_buffers as (C & B1 & B2 & B3).
  destruct (send_copy_is_plain_and_precedes_fence 10 uart0 ZERO_HART 1 msg_addr
              hello (msg_state hello) C ltac:(cbn; unfold SMP_SIZE; lia)
              ltac:(cbn; lia) B1 B3 (uart0_ready hello) uart0_outside_mailbox)
    as (st' & ld & cp & con & E & T & Fn & St & _).
  exists st', ld, cp, con. split; [exact E|]. split; [exact T|].
  split; [exact Fn|exact St].
Defined.

Lemma fenced_stores_prefix (p q : list event) : forall (armed : bool),
  fenced_stores armed p = false -> fenced_stores armed (p ++ q) = false.
Proof.
  induction p as [|e p IH]; intros armed H; [discriminate H|].
  destruct e as [x y| | w a v | |]; cbn [app fenced_stores] in *.
  - destruct x, y; auto.
  - auto.
  - apply andb_false_iff in H. apply andb_false_iff.
    destruct H as [H|H]; [left; exact H|right; auto].
  - auto.
  - auto.
Qed.

(** C4 as stated fails: sending "hello", the stores into the mailbox do
    not each have a [fence(w, o)] in front of them. *)
Lemma send_stores_are_not_individually_fenced :
  exists st',
    test_ipi_send 10 uart0 ZERO_HART 1 msg_addr (msg_state hello)
      = Some (tt, st') /\
    fenced_stores false (trace st') = false.
Proof.
  destruct hello_buffers as (C & B1 & B2 & B3).
  destruct (test_ipi_send_run 10 uart0 ZERO_HART 1 msg_addr hello
              (msg_state hello) C ltac:(cbn; lia) B1 B2 (uart0_ready hello))
    as (m2 & con & E & _).
  { left. vm_compute. discriminate. }
  eexists. split; [exact E|]. cbn [after trace msg_state app].
  rewrite app_assoc. apply fenced_stores_prefix. vm_compute. reflexivity.
Qed.

(* ================================================================== *)
(** ** The mailbox: receiving ([wait_ipi], [other_main]) *)

Lemma read_csr_mip_run (self : Z) (st : state) :
  read_csr_mip self st =
  Some (mip_of (mem st) self,
        mkState (mem st) (clint_base st)
                (trace st ++ [EvCsrRead CSR_mip (mip_of (mem st) self)])
                (env st)).
Proof. reflexivity. Qed.

Lemma mip_of_cases (m : memory) (self : Z) :
  (mip_of m self = MIP_MSIP /\ (Z.land (mip_of m self) MIP_MSIP =? 0) = false) \/
  (mip_of m self = 0 /\ (Z.land (mip_of m self) MIP_MSIP =? 0) = true).
Proof.
  unfold mip_of.
  destruct (Z.testbit (load_le m (CLINT_CTRL_ADDR + self * CLINT_MSIP_SIZE) 4) 0);
    [left|right]; split; reflexivity.
Qed.

(** With the bit already set the wait loop leaves at its first test. *)
Lemma wait_ipi_loop_pending (f : nat) (self : Z) (st : state) :
  mip_of (mem st) self = MIP_MSIP ->
  wait_ipi_loop (S f) self st =
  Some (tt, mkState (mem st) (clint_base st)
                    (trace st ++ [EvCsrRead CSR_mip MIP_MSIP]) (env st)).
Proof.
  intros H. cbn [wait_ipi_loop]. rewrite bind_run, read_csr_mip_run, H.
  reflexivity.
Qed.

Lemma mip_of_after_raise (m : memory) (h : Z) :
  0 <= h < MAX_HARTS ->
  mip_of (store_le m (CLINT_SOFT CLINT_CTRL_ADDR h) 4 1) h = MIP_MSIP.
Proof.
  intros H. unfold mip_of. rewrite <- CLINT_SOFT_boot by exact H.
  rewrite load_le_store_le_same. reflexivity.
Qed.

Lemma wait_ipi_pending_run (f : nat) (self hartid : Z) (st : state) :
  mip_of (mem st) self = MIP_MSIP ->
  wait_ipi (S f) self hartid st =
  Some (0, mkState (store_le (mem st) (CLINT_SOFT (clint_base st) hartid) 4 0)
                   (clint_base st)
                   (trace st ++
                    [EvCsrRead CSR_mip MIP_MSIP; EvFence FW FO;
                     EvStore 4 (CLINT_SOFT (clint_base st) hartid) 0])
                   (env st)).
Proof.
  intros H. unfold wait_ipi.
  rewrite bind_run, wait_ipi_loop_pending by exact H.
  rewrite bind_run, clint_clear_soft_run. cbn [mem clint_base trace env ret].
  rewrite <- app_assoc. reflexivity.
Qed.

Lemma store_le_ext (n : nat) (m m' : memory) (a v x : Z) :
  m x = m' x -> store_le m a n v x = store_le m' a n v x.
Proof.
  intros H. rewrite !store_le_spec.
  destruct ((a <=? x) && (x <? a + Z.of_nat n)); [reflexivity|exact H].
Qed.

(** The transmit register is none of the pending words. *)
Lemma tx_not_pending (u : uart) (h : Z) :
  tx_outside u CLINT_CTRL_ADDR (MAX_HARTS * CLINT_MSIP_SIZE) ->
  0 <= h < MAX_HARTS ->
  uart_tx_addr u + 4 <= CLINT_SOFT CLINT_CTRL_ADDR h \/
  CLINT_SOFT CLINT_CTRL_ADDR h + 4 <= uart_tx_addr u.
Proof.
  intros O Hh. rewrite CLINT_SOFT_boot by exact Hh.
  unfold tx_outside, MAX_HARTS, CLINT_MSIP_SIZE in *. lia.
Qed.

Lemma tx_chars_pending (u : uart) (h v : Z) :
  tx_outside u CLINT_CTRL_ADDR (MAX_HARTS * CLINT_MSIP_SIZE) ->
  0 <= h < MAX_HARTS ->
  tx_chars u [EvFence FW FO; EvStore 4 (CLINT_SOFT CLINT_CTRL_ADDR h) v] = [].
Proof.
  intros O Hh. pose proof (tx_not_pending u h O Hh).
  cbn [tx_chars].
  destruct (Z.eqb_spec (CLINT_SOFT CLINT_CTRL_ADDR h) (uart_tx_addr u));
    [lia|reflexivity].
Qed.

Lemma tx_ready_pending_store (u : uart) (m : memory) (h v : Z) :
  tx_outside u CLINT_CTRL_ADDR (MAX_HARTS * CLINT_MSIP_SIZE) ->
  0 <= h < MAX_HARTS ->
  tx_ready u m ->
  tx_ready u (store_le m (CLINT_SOFT CLINT_CTRL_ADDR h) 4 v).
Proof.
  intros O Hh R. pose proof (tx_not_pending u h O Hh).
  apply (tx_ready_ext u m); [|exact R].
  intros x Hx. apply store_le_other. change (Z.of_nat 4) with 4. lia.
Qed.

(** One round of [other_main] on a hart whose bit is set, with a message
    in the mailbox and room in the serial device. *)
Lemma other_main_body_run (fuel : nat) (u : uart) (h : Z) (bs : list byte)
      (st : state) :
  clint_base st = CLINT_CTRL_ADDR ->
  0 <= h < MAX_HARTS ->
  mip_of (mem st) h = MIP_MSIP ->
  cstring_at (mem st) SMP_ADDR bs ->
  (length bs < fuel)%nat ->
  buffer_ok SMP_ADDR (Z.of_nat (S (length bs))) ->
  tx_ready u (mem st) ->
  tx_outside u SMP_ADDR (Z.of_nat (S (length bs))) ->
  tx_outside u CLINT_CTRL_ADDR (MAX_HARTS * CLINT_MSIP_SIZE) ->
  exists st',
    other_main_body fuel u h h st = Some (tt, st') /\
    tx_chars u (trace st') =
      tx_chars u (trace st) ++
      puts_chars h "Software interrupt from Hart 0" ++
      puts_chars h "Message from Hart 0: " ++
      bs.
Proof.
  intros Hb Hh Hp C F [Hs Hsn] R O Oc. rewrite Nat2Z.inj_succ in Hsn.
  destruct fuel as [|f]; [cbn in F; lia|].
  unfold other_main_body.
  rewrite bind_run, (wait_ipi_pending_run f h h) by exact Hp.
  rewrite Hb.
  set (m1 := store_le (mem st) (CLINT_SOFT CLINT_CTRL_ADDR h) 4 0).
  set (e1 := [EvCsrRead CSR_mip MIP_MSIP; EvFence FW FO;
              EvStore 4 (CLINT_SOFT CLINT_CTRL_ADDR h) 0]).
  change (mkState m1 CLINT_CTRL_ADDR (trace st ++ e1) (env st))
    with (mkState m1 CLINT_CTRL_ADDR (trace st ++ e1) (env st)).
  set (s1 := mkState m1 CLINT_CTRL_ADDR (trace st ++ e1) (env st)).
  assert (R1 : tx_ready u (mem s1))
    by (apply tx_ready_pending_store; assumption).
  pose proof (tx_not_pending u h Oc Hh) as Nh.
  assert (Hbox : forall x, SMP_ADDR <= x < SMP_ADDR + Z.of_nat (S (length bs)) ->
                           m1 x = mem st x).
  { intros x Hx. apply store_le_other. rewrite CLINT_SOFT_boot by exact Hh.
    unfold MAX_HARTS, CLINT_CTRL_ADDR, CLINT_MSIP_SIZE, SMP_ADDR in *.
    change (Z.of_nat 4) with 4. lia. }
  pose proof (sends_bind u (puts (S f) u h "Software interrupt from Hart 0")
                (fun _ => puts (S f) u h "Message from Hart 0: ") tt tt _ _
                (sends_puts f u h "Software interrupt from Hart 0")
                (sends_puts f u h "Message from Hart 0: ")) as Sn.
  destruct (Sn s1 R1) as (m2 & con & E & R2 & Fr & Cc & T).
  rewrite !bind_assoc_run. rewrite bind_run in E.
  rewrite (bind_run (bind _ _)), (bind_run (bind _ _)), (bind_run (puts _ _ _ _)).
  destruct (puts (S f) u h "Software interrupt from Hart 0" s1) as [[[] s2]|];
    [|discriminate E].
  rewrite E. cbn [mem s1] in Fr.
  unfold tx_outside in O. rewrite Nat2Z.inj_succ in O.
  destruct (uart_puts_loop_run bs (S f) u SMP_ADDR (after s1 m2 con))
    as (m3 & e3 & E3 & R3 & Fr3 & T3); rewrite ?mem_after; try assumption; try lia.
  { apply (cstring_at_ext (mem st)); [|exact C]. intros x Hx. symmetry.
    rewrite Fr by (rewrite Nat2Z.inj_succ in Hx; lia). apply Hbox. exact Hx. }
  { unfold tx_outside. rewrite Nat2Z.inj_succ. exact O. }
  unfold uart_puts. rewrite E3, clint_send_soft_run.
  eexists. split; [reflexivity|]. cbn [after trace mem clint_base s1].
  rewrite !tx_chars_app, T, T3.
  rewrite (tx_chars_pending u ZERO_HART 1 Oc) by (unfold ZERO_HART, MAX_HARTS; lia).
  unfold e1. change (tx_chars u (EvCsrRead CSR_mip MIP_MSIP :: ?l))
    with (tx_chars u l).
  cbn [tx_chars]. 
  destruct (Z.eqb_spec (CLINT_SOFT CLINT_CTRL_ADDR h) (uart_tx_addr u)); [lia|].
  rewrite app_nil_r. cbn [app]. rewrite <- !app_assoc. reflexivity.
Qed.

(** C3.  A NUL-free message shorter than the mailbox, sent to a hart [h]
    of the configured range by the sending code and then received by the
    round of [other_main] that hart [h] runs, with room in the serial
    device at the start and its transmit register outside the mailbox
    and the pending words: both return, and what the receiver hands to
    the serial device is its two announcements followed by exactly the
    bytes of the message.  In particular for "hello". *)
Theorem mailbox_round_trip
        (fuel : nat) (u : uart) (self h m : Z) (bs : list byte) (st : state) :
  cstring_at (mem st) m bs ->
  Z.of_nat (length bs) < SMP_SIZE ->
  (length bs < fuel)%nat ->
  buffer_ok m (Z.of_nat (S (length bs))) ->
  apart m SMP_ADDR (Z.of_nat (S (length bs))) ->
  clint_base st = CLINT_CTRL_ADDR ->
  0 <= h < MAX_HARTS ->
  tx_ready u (mem st) ->
  tx_outside u SMP_ADDR SMP_SIZE ->
  tx_outside u CLINT_CTRL_ADDR (MAX_HARTS * CLINT_MSIP_SIZE) ->
  exists st1 st2,
    test_ipi_send fuel u self h m st = Some (tt, st1) /\
    other_main_body fuel u h h st1 = Some (tt, st2) /\
    tx_chars u (trace st2) =
      tx_chars u (trace st1) ++
      puts_chars h "Software interrupt from Hart 0" ++
      puts_chars h "Message from Hart 0: " ++
      bs.
Proof.
  intros C Hlen F Hm Hap Hb Hh R O Oc.
  assert (Hs : buffer_ok SMP_ADDR (Z.of_nat (S (length bs)))).
  { unfold buffer_ok, SMP_ADDR, SMP_SIZE in *. rewrite Nat2Z.inj_succ. lia. }
  assert (O' : tx_outside u SMP_ADDR (Z.of_nat (S (length bs)))).
  { unfold tx_outside, SMP_SIZE in *. rewrite Nat2Z.inj_succ. lia. }
  destruct (test_ipi_send_run fuel u self h m bs st C F Hm Hs R O')
    as (m2 & con & E & Fr & R2 & _).
  rewrite Hb in E.
  destruct (other_main_body_run fuel u h bs
              (after st (store_le m2 (CLINT_SOFT CLINT_CTRL_ADDR h) 4 1)
                 (load_events m (bs ++ [x00]) ++
                  memcpy_events (S (length bs)) SMP_ADDR m (mem st) ++
                  con ++
                  [EvFence FW FO; EvStore 4 (CLINT_SOFT CLINT_CTRL_ADDR h) 1])))
    as (st2 & E2 & T2); rewrite ?mem_after; try assumption.
  - apply mip_of_after_raise. exact Hh.
  - apply (cstring_at_ext
             (store_le (copy_fwd (S (length bs)) SMP_ADDR m (mem st))
                       (CLINT_SOFT CLINT_CTRL_ADDR h) 4 1)).
    + intros x Hx. apply store_le_ext. symmetry. apply Fr.
      unfold tx_outside in O'. lia.
    + apply mailbox_after_send; assumption.
  - apply tx_ready_pending_store; assumption.
  - eexists. exists st2. split; [exact E|]. split; [exact E2|exact T2].
Qed.

Lemma uart0_outside_pending :
  tx_outside uart0 CLINT_CTRL_ADDR (MAX_HARTS * CLINT_MSIP_SIZE).
Proof. right. vm_compute. discriminate. Qed.

(** Instance of C3: "hello" sent by hart 0 to hart 1, with the serial
    device where [main] sets it up. *)
Lemma mailbox_round_trip_witness :
  exists st1 st2,
    test_ipi_send 10 uart0 ZERO_HART 1 msg_addr (msg_state hello)
      = Some (tt, st1) /\
    other_main_body 10 uart0 1 1 st1 = Some (tt, st2) /\
    tx_chars uart0 (trace st2) =
      tx_chars uart0 (trace st1) ++
      puts_chars 1 "Software interrupt from Hart 0" ++
      puts_chars 1 "Message from Hart 0: " ++
      hello.
Proof.
  destruct hello_buffers as (C & B1 & B2 & B3).
  apply (mailbox_round_trip 10 uart0 ZERO_HART 1 msg_addr hello
           (msg_state hello) C
           ltac:(cbn; unfold SMP_SIZE; lia) ltac:(cbn; lia) B1 B3
           eq_refl ltac:(unfold MAX_HARTS; lia)
           (uart0_ready hello) uart0_outside_mailbox uart0_outside_pending).
Defined.

(** Whenever the wait loop returns, what it logged is a run of tests that
    found the bit clear, each followed by a [wfi], and then the one test
    that found it set. *)
Lemma wait_ipi_loop_trace (fuel : nat) : forall (self : Z) (st st' : state),
  wait_ipi_loop fuel self st = Some (tt, st') ->
  exists waits,
    trace st' = trace st ++ waits ++ [EvCsrRead CSR_mip MIP_MSIP] /\
    forallb is_wait_event waits = true /\
    clint_base st' = clint_base st.
Proof.
  induction fuel as [|f IH]; intros self st st' H; [discriminate|].
  cbn [wait_ipi_loop] in H. rewrite bind_run, read_csr_mip_run in H.
  destruct (mip_of_cases (mem st) self) as [[E T]|[E T]]; rewrite T, E in H.
  - injection H as <-. exists []. cbn [trace clint_base]. auto.
  - rewrite bind_run in H. unfold wfi in H at 1. cbn [env] in H.
    destruct (env st) as [|e rest];
      apply IH in H; destruct H as (w & Ht & Hw & Hb);
      cbn [trace clint_base] in Ht, Hb;
      exists ([EvCsrRead CSR_mip 0; EvWfi] ++ w);
      (split; [rewrite Ht, <- !app_assoc; reflexivity|]);
      (split; [cbn [app forallb is_wait_event andb]; exact Hw|exact Hb]).
Qed.

Lemma wait_ipi_trace (fuel : nat) (self hartid r : Z) (st st' : state) :
  wait_ipi fuel self hartid st = Some (r, st') ->
  exists waits,
    trace st' =
      trace st ++ waits ++
      [EvCsrRead CSR_mip MIP_MSIP; EvFence FW FO;
       EvStore 4 (CLINT_SOFT (clint_base st) hartid) 0] /\
    forallb is_wait_event waits = true.
Proof.
  unfold wait_ipi. rewrite bind_run.
  destruct (wait_ipi_loop fuel self st) as [[[] st1]|] eqn:W; [|discriminate].
  apply wait_ipi_loop_trace in W. destruct W as (w & Ht & Hw & Hb).
  rewrite bind_run, clint_clear_soft_run. cbn [ret]. intros H. injection H as _ <-.
  exists w. cbn [trace]. rewrite Ht, Hb, <- !app_assoc. split; [reflexivity|exact Hw].
Qed.

Lemma other_main_body_trace (fuel : nat) (u : uart) (self : Z)
      (st st' : state) :
  other_main_body fuel u self self st = Some (tt, st') ->
  exists waits rest,
    trace st' =
      trace st ++ waits ++
      [EvCsrRead CSR_mip MIP_MSIP; EvFence FW FO;
       EvStore 4 (CLINT_SOFT (clint_base st) self) 0] ++ rest /\
    forallb is_wait_event waits = true.
Proof.
  unfold other_main_body. rewrite bind_run.
  destruct (wait_ipi fuel self self st) as [[r st1]|] eqn:W; [|discriminate].
  apply wait_ipi_trace in W. destruct W as (w & Ht & Hw).
  intros H.
  assert (X : extends (puts fuel u self "Software interrupt from Hart 0" ;;
                       puts fuel u self "Message from Hart 0: " ;;
                       uart_puts fuel u SMP_ADDR ;;
                       clint_send_soft ZERO_HART)).
  { apply extends_bind; [apply extends_puts|intros _].
    apply extends_bind; [apply extends_puts|intros _].
    apply extends_bind; [apply extends_uart_puts_loop|intros _].
    apply extends_run. intros s. do 3 eexists.
    rewrite clint_send_soft_run. reflexivity. }
  destruct (X _ _ _ H) as (rest & Hr).
  exists w, rest. rewrite Hr, Ht, <- !app_assoc. split; [reflexivity|exact Hw].
Qed.

(* ================================================================== *)
(** ** The macro [smp_resume], one hart at a time *)

Lemma moves_cons (m : memory) (rest : list memory) (h : hart) :
  moves (m :: rest) h = moves rest (fst (step h m)).
Proof. reflexivity. Qed.

Lemma moves_nil (h : hart) : moves [] h = h.
Proof. reflexivity. Qed.

Lemma visited_cons (m : memory) (rest : list memory) (h : hart) :
  visited (m :: rest) h = pc h :: visited rest (fst (step h m)).
Proof. reflexivity. Qed.

(** Decide a test whose operands are numerals. *)
Ltac decide_test :=
  match goal with
  | |- context [if ?c then _ else _] =>
      let v := eval vm_compute in c in
      match v with
      | true => change c with true
      | false => change c with false
      end; cbv iota
  end.

(** Run the instruction of a hart whose program counter is a numeral. *)
Ltac run_step :=
  cbv beta iota zeta delta
    [step pc reg1 reg2 mhartid htrace nth_error smp_resume exec next goto
     wr_reg rd_reg log fst snd L_wait L_sweep L_broadcast];
  try decide_test.

Ltac one_move := rewrite ?visited_cons, moves_cons; run_step.

(** C7.  From the top of the macro, whatever the other harts do to the
    memory meanwhile, the primary reaches the wait label [42] for the
    first time at its 26th move, and what it has logged by then is
    exactly five stores of 1: to the pending word of hart 0, then 1, 2, 3
    and 4, each once, its own included. *)
Theorem broadcast_raises_each_hart_once (h : hart) (ms : list memory) :
  pc h = 0%nat ->
  length ms = 26%nat ->
  pc (moves ms h) = L_wait /\
  htrace (moves ms h) = htrace h ++ broadcast_stores /\
  visited ms h =
    [0; 1; 2; 3; 4; 5; 1; 2; 3; 4; 5; 1; 2; 3; 4; 5; 1; 2; 3; 4; 5;
     1; 2; 3; 4; 5; L_wait]%nat.
Proof.
  intros Hpc Hl.
  destruct h as [pc0 r1 r2 id t]. cbn [pc mhartid htrace] in *. subst pc0.
  do 26 (destruct ms as [|? ms]; [discriminate Hl|]).
  destruct ms; [|discriminate Hl]. clear Hl.
  split; [|split].
  - do 26 one_move. reflexivity.
  - do 26 one_move. rewrite moves_nil. cbn [htrace].
    rewrite <- !app_assoc. reflexivity.
  - do 26 (rewrite visited_cons; run_step). reflexivity.
Qed.

(** Instance of C7: hart 0 at the top of the macro, nobody interfering. *)
Lemma broadcast_raises_each_hart_once_witness :
  pc (moves (quiet 26) hart_at_entry) = L_wait /\
  htrace (moves (quiet 26) hart_at_entry) = broadcast_stores.
Proof.
  destruct (broadcast_raises_each_hart_once hart_at_entry (quiet 26)
              eq_refl eq_refl) as (P & T & _).
  split; [exact P|exact T].
Defined.

(** The stores of the broadcast are those of [clint_send_soft]. *)
Lemma broadcast_stores_are_send_soft :
  broadcast_stores =
  flat_map (fun h => match clint_send_soft h boot_state with
                     | Some (_, st) => filter is_store (trace st)
                     | None => []
                     end) [0; 1; 2; 3; 4].
Proof. reflexivity. Qed.

Lemma ack_address (id : Z) :
  0 <= id < MAX_HARTS ->
  wrap64 (wrap64 (wrap64 (Z.shiftl id 2) + wrap64 CLINT_CTRL_ADDR) + 0)
  = CLINT_SOFT CLINT_CTRL_ADDR id.
Proof.
  intros H. rewrite CLINT_SOFT_boot by exact H.
  rewrite Z.shiftl_mul_pow2 by lia.
  unfold MAX_HARTS, CLINT_CTRL_ADDR, CLINT_MSIP_SIZE, wrap64 in *.
  change (2 ^ 64) with 18446744073709551616. change (2 ^ 2) with 4.
  rewrite Z.add_0_r, Z.mod_mod by lia.
  rewrite (Z.mod_small (id * 4)), (Z.mod_small 33554432) by lia.
  rewrite Z.mod_small by lia. lia.
Qed.

(** C8.  (1) When the test of [wait_ipi] finds the bit set, [wait_ipi]
    returns, and the only things it does after the test are the fence and
    the store that clear the bit, which reads clear afterwards.
    (2) Whenever [wait_ipi] returns, after however many sleeps, its log
    ends with the test that found the bit set, followed at once by the
    fence and the clearing store; before that test it only tested and
    slept.
    (3) In a round of [other_main] this clearing store comes before
    everything else the round does, the loads from the mailbox included.
    (4) In [smp_resume], a hart whose test of [mip] finds its bit set
    makes its very next memory access the store of zero to its own
    pending word, and only then arrives at the code behind it, whatever
    the other harts do meanwhile. *)
Theorem acknowledge_before_anything_else :
  (forall f self hartid st,
      mip_of (mem st) self = MIP_MSIP ->
      exists st',
        wait_ipi (S f) self hartid st = Some (0, st') /\
        trace st' =
          trace st ++
          [EvCsrRead CSR_mip MIP_MSIP; EvFence FW FO;
           EvStore 4 (CLINT_SOFT (clint_base st) hartid) 0] /\
        is_pending hartid st' = Some false) /\
  (forall fuel self hartid r st st',
      wait_ipi fuel self hartid st = Some (r, st') ->
      exists waits,
        trace st' =
          trace st ++ waits ++
          [EvCsrRead CSR_mip MIP_MSIP; EvFence FW FO;
           EvStore 4 (CLINT_SOFT (clint_base st) hartid) 0] /\
        forallb is_wait_event waits = true) /\
  (forall fuel u self st st',
      other_main_body fuel u self self st = Some (tt, st') ->
      exists waits rest,
        trace st' =
          trace st ++ waits ++
          [EvCsrRead CSR_mip MIP_MSIP; EvFence FW FO;
           EvStore 4 (CLINT_SOFT (clint_base st) self) 0] ++ rest /\
        forallb is_wait_event waits = true) /\
  (forall h m1 rest,
      pc h = 7%nat ->
      mip_of m1 (mhartid h) = MIP_MSIP ->
      0 <= mhartid h < MAX_HARTS ->
      length rest = 7%nat ->
      pc (moves (m1 :: rest) h) = L_sweep /\
      htrace (moves (m1 :: rest) h) =
        htrace h ++
        [EvCsrRead CSR_mip MIP_MSIP; EvCsrRead CSR_mhartid (mhartid h);
         EvStore 4 (CLINT_SOFT CLINT_CTRL_ADDR (mhartid h)) 0]).
Proof.
  split; [|split; [|split]].
  - intros f self hartid st Hp. eexists.
    split; [apply wait_ipi_pending_run; exact Hp|].
    cbn [trace]. split; [reflexivity|].
    rewrite is_pending_word. cbn [mem clint_base].
    rewrite load_le_store_le_same. reflexivity.
  - intros fuel self hartid r st st'. apply wait_ipi_trace.
  - intros fuel u self st st'. apply other_main_body_trace.
  - intros h m1 rest Hpc Hp Hid Hl.
    destruct h as [pc0 r1 r2 id t]. cbn [pc mhartid htrace] in *. subst pc0.
    do 7 (destruct rest as [|? rest]; [discriminate Hl|]).
    destruct rest; [|discriminate Hl]. clear Hl.
    one_move. rewrite Hp. do 7 one_move. rewrite moves_nil. cbn [pc htrace].
    split; [reflexivity|].
    rewrite <- !app_assoc. cbn [app]. rewrite ack_address by exact Hid.
    reflexivity.
Qed.

(** Instance of C8: hart 1 waits through an idle wake, is then signalled,
    and acknowledges. *)
Lemma acknowledge_before_anything_else_witness :
  match wait_ipi 5 1 1 waiting_state with
  | Some (_, st') =>
      exists waits,
        trace st' =
          trace waiting_state ++ waits ++
          [EvCsrRead CSR_mip MIP_MSIP; EvFence FW FO;
           EvStore 4 (CLINT_SOFT (clint_base waiting_state) 1) 0] /\
        forallb is_wait_event waits = true
  | None => False
  end.
Proof.
  destruct (wait_ipi 5 1 1 waiting_state) as [[r st']|] eqn:E.
  - exact (proj1 (proj2 acknowledge_before_anything_else)
             5%nat 1 1 r waiting_state st' E).
  - vm_compute in E. discriminate E.
Defined.

(* ================================================================== *)
(** ** The barrier of [smp_resume], all harts together *)

Lemma byte_to_Z_zero (b : byte) : byte_to_Z b = 0 -> b = x00.
Proof.
  intros H. rewrite <- (byte_of_to_Z b), H. reflexivity.
Qed.

Lemma load_le_zero (n : nat) : forall (m : memory) (a : Z),
  load_le m a n = 0 <->
  (forall i, 0 <= i < Z.of_nat n -> m (a + i) = x00).
Proof.
  induction n as [|k IH]; intros m a.
  - cbn. split; [intros _ i Hi; lia|reflexivity].
  - cbn [load_le]. pose proof (byte_to_Z_range (m a)) as Hb.
    pose proof (load_le_range k m (a + 1)) as Hr. split.
    + intros H i Hi.
      assert (H0 : byte_to_Z (m a) = 0) by lia.
      assert (H1 : load_le m (a + 1) k = 0) by lia.
      destruct (Z.eq_dec i 0) as [->|Hn].
      * rewrite Z.add_0_r. apply byte_to_Z_zero. exact H0.
      * replace (a + i) with (a + 1 + (i - 1)) by lia.
        apply (proj1 (IH m (a + 1)) H1). lia.
    + intros H.
      rewrite (proj2 (IH m (a + 1))).
      * specialize (H 0). rewrite Z.add_0_r in H. rewrite H by lia. reflexivity.
      * intros i Hi. replace (a + 1 + i) with (a + (i + 1)) by lia.
        apply H. lia.
Qed.

(** A store of zero leaves every word that read zero reading zero,
    wherever the store goes. *)
Lemma zero_store_keeps_zero (m : memory) (a b : Z) (n k : nat) :
  load_le m b n = 0 -> load_le (store_le m a k 0) b n = 0.
Proof.
  rewrite !load_le_zero. intros H i Hi. rewrite store_le_spec.
  destruct ((a <=? b + i) && (b + i <? a + Z.of_nat k)).
  - rewrite Zdiv_0_l. reflexivity.
  - apply H. exact Hi.
Qed.

Lemma swept_zero_store (m : memory) (a k : Z) :
  swept m k -> swept (store_le m a 4 0) k.
Proof.
  intros H j Hj. unfold msip_word. apply zero_store_keeps_zero. apply H. exact Hj.
Qed.


(** Split on a program counter: the numerals below [k], and the rest. *)
Ltac split_pc k :=
  lazymatch k with
  | O => idtac
  | S ?k' =>
      match goal with
      | n : nat |- _ =>
          let x := fresh "n" in destruct n as [|x]; [|split_pc k']
      end
  end.

Lemma behind_zero_store (t : list event) (m : memory) (a k : Z) :
  behind t m k -> behind t (store_le m a 4 0) k.
Proof. intros [S P]. split; [apply swept_zero_store; exact S|exact P]. Qed.

Lemma behind_log (t : list event) (e : event) (m : memory) (k : Z) :
  behind t m k -> behind (t ++ [e]) m k.
Proof.
  intros [S P]. split; [exact S|].
  intros j Hj. apply in_or_app. left. apply P. exact Hj.
Qed.

Lemma behind_next (t : list event) (m : memory) (k : Z) :
  behind t m k ->
  msip_word m k = 0 ->
  In (EvLoad 4 (CLINT_CTRL_ADDR + k * CLINT_MSIP_SIZE) 0) t ->
  behind t m (k + 1).
Proof.
  intros [S P] Hz Hl. split; intros j Hj;
    (destruct (Z.eq_dec j k) as [->|Hn]; [assumption|]).
  - apply S. lia.
  - apply P. lia.
Qed.

Lemma primary_inv_zero_store (p : hart) (m : memory) (a : Z) :
  primary_inv p m -> primary_inv p (store_le m a 4 0).
Proof.
  destruct p as [n r1 r2 id t]. unfold primary_inv. cbn [pc reg1 reg2 htrace].
  split_pc 21%nat; cbn [Nat.ltb Nat.leb]; intros H; try exact H.
  - destruct H as (k & Hk & Ha & Hs). exists k.
    auto using behind_zero_store.
  - destruct H as (k & Hk & Ha & Hs & Hz). exists k.
    split; [exact Hk|]. split; [exact Ha|].
    split; [apply behind_zero_store; exact Hs|].
    intros E. apply behind_zero_store. apply Hz. exact E.
  - destruct H as (k & Hk & Ha & Hs). exists k.
    auto using behind_zero_store.
  - destruct H as (k & Hk & Ha & Hs). exists k.
    auto using behind_zero_store.
  - destruct H as (k & Hk & Ha & Hs & Hr). exists k.
    auto using behind_zero_store.
  - apply behind_zero_store. exact H.
  - apply behind_zero_store. exact H.
Qed.

Lemma sext_4_zero (v : Z) : 0 <= v < 2 ^ 32 -> sext 4 v = 0 -> v = 0.
Proof.
  intros H E. rewrite <- (wrap32_sext_4 v H), E. reflexivity.
Qed.

Lemma word_address (k : Z) :
  0 <= k <= MAX_HARTS ->
  wrap64 (CLINT_CTRL_ADDR + k * CLINT_MSIP_SIZE + 0)
  = CLINT_CTRL_ADDR + k * CLINT_MSIP_SIZE.
Proof.
  intros H. rewrite Z.add_0_r. apply wrap64_small.
  unfold MAX_HARTS, CLINT_CTRL_ADDR, CLINT_MSIP_SIZE in *. lia.
Qed.

Lemma signed64_small (x : Z) : 0 <= x < 2 ^ 63 -> signed64 x = x.
Proof.
  intros H. unfold signed64. destruct (Z.ltb_spec x (2 ^ 63)); [reflexivity|lia].
Qed.

(** Every instruction of the primary keeps its invariant. *)
Lemma primary_step_inv (p : hart) (m : memory) :
  primary_inv p m -> primary_inv (fst (step p m)) (snd (step p m)).
Proof.
  destruct p as [n r1 r2 id t].
  split_pc 21%nat; unfold primary_inv at 1;
    cbn [pc reg1 reg2 htrace Nat.ltb Nat.leb]; intros H;
    cbv beta iota zeta delta
      [step pc reg1 reg2 mhartid htrace nth_error smp_resume exec next goto
       wr_reg rd_reg log fst snd L_wait L_sweep L_broadcast];
    repeat match goal with
           | |- context [if ?c then _ else _] => destruct c eqn:T
           end;
    cbv beta iota zeta delta
      [primary_inv at_hart pc reg1 reg2 htrace fst snd Nat.ltb Nat.leb];
    try exact I; try assumption.
  - (* 10: li reg1, CLINT_CTRL_ADDR *)
    reflexivity.
  - (* 14: sw zero, 0(reg2) *)
    exists 0. split; [unfold MAX_HARTS; lia|]. split; [lia|].
    split; intros j Hj; lia.
  - (* 15: lw reg2, 0(reg1) *)
    destruct H as (k & Hk & Ha & Hs). unfold at_hart in Ha. cbn [reg1] in Ha.
    exists k. split; [exact Hk|]. split; [exact Ha|].
    split; [apply behind_log; exact Hs|].
    rewrite Ha, word_address by lia. intros E.
    apply sext_4_zero in E; [|apply (load_le_range 4)].
    apply behind_next; [apply behind_log; exact Hs|exact E|].
    apply in_or_app. right. rewrite E. left. reflexivity.
  - (* 16: bnez reg2, 41b, not taken *)
    destruct H as (k & Hk & Ha & Hs & Hz).
    exists k. split; [exact Hk|]. split; [exact Ha|].
    apply Hz. cbn [reg2]. apply Z.eqb_eq. exact T.
  - (* 16: bnez reg2, 41b, taken *)
    destruct H as (k & Hk & Ha & Hs & Hz).
    exists k. auto.
  - (* 17: addi reg1, reg1, 4 *)
    destruct H as (k & Hk & Ha & Hs). unfold at_hart in Ha. cbn [reg1] in Ha.
    exists (k + 1). split; [lia|]. split; [|exact Hs].
    rewrite Ha. rewrite wrap64_small;
      unfold MAX_HARTS, CLINT_CTRL_ADDR, CLINT_MSIP_SIZE in *; lia.
  - (* 18: li reg2, CLINT_END_HART_IPI *)
    destruct H as (k & Hk & Ha & Hs).
    exists k. split; [exact Hk|]. split; [exact Ha|]. split; [exact Hs|reflexivity].
  - (* 19: blt reg1, reg2, 41b, taken *)
    destruct H as (k & Hk & Ha & Hs & Hr).
    unfold at_hart in Ha. cbn [reg1 reg2] in Ha, Hr.
    exists k. split; [|split; [exact Ha|exact Hs]].
    rewrite Ha, Hr in T. apply Z.ltb_lt in T.
    rewrite !signed64_small in T;
      unfold CLINT_END_HART_IPI, MAX_HARTS, CLINT_CTRL_ADDR, CLINT_MSIP_SIZE in *;
      lia.
  - (* 19: blt reg1, reg2, 41b, not taken *)
    destruct H as (k & Hk & Ha & Hs & Hr).
    unfold at_hart in Ha. cbn [reg1 reg2] in Ha, Hr.
    rewrite Ha, Hr in T. apply Z.ltb_ge in T.
    rewrite !signed64_small in T;
      try (unfold CLINT_END_HART_IPI, MAX_HARTS, CLINT_CTRL_ADDR, CLINT_MSIP_SIZE in *;
           lia).
    assert (k = MAX_HARTS)
      by (unfold CLINT_END_HART_IPI, MAX_HARTS, CLINT_CTRL_ADDR, CLINT_MSIP_SIZE in *;
          lia).
    subst k. exact Hs.
Qed.

(** A hart other than the primary stays at or behind the wait label, and
    the only thing it does to memory is to store a zero word. *)
Lemma secondary_step (h : hart) (m : memory) :
  (L_wait <= pc h)%nat ->
  (L_wait <= pc (fst (step h m)))%nat /\
  (snd (step h m) = m \/ exists a, snd (step h m) = store_le m a 4 0).
Proof.
  destruct h as [n r1 r2 id t]. unfold L_wait. cbn [pc]. intros Hn.
  split_pc 21%nat; try lia;
    cbv beta iota zeta delta
      [step pc reg1 reg2 mhartid htrace nth_error smp_resume exec next goto
       wr_reg rd_reg log fst snd L_wait L_sweep L_broadcast];
    repeat match goal with
           | |- context [if ?c then _ else _] => destruct c eqn:T
           end;
    (split; [lia|]); try (left; reflexivity).
  right. eexists. reflexivity.
Qed.

Lemma Forall_set_nth {A} (P : A -> Prop) (x : A) : forall (l : list A) (i : nat),
  Forall P l -> P x -> Forall P (set_nth i x l).
Proof.
  induction l as [|y l IH]; intros i Hl Hx; [destruct i; constructor|].
  inversion Hl; subst. destruct i as [|j]; cbn [set_nth].
  - constructor; assumption.
  - constructor; [assumption|]. apply IH; assumption.
Qed.

Lemma sys_step_inv (i : nat) (s : system) :
  system_inv s -> system_inv (sys_step i s).
Proof.
  destruct s as [hs m]. unfold system_inv, sys_step. cbn [harts smem].
  destruct hs as [|p others]; [intros []|]. intros [Hp Ho].
  destruct i as [|j]; cbn [nth_error].
  - pose proof (primary_step_inv p m Hp) as H.
    destruct (step p m) as [p' m']. cbn [set_nth harts smem fst snd] in *.
    split; [exact H|exact Ho].
  - destruct (nth_error others j) as [h|] eqn:N; cbn [harts smem];
      [|split; assumption].
    assert (Hh : (L_wait <= pc h)%nat).
    { apply nth_error_In in N. rewrite Forall_forall in Ho. apply Ho. exact N. }
    destruct (secondary_step h m Hh) as [Hpc Hm].
    destruct (step h m) as [h' m']. cbn [set_nth harts smem fst snd] in *.
    split.
    + destruct Hm as [->|[a ->]]; [exact Hp|].
      apply primary_inv_zero_store. exact Hp.
    + apply Forall_set_nth; assumption.
Qed.

Lemma run_inv (sched : list nat) : forall (s : system),
  system_inv s -> system_inv (run sched s).
Proof.
  induction sched as [|i rest IH]; intros s H; [exact H|].
  cbn [run]. apply IH. apply sys_step_inv. exact H.
Qed.

Lemma booted_inv (s : system) : booted s = true -> system_inv s.
Proof.
  unfold booted, system_inv. destruct (harts s) as [|p others]; [discriminate|].
  intros H. apply andb_prop in H. destruct H as [H0 Ho].
  apply Nat.eqb_eq in H0. split.
  - unfold primary_inv. rewrite H0. exact I.
  - rewrite Forall_forall. intros h Hh.
    rewrite forallb_forall in Ho. apply Ho in Hh.
    apply Nat.eqb_eq in Hh. lia.
Qed.

(** C1.  Take the harts as the boot code leaves them (the primary at the
    top of [smp_resume], every other hart at its wait label) and any
    interleaving of their instructions.  If the primary has left the
    macro, then for every hart id below the hart count the primary's log
    holds a load of that hart's pending word that returned zero, that
    word reads zero in the memory of that moment, and [is_pending] of it
    is false. *)
Theorem sweep_is_a_rendezvous (sched : list nat) (s : system) :
  booted s = true ->
  option_map pc (primary (run sched s)) = Some L_end ->
  forall h, 0 <= h < MAX_HARTS ->
    (exists p, primary (run sched s) = Some p /\
               In (EvLoad 4 (CLINT_SOFT CLINT_CTRL_ADDR h) 0) (htrace p)) /\
    msip_word (smem (run sched s)) h = 0 /\
    (forall st, mem st = smem (run sched s) ->
                clint_base st = CLINT_CTRL_ADDR ->
                is_pending h st = Some false).
Proof.
  intros B E h Hh.
  pose proof (run_inv sched s (booted_inv s B)) as I.
  unfold system_inv in I. unfold primary in *.
  destruct (harts (run sched s)) as [|p others]; [contradiction|].
  cbn [nth_error option_map] in *. destruct I as [I _].
  injection E as E. unfold primary_inv in I. rewrite E in I.
  cbn [L_end Nat.ltb Nat.leb] in I. destruct I as [S P].
  split; [|split].
  - exists p. split; [reflexivity|].
    rewrite CLINT_SOFT_boot by exact Hh. apply P. exact Hh.
  - apply S. exact Hh.
  - intros st Hm Hb. rewrite is_pending_word, Hm, Hb.
    rewrite CLINT_SOFT_boot by exact Hh.
    change (load_le (smem (run sched s))
                    (CLINT_CTRL_ADDR + h * CLINT_MSIP_SIZE) 4)
      with (msip_word (smem (run sched s)) h).
    rewrite (S h Hh). reflexivity.
Qed.

(** Instance of C1: five harts; the primary broadcasts and acknowledges,
    the others acknowledge, the primary sweeps and leaves the macro. *)
Lemma sweep_is_a_rendezvous_witness :
  booted boot_system = true /\
  option_map pc (primary (run barrier_schedule boot_system)) = Some L_end /\
  msip_word (smem (run barrier_schedule boot_system)) 1 = 0 /\
  msip_word (smem (run barrier_schedule boot_system)) 2 = 0 /\
  msip_word (smem (run barrier_schedule boot_system)) 3 = 0 /\
  msip_word (smem (run barrier_schedule boot_system)) 4 = 0.
Proof.
  pose proof (sweep_is_a_rendezvous barrier_schedule boot_system
                eq_refl eq_refl) as R.
  split; [reflexivity|]. split; [reflexivity|].
  split; [apply (R 1); unfold MAX_HARTS; lia|].
  split; [apply (R 2); unfold MAX_HARTS; lia|].
  split; [apply (R 3); unfold MAX_HARTS; lia|].
  apply (R 4); unfold MAX_HARTS; lia.
Defined.

(* ================================================================== *)
(** ** The timer register *)

Lemma wrap64_sext_8 (v : Z) : 0 <= v < 2 ^ 64 -> wrap64 (sext 8 v) = v.
Proof.
  intros H. unfold sext.
  change (8 * Z.of_nat 8 - 1) with 63. change (8 * Z.of_nat 8) with 64.
  destruct (Z.ltb_spec v (2 ^ 63)).
  - apply wrap64_small. exact H.
  - replace (v + 2 ^ 64 - 2 ^ 64) with v by lia.
    rewrite !wrap64_small; [reflexivity|exact H|rewrite wrap64_small; exact H].
Qed.

(** [clint_get_mtime] is one 64-bit load of the counter register followed
    by a [fence(i, r)]: it returns what the register holds and changes
    neither memory nor the controller binding. *)
Lemma clint_get_mtime_run (st : state) :
  clint_get_mtime st =
  Some (load_le (mem st) (wrap64 (clint_base st + CLINT_MTIME_OFFSET)) 8,
        mkState (mem st) (clint_base st)
                (trace st ++
                 [EvLoad 8 (wrap64 (clint_base st + CLINT_MTIME_OFFSET))
                    (load_le (mem st) (wrap64 (clint_base st + CLINT_MTIME_OFFSET)) 8);
                  EvFence FI FR])
                (env st)).
Proof.
  unfold clint_get_mtime, get_clint_base, bind at 1.
  unfold readd, __io_br, __io_ar, __raw_readd, load_insn, fence, emit,
    get_mem, bind, ret. cbn [mem clint_base trace env].
  rewrite <- app_assoc. cbn [app].
  rewrite wrap64_sext_8; [reflexivity|].
  pose proof (load_le_range 8 (mem st) (wrap64 (clint_base st + CLINT_MTIME_OFFSET))) as H.
  change (256 ^ Z.of_nat 8) with (2 ^ 64) in H. exact H.
Qed.

(* ================================================================== *)
(** ** The memory routines of string.c *)

Lemma memcpy_loop_after (n : nat) (d s : Z) (st : state) :
  memcpy_loop n d s st =
  Some (tt, after st (copy_fwd n d s (mem st)) (memcpy_events n d s (mem st))).
Proof. apply memcpy_loop_run. Qed.

Lemma memset_loop_run (n : nat) : forall (p : Z) (c : byte) (st : state),
  exists evs,
    memset_loop n p c st = Some (tt, after st (fill_fwd n p c (mem st)) evs).
Proof.
  induction n as [|k IH]; intros p c st.
  - exists []. cbn. unfold ret. rewrite <- after_self. reflexivity.
  - cbn [memset_loop fill_fwd]. rewrite bind_run, store_char_run.
    destruct (IH (wrap64 (p + 1)) c
                 (after st (mem_set (mem st) p c) [EvStore 1 p (byte_to_Z c)]))
      as (evs & E).
    rewrite E, after_after. eexists. reflexivity.
Qed.

Lemma fill_fwd_spec (n : nat) : forall (p : Z) (c : byte) (m : memory),
  0 <= p -> p + Z.of_nat n <= 2 ^ 64 ->
  (forall i, 0 <= i < Z.of_nat n -> fill_fwd n p c m (p + i) = c) /\
  (forall x, x < p \/ p + Z.of_nat n <= x -> fill_fwd n p c m x = m x).
Proof.
  induction n as [|k IH]; intros p c m Hp Hn.
  - split; [intros i Hi; cbn in Hi; lia|reflexivity].
  - rewrite Nat2Z.inj_succ in *. cbn [fill_fwd]. destruct k as [|k'].
    + cbn [fill_fwd]. split.
      * intros i Hi. replace (p + i) with p by lia. apply mem_set_same.
      * intros x Hx. apply mem_set_other. lia.
    + rewrite (wrap64_small (p + 1)) by (rewrite Nat2Z.inj_succ in *; lia).
      destruct (IH (p + 1) c (mem_set m p c) ltac:(lia) ltac:(lia)) as [I1 I2].
      split.
      * intros i Hi. destruct (Z.eq_dec i 0) as [->|Hi0].
        -- rewrite Z.add_0_r, I2 by lia. apply mem_set_same.
        -- replace (p + i) with (p + 1 + (i - 1)) by lia. apply I1. lia.
      * intros x Hx. rewrite I2 by lia. apply mem_set_other. lia.
Qed.

(** X1.  [memset(s, c, n)] on a buffer inside the address space returns
    [s], leaves [c] in each of the [n] bytes from [s] on and changes no
    other byte. *)
Theorem memset_fills_exactly (s : Z) (c : byte) (n : Z) (st : state) :
  0 <= n < 2 ^ 64 -> 0 <= s -> s + n <= 2 ^ 64 ->
  exists st',
    memset s c n st = Some (s, st') /\
    (forall i, 0 <= i < n -> mem st' (s + i) = c) /\
    (forall x, x < s \/ s + n <= x -> mem st' x = mem st x).
Proof.
  intros Hn Hs Hsn. unfold memset. rewrite bind_run.
  rewrite (wrap64_small n) by exact Hn.
  destruct (memset_loop_run (Z.to_nat n) s c st) as (evs & E). rewrite E.
  eexists. split; [reflexivity|]. cbn [after mem].
  destruct (fill_fwd_spec (Z.to_nat n) s c (mem st) Hs) as [F1 F2];
    [rewrite Z2Nat.id; lia|].
  rewrite Z2Nat.id in F1, F2 by lia. split; assumption.
Qed.

Lemma memset_fills_exactly_witness :
  exists st',
    memset msg_addr "A"%byte 3 (msg_state hello) = Some (msg_addr, st') /\
    (forall i, 0 <= i < 3 -> mem st' (msg_addr + i) = "A"%byte) /\
    (forall x, x < msg_addr \/ msg_addr + 3 <= x ->
               mem st' x = mem (msg_state hello) x).
Proof.
  apply (memset_fills_exactly msg_addr "A"%byte 3 (msg_state hello));
    unfold msg_addr; lia.
Defined.

(** Forward copy is also right when the destination starts at or below
    the source. *)
Lemma copy_fwd_down (n : nat) : forall (d s : Z) (m : memory) (i : Z),
  0 <= d -> d <= s -> s + Z.of_nat n <= 2 ^ 64 ->
  0 <= i < Z.of_nat n ->
  copy_fwd n d s m (d + i) = m (s + i).
Proof.
  induction n as [|k IH]; intros d s m i Hd Hds Hsn Hi; [cbn in Hi; lia|].
  rewrite Nat2Z.inj_succ in *. cbn [copy_fwd]. destruct k as [|k'].
  - cbn [copy_fwd]. assert (i = 0) by lia. subst i.
    rewrite !Z.add_0_r. apply mem_set_same.
  - rewrite Nat2Z.inj_succ in *.
    rewrite (wrap64_small (d + 1)), (wrap64_small (s + 1)) by lia.
    destruct (Z.eq_dec i 0) as [->|Hi0].
    + rewrite !Z.add_0_r.
      rewrite copy_fwd_other by (rewrite ?Nat2Z.inj_succ; lia).
      apply mem_set_same.
    + replace (d + i) with (d + 1 + (i - 1)) by lia.
      rewrite IH by (rewrite ?Nat2Z.inj_succ; lia).
      rewrite mem_set_other by lia. f_equal. lia.
Qed.

Lemma copy_bwd_spec (n : nat) : forall (d s : Z) (m : memory),
  0 <= s -> s <= d -> d + Z.of_nat n < 2 ^ 64 ->
  (forall i, 0 <= i < Z.of_nat n ->
             copy_bwd n (d + Z.of_nat n) (s + Z.of_nat n) m (d + i) = m (s + i)) /\
  (forall x, x < d \/ d + Z.of_nat n <= x ->
             copy_bwd n (d + Z.of_nat n) (s + Z.of_nat n) m x = m x).
Proof.
  induction n as [|k IH]; intros d s m Hs Hsd Hdn.
  - split; [intros i Hi; cbn in Hi; lia|reflexivity].
  - rewrite Nat2Z.inj_succ in *. cbn [copy_bwd].
    replace (d + Z.succ (Z.of_nat k) - 1) with (d + Z.of_nat k) by lia.
    replace (s + Z.succ (Z.of_nat k) - 1) with (s + Z.of_nat k) by lia.
    rewrite (wrap64_small (d + Z.of_nat k)), (wrap64_small (s + Z.of_nat k)) by lia.
    destruct (IH d s (mem_set m (d + Z.of_nat k) (m (s + Z.of_nat k)))
                 Hs Hsd ltac:(lia)) as [I1 I2].
    split.
    + intros i Hi. destruct (Z.eq_dec i (Z.of_nat k)) as [->|Hik].
      * rewrite I2 by lia. apply mem_set_same.
      * rewrite I1 by lia. apply mem_set_other. lia.
    + intros x Hx. rewrite I2 by lia. apply mem_set_other. lia.
Qed.

Lemma memmove_back_loop_run (n : nat) : forall (d s : Z) (st : state),
  exists evs,
    memmove_back_loop n d s st = Some (tt, after st (copy_bwd n d s (mem st)) evs).
Proof.
  induction n as [|k IH]; intros d s st.
  - exists []. cbn. unfold ret. rewrite <- after_self. reflexivity.
  - cbn [memmove_back_loop copy_bwd].
    rewrite bind_run, load_char_after, bind_run, store_char_run, after_after.
    cbn [after mem].
    match goal with
    | |- context [memmove_back_loop k ?d' ?s' ?st'] =>
        destruct (IH d' s' st') as (evs & E); rewrite E
    end.
    cbn [mem]. change (mkState ?m (clint_base st) (trace st ++ ?e) (env st))
      with (after st m e).
    rewrite after_after. eexists. reflexivity.
Qed.

(** X2.  [memmove(dst, src, n)] on buffers inside the address space,
    overlapping in any way or not at all, returns [dst], leaves in the
    destination the [n] bytes the source held before the call, and
    changes no byte outside the destination. *)
Theorem memmove_handles_overlap (dst src n : Z) (st : state) :
  0 <= n -> buffer_ok dst n -> buffer_ok src n ->
  exists st',
    memmove dst src n st = Some (dst, st') /\
    (forall i, 0 <= i < n -> mem st' (dst + i) = mem st (src + i)) /\
    (forall x, x < dst \/ dst + n <= x -> mem st' x = mem st x).
Proof.
  intros Hn [Hd Hdn] [Hs Hsn].
  unfold memmove. rewrite bind_run.
  rewrite (wrap64_small n), (wrap64_small (src + n)), (wrap64_small (dst + n)) by lia.
  destruct ((src <? dst) && (dst <? src + n)) eqn:B.
  - apply andb_prop in B. destruct B as [B1 B2].
    apply Z.ltb_lt in B1, B2.
    destruct (memmove_back_loop_run (Z.to_nat n) (dst + n) (src + n) st)
      as (evs & E). rewrite E.
    eexists. split; [reflexivity|]. cbn [after mem].
    destruct (copy_bwd_spec (Z.to_nat n) dst src (mem st)) as [C1 C2];
      try rewrite Z2Nat.id; try lia.
    rewrite Z2Nat.id in C1, C2 by lia. split; assumption.
  - rewrite memcpy_loop_after.
    eexists. split; [reflexivity|]. cbn [after mem]. split.
    + intros i Hi.
      apply andb_false_iff in B. destruct B as [B|B].
      * apply Z.ltb_ge in B.
        apply copy_fwd_down; rewrite ?Z2Nat.id; lia.
      * apply Z.ltb_ge in B. destruct (Z_le_gt_dec dst src).
        -- apply copy_fwd_down; rewrite ?Z2Nat.id; lia.
        -- apply copy_fwd_disjoint; rewrite ?Z2Nat.id; lia.
    + intros x Hx. apply copy_fwd_other; rewrite ?Z2Nat.id; lia.
Qed.

(** Instance of X2: "hello" and its terminator moved up by two bytes,
    onto itself. *)
Lemma memmove_handles_overlap_witness :
  exists st',
    memmove (msg_addr + 2) msg_addr 6 (msg_state hello)
      = Some (msg_addr + 2, st') /\
    (forall i, 0 <= i < 6 ->
               mem st' (msg_addr + 2 + i) = mem (msg_state hello) (msg_addr + i)).
Proof.
  destruct (memmove_handles_overlap (msg_addr + 2) msg_addr 6 (msg_state hello))
    as (st' & R & C & _);
    try (unfold buffer_ok, msg_addr; lia).
  exists st'. split; [exact R|exact C].
Defined.

Lemma memcmp_loop_run (n : nat) : forall (s1 s2 : Z) (st : state),
  0 <= s1 -> s1 + Z.of_nat n <= 2 ^ 64 ->
  0 <= s2 -> s2 + Z.of_nat n <= 2 ^ 64 ->
  exists evs,
    memcmp_loop n s1 s2 st =
    Some (bytes_cmp (load_bytes (mem st) s1 n) (load_bytes (mem st) s2 n),
          after st (mem st) evs).
Proof.
  induction n as [|k IH]; intros s1 s2 st H1 H1n H2 H2n.
  - exists []. cbn. unfold ret. rewrite <- after_self. reflexivity.
  - rewrite Nat2Z.inj_succ in *.
    cbn [memcmp_loop load_bytes bytes_cmp].
    rewrite bind_run, load_char_after, bind_run, load_char_after, after_after.
    cbn [after mem].
    destruct (byte_eqb (mem st s1) (mem st s2)).
    + destruct k as [|k'].
      * eexists. cbn. unfold ret. reflexivity.
      * rewrite Nat2Z.inj_succ in *.
        rewrite (wrap64_small (s1 + 1)), (wrap64_small (s2 + 1)) by lia.
        match goal with
        | |- context [memcmp_loop _ _ _ ?st'] =>
            destruct (IH (s1 + 1) (s2 + 1) st') as (evs & E);
              rewrite ?Nat2Z.inj_succ; try lia
        end.
        rewrite E. cbn [mem].
        change (mkState (mem st) (clint_base st) (trace st ++ ?e) (env st))
          with (after st (mem st) e).
        rewrite after_after. eexists. reflexivity.
    + rewrite bind_run, load_char_run. cbn [mem clint_base trace env].
      rewrite bind_run, load_char_run. unfold ret, after.
      cbn [mem clint_base trace env].
      rewrite <- !app_assoc. eexists. reflexivity.
Qed.

Lemma bytes_cmp_zero (l1 : list byte) : forall (l2 : list byte),
  length l1 = length l2 -> (bytes_cmp l1 l2 = 0 <-> l1 = l2).
Proof.
  induction l1 as [|a r1 IH]; intros [|b r2] L; try discriminate L.
  - split; reflexivity.
  - cbn [bytes_cmp]. injection L as L. destruct (byte_eqb a b) eqn:E.
    + apply byte_eqb_eq in E. subst b. rewrite (IH r2 L).
      split; [intros ->; reflexivity|intros H; injection H; auto].
    + apply byte_eqb_neq in E. split.
      * intros H. exfalso. apply E.
        rewrite <- (byte_of_to_Z a), <- (byte_of_to_Z b). f_equal. lia.
      * intros H. injection H as H _. contradiction.
Qed.

Lemma bytes_cmp_range (l1 : list byte) : forall (l2 : list byte),
  -255 <= bytes_cmp l1 l2 <= 255.
Proof.
  induction l1 as [|a r1 IH]; intros [|b r2]; cbn [bytes_cmp]; try lia.
  destruct (byte_eqb a b); [apply IH|].
  pose proof (byte_to_Z_range a). pose proof (byte_to_Z_range b). lia.
Qed.

Lemma load_bytes_length (n : nat) : forall (m : memory) (a : Z),
  length (load_bytes m a n) = n.
Proof.
  induction n as [|k IH]; intros m a; [reflexivity|].
  cbn [load_bytes length]. rewrite IH. reflexivity.
Qed.

Lemma bytes_cmp_first_difference (n : nat) : forall (m : memory) (a b : Z) (i : Z),
  0 <= i < Z.of_nat n ->
  (forall j, 0 <= j < i -> m (a + j) = m (b + j)) ->
  m (a + i) <> m (b + i) ->
  bytes_cmp (load_bytes m a n) (load_bytes m b n)
  = byte_to_Z (m (a + i)) - byte_to_Z (m (b + i)).
Proof.
  induction n as [|k IH]; intros m a b i Hi Heq Hne; [cbn in Hi; lia|].
  rewrite Nat2Z.inj_succ in Hi. cbn [load_bytes bytes_cmp].
  destruct (Z.eq_dec i 0) as [->|Hi0].
  - rewrite !Z.add_0_r in *. apply byte_eqb_neq in Hne. rewrite Hne. reflexivity.
  - pose proof (Heq 0 ltac:(lia)) as H0. rewrite !Z.add_0_r in H0.
    apply byte_eqb_eq in H0. rewrite H0.
    rewrite (IH m (a + 1) (b + 1) (i - 1)).
    + replace (a + 1 + (i - 1)) with (a + i) by lia.
      replace (b + 1 + (i - 1)) with (b + i) by lia. reflexivity.
    + lia.
    + intros j Hj. replace (a + 1 + j) with (a + (j + 1)) by lia.
      replace (b + 1 + j) with (b + (j + 1)) by lia. apply Heq. lia.
    + replace (a + 1 + (i - 1)) with (a + i) by lia.
      replace (b + 1 + (i - 1)) with (b + i) by lia. exact Hne.
Qed.

(** X3.  [memcmp(v1, v2, n)] on buffers inside the address space changes
    no memory and returns a value between -255 and 255 that is 0 exactly
    when the two buffers hold the same [n] bytes; when they differ it is
    the difference, as unsigned characters, of the first pair of bytes
    that differ. *)
Theorem memcmp_compares_bytes (v1 v2 n : Z) (st : state) :
  0 <= n < 2 ^ 64 ->
  0 <= v1 -> v1 + n <= 2 ^ 64 -> 0 <= v2 -> v2 + n <= 2 ^ 64 ->
  exists r st',
    memcmp v1 v2 n st = Some (r, st') /\
    mem st' = mem st /\
    -255 <= r <= 255 /\
    (r = 0 <-> load_bytes (mem st) v1 (Z.to_nat n)
               = load_bytes (mem st) v2 (Z.to_nat n)) /\
    (forall i, 0 <= i < n ->
       (forall j, 0 <= j < i -> mem st (v1 + j) = mem st (v2 + j)) ->
       mem st (v1 + i) <> mem st (v2 + i) ->
       r = byte_to_Z (mem st (v1 + i)) - byte_to_Z (mem st (v2 + i))).
Proof.
  intros Hn H1 H1n H2 H2n. unfold memcmp. rewrite (wrap64_small n) by exact Hn.
  destruct (memcmp_loop_run (Z.to_nat n) v1 v2 st) as (evs & E);
    rewrite ?Z2Nat.id; try lia.
  rewrite E. eexists; eexists. split; [reflexivity|].
  split; [reflexivity|]. split; [apply bytes_cmp_range|]. split.
  - apply bytes_cmp_zero. rewrite !load_bytes_length. reflexivity.
  - intros i Hi Heq Hne. apply bytes_cmp_first_difference; try assumption.
    rewrite Z2Nat.id; lia.
Qed.

(** Instance of X3: "hello" compared with the mailbox it was copied to. *)
Lemma memcmp_compares_bytes_witness :
  exists r st',
    memcmp msg_addr SMP_ADDR 5 (msg_state hello) = Some (r, st') /\
    -255 <= r <= 255.
Proof.
  destruct (memcmp_compares_bytes msg_addr SMP_ADDR 5 (msg_state hello))
    as (r & st' & R & _ & B & _);
    try (unfold msg_addr, SMP_ADDR; lia).
  exists r, st'. split; [exact R|exact B].
Defined.

Lemma strlen_loop_inv (fuel : nat) : forall (s cnt k : Z) (st st' : state),
  strlen_loop fuel s cnt st = Some (k, st') ->
  0 <= s -> s + Z.of_nat fuel <= 2 ^ 64 ->
  0 <= cnt -> cnt + Z.of_nat fuel <= 2 ^ 64 ->
  mem st' = mem st /\
  cnt <= k < cnt + Z.of_nat fuel /\
  mem st (s + (k - cnt)) = x00 /\
  (forall i, 0 <= i < k - cnt -> mem st (s + i) <> x00).
Proof.
  induction fuel as [|f IH]; intros s cnt k st st' H Hs Hsf Hc Hcf;
    [discriminate|].
  rewrite Nat2Z.inj_succ in *.
  cbn [strlen_loop] in H. rewrite bind_run, load_char_run in H.
  destruct (byte_eqb (mem st s) x00) eqn:E.
  - injection H as <- <-. cbn [mem]. apply byte_eqb_eq in E.
    split; [reflexivity|]. split; [lia|].
    rewrite Z.sub_diag, Z.add_0_r. split; [exact E|]. intros i Hi. lia.
  - apply byte_eqb_neq in E. destruct f as [|f']; [discriminate H|].
    rewrite Nat2Z.inj_succ in *.
    rewrite (wrap64_small (s + 1)), (wrap64_small (cnt + 1)) in H by lia.
    apply IH in H; rewrite ?Nat2Z.inj_succ; try lia.
    cbn [mem] in H. destruct H as (Hm & Hk & Hz & Hnz).
    rewrite ?Nat2Z.inj_succ in Hk.
    split; [exact Hm|]. split; [lia|]. split.
    + replace (s + (k - cnt)) with (s + 1 + (k - (cnt + 1))) by lia. exact Hz.
    + intros i Hi. destruct (Z.eq_dec i 0) as [->|Hi0].
      * rewrite Z.add_0_r. exact E.
      * replace (s + i) with (s + 1 + (i - 1)) by lia. apply Hnz. lia.
Qed.

(** X4.  Whenever [strlen(s)] returns, with the scan staying inside the
    address space, it left memory as it was and returned the index of the
    first NUL at or after [s]: that byte is NUL and no byte before it
    is. *)
Theorem strlen_finds_first_nul (fuel : nat) (s k : Z) (st st' : state) :
  strlen fuel s st = Some (k, st') ->
  0 <= s -> s + Z.of_nat fuel <= 2 ^ 64 ->
  mem st' = mem st /\
  0 <= k < Z.of_nat fuel /\
  mem st (s + k) = x00 /\
  (forall i, 0 <= i < k -> mem st (s + i) <> x00).
Proof.
  intros H Hs Hsf. unfold strlen in H.
  apply strlen_loop_inv in H; try lia.
  rewrite Z.sub_0_r, Z.add_0_l in H. exact H.
Qed.

(** Instance of X4: the string "hello". *)
Lemma strlen_finds_first_nul_witness :
  exists k st',
    strlen 10 msg_addr (msg_state hello) = Some (k, st') /\
    0 <= k < 10 /\ mem (msg_state hello) (msg_addr + k) = x00.
Proof.
  destruct hello_buffers as (C & B1 & _).
  assert (H1 : 0 <= msg_addr) by (unfold msg_addr; lia).
  assert (H2 : msg_addr + Z.of_nat 10 <= 2 ^ 64)
    by (change (Z.of_nat 10) with 10; unfold msg_addr; lia).
  pose proof (strlen_loop_run hello 10 msg_addr 0 (msg_state hello) C
                ltac:(cbn; lia) H1
                ltac:(change (Z.of_nat (length hello)) with 5; unfold msg_addr; lia)
                ltac:(lia)
                ltac:(change (Z.of_nat (length hello)) with 5; lia)) as E.
  fold (strlen 10 msg_addr (msg_state hello)) in E.
  destruct (strlen_finds_first_nul 10 msg_addr _ (msg_state hello) _ E H1 H2)
    as (_ & K & Z & _).
  change (Z.of_nat 10) with 10 in K.
  eexists; eexists. split; [exact E|]. split; assumption.
Defined.

(** Forward copy onto a destination [k] bytes above its source: the
    memory after [t] bytes have been copied, then [n] more. *)
Lemma copy_fwd_up (n : nat) :
  forall (s0 k : Z) (m0 m : memory) (t : Z),
    0 < k -> 0 <= s0 -> 0 <= t -> s0 + k + t + Z.of_nat n <= 2 ^ 64 ->
    (forall j, 0 <= j < k + t -> m (s0 + j) = m0 (s0 + j mod k)) ->
    (forall j, k + t <= j -> m (s0 + j) = m0 (s0 + j)) ->
    forall j, 0 <= j < k + t + Z.of_nat n ->
      copy_fwd n (s0 + k + t) (s0 + t) m (s0 + j) = m0 (s0 + j mod k).
Proof.
  induction n as [|n IH]; intros s0 k m0 m t Hk Hs Ht Hb Hlo Hhi j Hj.
  - cbn [copy_fwd]. apply Hlo. cbn in Hj. lia.
  - rewrite Nat2Z.inj_succ in *. cbn [copy_fwd]. destruct n as [|n'].
    + cbn [copy_fwd]. destruct (Z.eq_dec j (k + t)) as [->|Hjn].
      * replace (s0 + (k + t)) with (s0 + k + t) by lia.
        rewrite mem_set_same, (Hlo t) by lia.
        replace (k + t) with (t + 1 * k) by lia.
        rewrite Z.mod_add by lia. reflexivity.
      * rewrite mem_set_other by lia. apply Hlo. cbn in Hj. lia.
    + rewrite Nat2Z.inj_succ in *.
      rewrite (wrap64_small (s0 + k + t + 1)), (wrap64_small (s0 + t + 1)) by lia.
      replace (s0 + k + t + 1) with (s0 + k + (t + 1)) by lia.
      replace (s0 + t + 1) with (s0 + (t + 1)) by lia.
      apply IH; try lia; rewrite ?Nat2Z.inj_succ; try lia.
      * intros i Hi. destruct (Z.eq_dec i (k + t)) as [->|Hin].
        -- replace (s0 + (k + t)) with (s0 + k + t) by lia.
           rewrite mem_set_same, (Hlo t) by lia.
           replace (k + t) with (t + 1 * k) by lia.
           rewrite Z.mod_add by lia. reflexivity.
        -- rewrite mem_set_other by lia. apply Hlo. lia.
      * intros i Hi. rewrite mem_set_other by lia. apply Hhi. lia.
Qed.

(** X5.  [memcpy] is not [memmove]: copying [n] bytes forward onto a
    destination [k > 0] bytes above the source repeats the first [k]
    source bytes; afterwards byte [j] of the whole stretch holds what
    byte [j mod k] held before. *)
Theorem memcpy_upward_overlap_repeats (src k n : Z) (st : state) :
  0 < k -> 0 <= n -> 0 <= src -> src + k + n < 2 ^ 64 ->
  exists st',
    memcpy (src + k) src n st = Some (src + k, st') /\
    (forall j, 0 <= j < k + n -> mem st' (src + j) = mem st (src + j mod k)).
Proof.
  intros Hk Hn Hs Hb. rewrite memcpy_run.
  rewrite (wrap64_small n) by lia.
  eexists. split; [reflexivity|]. cbn [mem]. intros j Hj.
  pose proof (copy_fwd_up (Z.to_nat n) src k (mem st) (mem st) 0 Hk Hs
                ltac:(lia)) as C.
  rewrite !Z.add_0_r in C. apply C.
  - rewrite Z2Nat.id; lia.
  - intros i Hi. rewrite Z.mod_small by lia. reflexivity.
  - reflexivity.
  - rewrite Z2Nat.id; lia.
Qed.

(** Instance of X5: "hello" copied one byte up becomes "hhhhhh". *)
Lemma memcpy_upward_overlap_repeats_witness :
  exists st',
    memcpy (msg_addr + 1) msg_addr 5 (msg_state hello)
      = Some (msg_addr + 1, st') /\
    (forall j, 0 <= j < 1 + 5 ->
               mem st' (msg_addr + j) = mem (msg_state hello) (msg_addr + j mod 1)).
Proof.
  apply (memcpy_upward_overlap_repeats msg_addr 1 5 (msg_state hello));
    unfold msg_addr; lia.
Defined.

(* ================================================================== *)
(** ** The serial driver: hexadecimal output, clock divisor, input *)

Lemma hex_value_digit (c : Z) : 0 <= c < 16 -> hex_value (hex_digit c) = Some c.
Proof.
  intros H.
  assert (E : c = 0 \/ c = 1 \/ c = 2 \/ c = 3 \/ c = 4 \/ c = 5 \/ c = 6 \/
              c = 7 \/ c = 8 \/ c = 9 \/ c = 10 \/ c = 11 \/ c = 12 \/
              c = 13 \/ c = 14 \/ c = 15) by lia.
  repeat (destruct E as [->|E]; [reflexivity|]). subst c. reflexivity.
Qed.

Lemma hex_digits_length (k : nat) (v : Z) : length (hex_digits k v) = k.
Proof. induction k as [|k IH]; [reflexivity|]. cbn. rewrite IH. reflexivity. Qed.

Lemma land_15 (x : Z) : Z.land x 0xf = x mod 16.
Proof. change 0xf with (Z.ones 4). rewrite Z.land_ones by lia. reflexivity. Qed.

Lemma parse_hex_digits (k : nat) : forall (v acc : Z),
  0 <= v ->
  parse_hex (hex_digits k v) acc = Some (acc * 16 ^ Z.of_nat k + v mod 16 ^ Z.of_nat k).
Proof.
  induction k as [|k IH]; intros v acc Hv.
  - cbn. rewrite Z.mod_1_r. f_equal. lia.
  - cbn [hex_digits parse_hex]. rewrite land_15.
    rewrite hex_value_digit by (apply Z.mod_pos_bound; lia).
    rewrite IH by exact Hv. f_equal.
    rewrite Z.shiftr_div_pow2 by lia.
    replace (2 ^ (Z.of_nat k * 4)) with (16 ^ Z.of_nat k)
      by (rewrite Z.mul_comm, Z.pow_mul_r by lia; reflexivity).
    rewrite Nat2Z.inj_succ, Z.pow_succ_r by lia.
    rewrite (Z.mul_comm 16 (16 ^ Z.of_nat k)).
    rewrite (Z.rem_mul_r v (16 ^ Z.of_nat k) 16)
      by (try apply Z.pow_nonzero; lia).
    ring.
Qed.

Lemma uart0_ready_boot : tx_ready uart0 (mem boot_state).
Proof. vm_compute. reflexivity. Qed.

(** X6.  With room in the transmit register (its full bit clear; the
    register is memory here: a load returns the word last stored, so the
    bit is clear again after each character), [uart_put_hex(hex)] returns,
    changes no memory but that register, leaves room in it, and stores to
    it, one character a store, "0x" followed by exactly eight characters
    out of [0-9a-f] which, read as a hexadecimal number, give back the low
    32 bits of [hex]. *)
Theorem uart_put_hex_reads_back (fuel : nat) (u : uart) (hex : Z) (st : state) :
  (0 < fuel)%nat ->
  tx_ready u (mem st) ->
  exists st' ds,
    uart_put_hex fuel u hex st = Some (tt, st') /\
    (forall x, x < uart_tx_addr u \/ uart_tx_addr u + 4 <= x ->
               mem st' x = mem st x) /\
    tx_ready u (mem st') /\
    tx_chars u (trace st') =
      tx_chars u (trace st) ++ list_byte_of_string "0x" ++ ds /\
    length ds = 8%nat /\
    parse_hex ds 0 = Some (hex mod 2 ^ 32).
Proof.
  intros F R. destruct fuel as [|f]; [lia|].
  destruct (sends_uart_put_hex f u hex st R) as (m' & evs & E & R' & Fr & _ & T).
  exists (after st m' evs), (hex_digits 8 (wrap32 hex)).
  split; [exact E|]. split; [exact Fr|]. split; [exact R'|].
  split; [|split].
  - cbn [after trace]. rewrite tx_chars_app, T. reflexivity.
  - apply hex_digits_length.
  - rewrite parse_hex_digits by (apply Z.mod_pos_bound; reflexivity).
    unfold wrap32. change (16 ^ Z.of_nat 8) with (2 ^ 32).
    rewrite Z.mod_mod by (apply Z.pow_nonzero; lia). reflexivity.
Qed.

(** Instance of X6: the number 0x80200000 on the board's serial device. *)
Lemma uart_put_hex_reads_back_witness :
  exists st' ds,
    uart_put_hex 1 uart0 0x80200000 boot_state = Some (tt, st') /\
    (forall x, x < uart_tx_addr uart0 \/ uart_tx_addr uart0 + 4 <= x ->
               mem st' x = mem boot_state x) /\
    tx_ready uart0 (mem st') /\
    tx_chars uart0 (trace st') =
      tx_chars uart0 (trace boot_state) ++ list_byte_of_string "0x" ++ ds /\
    length ds = 8%nat /\
    parse_hex ds 0 = Some (0x80200000 mod 2 ^ 32).
Proof.
  apply (uart_put_hex_reads_back 1 uart0 0x80200000 boot_state
           ltac:(lia) uart0_ready_boot).
Defined.

(** X27.  [uart_putc] tests the full bit of the transmit register
    before it stores.  With the bit clear it returns after one fenced load
    of the register and one fenced store of the character to it, and
    changes no other byte.  With the bit set, and the register being
    memory that nothing else writes, it does not return, however many
    times it tests. *)
Theorem uart_putc_waits_for_room
        (fuel : nat) (u : uart) (ch : byte) (st : state) :
  (tx_ready u (mem st) ->
   uart_putc (S fuel) u ch st =
   Some (tt, after st (store_le (mem st) (uart_tx_addr u) 4 (byte_to_Z ch))
                   [EvLoad 4 (uart_tx_addr u) (load_le (mem st) (uart_tx_addr u) 4);
                    EvFence FI FR; EvFence FW FO;
                    EvStore 4 (uart_tx_addr u) (byte_to_Z ch)])) /\
  (~ tx_ready u (mem st) -> uart_putc fuel u ch st = None).
Proof.
  split.
  - apply uart_putc_run.
  - intros R. unfold uart_putc. rewrite bind_run.
    rewrite (uart_putc_wait_full fuel u st R). reflexivity.
Qed.

(** Instance of X27: the letter "a" on the board's serial device, with
    room and without. *)
Lemma uart_putc_waits_for_room_witness :
  uart_putc 1 uart0 "a"%byte boot_state =
  Some (tt, after boot_state
                  (store_le (mem boot_state) (uart_tx_addr uart0) 4 97)
                  [EvLoad 4 (uart_tx_addr uart0) 0;
                   EvFence FI FR; EvFence FW FO;
                   EvStore 4 (uart_tx_addr uart0) 97]) /\
  uart_putc 7 uart0 "a"%byte (mkState (fun _ => xff) CLINT_CTRL_ADDR [] [])
  = None.
Proof.
  split.
  - apply (proj1 (uart_putc_waits_for_room 0 uart0 "a"%byte boot_state)).
    exact uart0_ready_boot.
  - apply (proj2 (uart_putc_waits_for_room 7 uart0 "a"%byte
                    (mkState (fun _ => xff) CLINT_CTRL_ADDR [] []))).
    vm_compute. discriminate.
Defined.

(** X7.  For a clock and a target rate that fit 32 bits, the target not
    zero, [uart_min_clk_divisor] returns the least [d] with
    [in_freq <= (d + 1) * max_target_hz]: dividing the clock by [d + 1]
    does not exceed the target, and no smaller divisor does that.  For a
    clock of zero it returns zero. *)
Theorem uart_min_clk_divisor_is_least (in_freq max_target_hz : Z) :
  0 <= in_freq < 2 ^ 32 ->
  0 < max_target_hz < 2 ^ 32 ->
  let d := uart_min_clk_divisor in_freq max_target_hz in
  0 <= d < 2 ^ 32 /\
  in_freq <= (d + 1) * max_target_hz /\
  (forall d', 0 <= d' < d -> (d' + 1) * max_target_hz < in_freq) /\
  (in_freq = 0 -> d = 0).
Proof.
  intros Hf Hm. unfold uart_min_clk_divisor.
  change (2 ^ 32) with 4294967296 in *.
  rewrite (wrap64_small (in_freq + max_target_hz))
    by (change (2 ^ 64) with 18446744073709551616; lia).
  rewrite (wrap64_small (in_freq + max_target_hz - 1))
    by (change (2 ^ 64) with 18446744073709551616; lia).
  set (q := (in_freq + max_target_hz - 1) / max_target_hz).
  assert (Hq : max_target_hz * q <= in_freq + max_target_hz - 1
               < max_target_hz * (q + 1)).
  { unfold q. pose proof (Z.mul_div_le (in_freq + max_target_hz - 1)
                            max_target_hz ltac:(lia)).
    pose proof (Z.mul_succ_div_gt (in_freq + max_target_hz - 1)
                  max_target_hz ltac:(lia)). lia. }
  assert (Hq0 : 0 <= q) by (unfold q; apply Z.div_pos; lia).
  destruct (Z.eqb_spec q 0) as [E|E]; cbv zeta.
  - rewrite E in Hq. split; [lia|]. split; [lia|]. split; [intros; lia|reflexivity].
  - assert (Hd : 0 <= q - 1 < 4294967296) by nia.
    unfold wrap32. change (2 ^ 32) with 4294967296.
    rewrite Z.mod_small by exact Hd.
    split; [exact Hd|]. split; [nia|]. split; [intros d' Hd'; nia|].
    intros ->. exfalso. nia.
Qed.

(** Instance of X7: a 16 MHz clock and 115200 baud. *)
Lemma uart_min_clk_divisor_is_least_witness :
  16000000 <= (uart_min_clk_divisor 16000000 115200 + 1) * 115200.
Proof.
  apply (uart_min_clk_divisor_is_least 16000000 115200); lia.
Defined.

Lemma land_mask_range (x : Z) : 0 <= Z.land x UART_RXDATA_MASK <= 255.
Proof.
  unfold UART_RXDATA_MASK.
  replace (Z.land x 0x000000ff) with (Z.land x (Z.ones 8)) by reflexivity.
  rewrite Z.land_ones by lia.
  pose proof (Z.mod_pos_bound x (2 ^ 8) ltac:(lia)).
  change (2 ^ 8) with 256 in *. lia.
Qed.

Lemma uart_getc_of_range (reg : Z) :
  uart_getc_of reg = -1 \/ 0 <= uart_getc_of reg <= 255.
Proof.
  unfold uart_getc_of. destruct (Z.land reg UART_RXDATA_EMPTY =? 0).
  - right. apply land_mask_range.
  - left. reflexivity.
Qed.

Lemma getchar_spec (rx : list Z) : forall (c : Z) (rx' : list Z),
  getchar rx = Some (c, rx') ->
  0 <= c <= 255 /\ rx_chars rx = c :: rx_chars rx' /\
  (length rx' < length rx)%nat.
Proof.
  induction rx as [|reg rest IH]; intros c rx' H; [discriminate|].
  cbn [getchar uart_getc fst] in H. unfold rx_chars. cbn [map filter length].
  destruct (Z.eqb_spec (uart_getc_of (wrap32 reg)) (-1)) as [E|E].
  - apply IH in H. destruct H as (R & C & L). cbn [negb].
    split; [exact R|]. split; [exact C|lia].
  - injection H as <- <-. cbn [negb].
    destruct (uart_getc_of_range (wrap32 reg)) as [F|F]; [contradiction|].
    split; [exact F|]. split; [reflexivity|lia].
Qed.

Lemma getchar_none (rx : list Z) : getchar rx = None -> rx_chars rx = [].
Proof.
  induction rx as [|reg rest IH]; intros H; [reflexivity|].
  cbn [getchar uart_getc fst] in H. unfold rx_chars. cbn [map filter].
  destruct (Z.eqb_spec (uart_getc_of (wrap32 reg)) (-1)) as [E|E];
    [|discriminate]. cbn [negb]. apply IH. exact H.
Qed.

(** X8.  Whenever [getchar] returns, it returns a character between 0 and
    255, never a negative value, having consumed at least one register
    read; it returns the first character the device delivers. *)
Theorem getchar_returns_a_character (rx rx' : list Z) (c : Z) :
  getchar rx = Some (c, rx') ->
  0 <= c <= 255 /\
  rx_chars rx = c :: rx_chars rx' /\
  (length rx' < length rx)%nat.
Proof. apply getchar_spec. Qed.

(** Instance of X8: two empty reads, then the character 'A'. *)
Lemma getchar_returns_a_character_witness :
  getchar [UART_RXDATA_EMPTY; UART_RXDATA_EMPTY; 65; 66] = Some (65, [66]) /\
  0 <= 65 <= 255.
Proof.
  split; [reflexivity|].
  apply (getchar_returns_a_character
           [UART_RXDATA_EMPTY; UART_RXDATA_EMPTY; 65; 66] [66] 65 eq_refl).
Defined.

(* ================================================================== *)
(** ** console.c: saving and restoring the interrupt enable bit *)

Lemma land_wrap64 (a x : Z) : 0 <= a < 2 ^ 64 -> Z.land a (wrap64 x) = Z.land a x.
Proof.
  intros H. unfold wrap64. rewrite <- Z.land_ones by lia.
  rewrite (Z.land_comm x), Z.land_assoc.
  rewrite Z.land_ones by lia. rewrite (Z.mod_small a) by exact H. reflexivity.
Qed.

Lemma land_bit (a n : Z) :
  0 <= n -> Z.land a (2 ^ n) = if Z.testbit a n then 2 ^ n else 0.
Proof.
  intros Hn. apply Z.bits_inj'. intros k Hk.
  rewrite Z.land_spec, Z.pow2_bits_eqb by exact Hn.
  destruct (Z.eqb_spec n k) as [->|E].
  - destruct (Z.testbit a k) eqn:T; cbn [andb].
    + rewrite Z.pow2_bits_true by exact Hk. reflexivity.
    + rewrite Z.bits_0. reflexivity.
  - rewrite andb_false_r. destruct (Z.testbit a n).
    + rewrite Z.pow2_bits_false by exact E. reflexivity.
    + rewrite Z.bits_0. reflexivity.
Qed.

(** X9.  [__intr_save] leaves the interrupt enable bit of [mstatus] clear
    and every other bit as it was, and [__intr_restore] with the flag it
    returned gives back the [mstatus] from before. *)
Theorem intr_restore_undoes_intr_save (mstatus : Z) :
  0 <= mstatus < 2 ^ 64 ->
  let (flag, saved) := __intr_save mstatus in
  Z.land saved MSTATUS_MIE = 0 /\
  (forall k, 0 <= k -> k <> 3 -> Z.testbit saved k = Z.testbit mstatus k) /\
  __intr_restore flag saved = mstatus.
Proof.
  intros H. unfold __intr_save, __intr_restore, MSTATUS_MIE.
  change 0x00000008 with (2 ^ 3).
  rewrite (land_bit mstatus 3) by lia.
  destruct (Z.testbit mstatus 3) eqn:T.
  - change (2 ^ 3 =? 0) with false. cbv iota.
    rewrite land_wrap64 by exact H. change (1 =? 0) with false. cbv iota.
    assert (S3 : Z.testbit (Z.land mstatus (Z.lnot (2 ^ 3))) 3 = false).
    { rewrite Z.land_spec, Z.lnot_spec, Z.pow2_bits_true by lia.
      apply andb_false_r. }
    split; [|split].
    + rewrite land_bit, S3 by lia. reflexivity.
    + intros k Hk Hk3.
      rewrite Z.land_spec, Z.lnot_spec, Z.pow2_bits_false by lia.
      apply andb_true_r.
    + apply Z.bits_inj'. intros k Hk.
      rewrite Z.lor_spec, Z.land_spec, Z.lnot_spec by lia.
      rewrite Z.pow2_bits_eqb by lia.
      destruct (Z.eqb_spec 3 k) as [<-|E]; cbn [negb].
      * rewrite T. reflexivity.
      * rewrite andb_true_r, orb_false_r. reflexivity.
  - change (0 =? 0) with true. cbv iota.
    split; [|split].
    + rewrite land_bit, T by lia. reflexivity.
    + reflexivity.
    + reflexivity.
Qed.

(** Instance of X9: an [mstatus] with interrupts enabled. *)
Lemma intr_restore_undoes_intr_save_witness :
  __intr_restore (fst (__intr_save 0x1808)) (snd (__intr_save 0x1808)) = 0x1808.
Proof.
  pose proof (intr_restore_undoes_intr_save 0x1808 ltac:(lia)) as H.
  destruct (__intr_save 0x1808) as [flag saved]. apply H.
Defined.

(* ================================================================== *)
(** ** console.c: [readline] *)

Lemma load_bytes_snoc (n : nat) : forall (m : memory) (a : Z),
  load_bytes m a (S n) = load_bytes m a n ++ [m (a + Z.of_nat n)].
Proof.
  induction n as [|k IH]; intros m a.
  - cbn. rewrite Z.add_0_r. reflexivity.
  - change (load_bytes m a (S (S k))) with (m a :: load_bytes m (a + 1) (S k)).
    rewrite IH. cbn [load_bytes app].
    replace (a + Z.of_nat (S k)) with (a + 1 + Z.of_nat k) by lia. reflexivity.
Qed.

Lemma printable_nonzero (line : list byte) :
  Forall printable line ->
  forallb (fun b => negb (byte_eqb b x00)) line = true.
Proof.
  induction 1 as [|b l Hb Hl IH]; [reflexivity|].
  cbn [forallb]. rewrite IH, andb_true_r.
  destruct (byte_eqb b x00) eqn:E; [|reflexivity].
  apply byte_eqb_eq in E. subst b. unfold printable in Hb.
  change (byte_to_Z x00) with 0 in Hb. lia.
Qed.

Lemma printable_of_char (c : Z) :
  32 <= c <= 255 -> printable (byte_of_Z c).
Proof.
  intros H. unfold printable. rewrite byte_to_of_Z, Z.mod_small; lia.
Qed.

Lemma tx_store_other (u : uart) (m : memory) (v x : Z) :
  x < uart_tx_addr u \/ uart_tx_addr u + 4 <= x ->
  store_le m (uart_tx_addr u) 4 v x = m x.
Proof. intros H. apply store_le_other. change (Z.of_nat 4) with 4. lia. Qed.

Lemma tx_chars_putc (u : uart) (v : Z) (c : byte) (rest : list event) :
  tx_chars u (EvLoad 4 (uart_tx_addr u) v :: EvFence FI FR :: EvFence FW FO ::
              EvStore 4 (uart_tx_addr u) (byte_to_Z c) :: rest)
  = c :: tx_chars u rest.
Proof. cbn [tx_chars]. rewrite Z.eqb_refl, byte_of_to_Z. reflexivity. Qed.

(** What the loop of [readline] does from a line typed so far, held in
    the buffer, with room in the serial device and its transmit register
    outside the buffer: it goes on for ever when the editor finds no end
    of line in the characters to come, and otherwise returns the buffer
    holding the edited line. *)
Lemma readline_loop_refines (f0 : nat) (u : uart) (n : nat) :
  forall (buf : Z) (rx : list Z) (line : list byte) (st : state),
    buffer_ok buf BUFSIZE ->
    tx_outside u buf BUFSIZE ->
    tx_ready u (mem st) ->
    (length rx < n)%nat ->
    load_bytes (mem st) buf (length line) = line ->
    Forall printable line ->
    Z.of_nat (length line) <= BUFSIZE - 1 ->
    match edit (rx_chars rx) line with
    | None =>
        readline_loop (S f0) n u buf rx (Z.of_nat (length line)) st = None
    | Some (line', echo, cs') =>
        exists rx' st',
          readline_loop (S f0) n u buf rx (Z.of_nat (length line)) st
            = Some ((buf, rx'), st') /\
          rx_chars rx' = cs' /\
          load_bytes (mem st') buf (S (length line')) = line' ++ [x00] /\
          Forall printable line' /\
          Z.of_nat (length line') <= BUFSIZE - 1 /\
          tx_chars u (trace st') = tx_chars u (trace st) ++ echo /\
          clint_base st' = clint_base st /\
          tx_ready u (mem st') /\
          (forall x, x < buf \/ buf + BUFSIZE <= x ->
                     x < uart_tx_addr u \/ uart_tx_addr u + 4 <= x ->
                     mem st' x = mem st x)
    end.
Proof.
  induction n as [|f IH]; intros buf rx line st Hb O Rd Hf Hl Hp Hn;
    [cbn in Hf; lia|].
  cbn [readline_loop].
  destruct (getchar rx) as [[c rx1]|] eqn:G.
  2:{ rewrite (getchar_none rx G). reflexivity. }
  apply getchar_spec in G. destruct G as (Hc & Hrx & Hlen). rewrite Hrx.
  cbn [edit].
  destruct (Z.ltb_spec c 0) as [Hneg|_]; [lia|].
  destruct Hb as [Hb0 Hb1]. unfold BUFSIZE, tx_outside in *.
  change (byte_to_Z " "%byte) with 32.
  destruct ((32 <=? c) && (Z.of_nat (length line) <? 1024 - 1)) eqn:T1.
  - (* a character to store *)
    apply andb_prop in T1. destruct T1 as [T1 T2].
    apply Z.leb_le in T1. apply Z.ltb_lt in T2.
    rewrite bind_run, (uart_putc_run f0 u _ st Rd).
    rewrite bind_run, store_char_run, after_after, mem_after.
    rewrite (wrap64_small (buf + Z.of_nat (length line))) by lia.
    match goal with
    | |- context [readline_loop _ f u buf rx1 _ ?s1] =>
        specialize (IH buf rx1 (line ++ [byte_of_Z c]) s1)
    end.
    rewrite length_app in IH. cbn [length] in IH.
    replace (Z.of_nat (length line + 1)) with (Z.of_nat (length line) + 1)
      in IH by lia.
    assert (I1 : buffer_ok buf 1024) by (split; lia).
    assert (I2 : (length rx1 < f)%nat) by lia.
    assert (I4 : Forall printable (line ++ [byte_of_Z c])).
    { apply Forall_app. split; [exact Hp|].
      constructor; [apply printable_of_char; lia|constructor]. }
    assert (I5 : Z.of_nat (length line) + 1 <= 1024 - 1) by lia.
    specialize (IH I1 O).
    rewrite mem_after in IH.
    assert (I0 : tx_ready u
                   (mem_set (store_le (mem st) (uart_tx_addr u) 4
                                      (byte_to_Z (byte_of_Z c)))
                            (buf + Z.of_nat (length line)) (byte_of_Z c))).
    { apply (tx_ready_ext u (store_le (mem st) (uart_tx_addr u) 4
                                      (byte_to_Z (byte_of_Z c))));
        [|apply tx_ready_after_putc].
      intros x Hx. apply mem_set_other. lia. }
    assert (I3 : load_bytes
                   (mem_set (store_le (mem st) (uart_tx_addr u) 4
                                      (byte_to_Z (byte_of_Z c)))
                            (buf + Z.of_nat (length line)) (byte_of_Z c))
                   buf (length line + 1) = line ++ [byte_of_Z c]).
    { replace (length line + 1)%nat with (S (length line)) by lia.
      rewrite load_bytes_snoc. f_equal.
      - transitivity (load_bytes (mem st) buf (length line)); [|exact Hl].
        apply load_bytes_ext. intros x Hx.
        rewrite mem_set_other by lia. apply tx_store_other. lia.
      - rewrite mem_set_same. reflexivity. }
    specialize (IH I0 I2 I3 I4 I5). rename IH into P.
    destruct (edit (rx_chars rx1) (line ++ [byte_of_Z c])) as [[[l e] r]|];
      [|exact P].
    destruct P as (rx' & st' & R & C & L & F & N & U & B & R' & Fr).
    exists rx', st'. split; [exact R|]. split; [exact C|]. split; [exact L|].
    split; [exact F|]. split; [exact N|].
    cbn [after trace clint_base mem] in U, B, Fr.
    split; [|split; [exact B|split; [exact R'|]]].
    + rewrite U, !tx_chars_app. cbn [app]. rewrite tx_chars_putc.
      cbn [tx_chars]. rewrite <- !app_assoc. reflexivity.
    + intros x Hx Hx'. rewrite Fr by assumption.
      rewrite mem_set_other by lia. apply tx_store_other. exact Hx'.
  - destruct ((c =? 8) && (0 <? Z.of_nat (length line))) eqn:T2.
    + (* a backspace *)
      apply andb_prop in T2. destruct T2 as [T2 T3]. apply Z.ltb_lt in T3.
      rewrite bind_run, (uart_putc_run f0 u _ st Rd).
      assert (Hne : line <> []) by (intros ->; cbn in T3; lia).
      destruct (exists_last Hne) as (l0 & b0 & ->).
      rewrite removelast_last. rewrite length_app in *. cbn [length] in *.
      replace (Z.of_nat (length l0 + 1) - 1) with (Z.of_nat (length l0)) by lia.
      match goal with
      | |- context [readline_loop _ f u buf rx1 _ ?s1] =>
          specialize (IH buf rx1 l0 s1)
      end.
      assert (I1 : buffer_ok buf 1024) by (split; lia).
      assert (I2 : (length rx1 < f)%nat) by lia.
      assert (I3 : load_bytes (store_le (mem st) (uart_tx_addr u) 4
                                        (byte_to_Z (byte_of_Z c)))
                              buf (length l0) = l0).
      { replace (length l0 + 1)%nat with (S (length l0)) in Hl by lia.
        rewrite load_bytes_snoc in Hl. apply app_inj_tail in Hl.
        transitivity (load_bytes (mem st) buf (length l0)); [|apply Hl].
        apply load_bytes_ext. intros x Hx. apply tx_store_other. lia. }
      assert (I4 : Forall printable l0) by (apply Forall_app in Hp; apply Hp).
      assert (I5 : Z.of_nat (length l0) <= 1024 - 1) by lia.
      specialize (IH I1 O). rewrite mem_after in IH.
      specialize (IH (tx_ready_after_putc u (mem st) (byte_of_Z c)) I2 I3 I4 I5).
      rename IH into P.
      destruct (edit (rx_chars rx1) l0) as [[[l e] r]|]; [|exact P].
      destruct P as (rx' & st' & R & C & L & F & N & U & B & R' & Fr).
      exists rx', st'. split; [exact R|]. split; [exact C|]. split; [exact L|].
      split; [exact F|]. split; [exact N|].
      cbn [after trace clint_base mem] in U, B, Fr.
      split; [|split; [exact B|split; [exact R'|]]].
      * rewrite U, !tx_chars_app, tx_chars_putc.
        cbn [tx_chars]. rewrite <- !app_assoc. reflexivity.
      * intros x Hx Hx'. rewrite Fr by assumption.
        apply tx_store_other. exact Hx'.
    + destruct ((c =? 10) || (c =? 13)) eqn:T3.
      * (* end of line *)
        rewrite bind_run, (uart_putc_run f0 u _ st Rd).
        rewrite bind_run, store_char_run, after_after, mem_after. cbn [ret].
        rewrite (wrap64_small (buf + Z.of_nat (length line))) by lia.
        eexists; eexists. split; [reflexivity|]. split; [reflexivity|].
        cbn [after mem trace clint_base]. split; [|split; [exact Hp|]].
        -- rewrite load_bytes_snoc. f_equal.
           ++ transitivity (load_bytes (mem st) buf (length line)); [|exact Hl].
              apply load_bytes_ext. intros x Hx.
              rewrite mem_set_other by lia. apply tx_store_other. lia.
           ++ rewrite mem_set_same. reflexivity.
        -- split; [lia|]. split; [|split; [reflexivity|split]].
           ++ rewrite !tx_chars_app. cbn [app]. rewrite tx_chars_putc.
              cbn [tx_chars]. reflexivity.
           ++ apply (tx_ready_ext u (store_le (mem st) (uart_tx_addr u) 4
                                              (byte_to_Z (byte_of_Z c))));
                [|apply tx_ready_after_putc].
              intros x Hx. apply mem_set_other. lia.
           ++ intros x Hx Hx'. rewrite mem_set_other by lia.
              apply tx_store_other. exact Hx'.
      * (* any other character is dropped *)
        apply IH; try assumption; try lia. split; lia.
Qed.

Lemma readline_null_prompt (fuel : nat) (u : uart) (buf : Z) (rx : list Z)
      (st : state) :
  readline fuel u NULL buf rx st
  = readline_loop fuel (S (length rx)) u buf rx 0 st.
Proof.
  unfold readline. rewrite bind_run. change (NULL =? NULL) with true.
  reflexivity.
Qed.

(** X10.  With room in the serial device at the start and the transmit
    register outside the buffer: whenever [readline(NULL)] returns, it
    returns its buffer, never [NULL]; the buffer holds a NUL-terminated
    line of at most [BUFSIZE - 1] characters, none below the space
    character; and no byte outside the [BUFSIZE] bytes of the buffer and
    the transmit register has changed. *)
Theorem readline_stays_in_its_buffer
        (fuel : nat) (u : uart) (buf p : Z) (rx rx' : list Z)
        (st st' : state) :
  (0 < fuel)%nat ->
  buffer_ok buf BUFSIZE ->
  tx_outside u buf BUFSIZE ->
  tx_ready u (mem st) ->
  readline fuel u NULL buf rx st = Some ((p, rx'), st') ->
  p = buf /\
  (exists line,
      cstring_at (mem st') buf line /\
      Forall printable line /\
      Z.of_nat (length line) <= BUFSIZE - 1) /\
  (forall x, x < buf \/ buf + BUFSIZE <= x ->
             x < uart_tx_addr u \/ uart_tx_addr u + 4 <= x ->
             mem st' x = mem st x).
Proof.
  intros Hfu Hb O Rd H. destruct fuel as [|f0]; [lia|].
  rewrite readline_null_prompt in H.
  pose proof (readline_loop_refines f0 u (S (length rx)) buf rx [] st Hb O Rd
                ltac:(lia) eq_refl ltac:(constructor)
                ltac:(unfold BUFSIZE; cbn; lia)) as R.
  cbn [length] in R. change (Z.of_nat 0) with 0 in R.
  destruct (edit (rx_chars rx) []) as [[[l e] r]|].
  - destruct R as (rx2 & st2 & R & C & L & F & N & U & B & R' & Fr).
    rewrite R in H. injection H as <- <- <-.
    split; [reflexivity|]. split; [|exact Fr].
    exists l. split; [|split; [exact F|exact N]].
    split; [exact L|apply printable_nonzero; exact F].
  - rewrite R in H. discriminate H.
Qed.

Lemma edit_plain_line (cs : list Z) : forall (line : list byte) (t : Z) (rest : list Z),
  Forall (fun c => 32 <= c <= 255) cs ->
  Z.of_nat (length line) + Z.of_nat (length cs) <= BUFSIZE - 1 ->
  t = 10 \/ t = 13 ->
  edit (cs ++ t :: rest) line
  = Some (line ++ map byte_of_Z cs, map byte_of_Z (cs ++ [t]), rest).
Proof.
  induction cs as [|c cs IH]; intros line t rest Hp Hn Ht.
  - cbn [app edit map]. rewrite app_nil_r.
    change (byte_to_Z " "%byte) with 32.
    destruct Ht as [-> | ->]; reflexivity.
  - inversion Hp as [|c0 cs0 Hc Hcs]; subst. cbn [app edit length] in *.
    change (byte_to_Z " "%byte) with 32.
    destruct (Z.leb_spec 32 c); [|lia].
    destruct (Z.ltb_spec (Z.of_nat (length line)) (BUFSIZE - 1)); [|lia].
    cbn [andb]. rewrite IH; try assumption.
    + rewrite <- app_assoc. reflexivity.
    + rewrite length_app. cbn [length]. lia.
Qed.

Lemma rx_chars_of_chars (cs : list Z) :
  Forall (fun c => 0 <= c <= 255) cs -> rx_chars cs = cs.
Proof.
  induction 1 as [|c cs Hc Hcs IH]; [reflexivity|].
  unfold rx_chars in *. cbn [map filter].
  assert (E : uart_getc_of (wrap32 c) = c).
  { unfold wrap32. rewrite Z.mod_small by lia. unfold uart_getc_of.
    assert (Z.land c UART_RXDATA_EMPTY = 0) as ->.
    { unfold UART_RXDATA_EMPTY. change 0x80000000 with (2 ^ 31).
      rewrite land_bit by lia.
      rewrite Z.bits_above_log2; [reflexivity|lia|].
      destruct (Z.eq_dec c 0) as [->|]; [cbn; lia|].
      apply Z.log2_lt_pow2; lia. }
    cbn [Z.eqb]. unfold UART_RXDATA_MASK.
    replace (Z.land c 0x000000ff) with (Z.land c (Z.ones 8)) by reflexivity.
    rewrite Z.land_ones by lia. apply Z.mod_small. lia. }
  rewrite E. destruct (Z.eqb_spec c (-1)); [lia|]. cbn [negb]. rewrite IH.
  reflexivity.
Qed.

(** What is left unread is a tail of what was to come, and the activity
    of the other harts is not consumed. *)
Lemma getchar_rest (rx : list Z) : forall (c : Z) (rx1 : list Z),
  getchar rx = Some (c, rx1) -> exists k, rx1 = skipn k rx.
Proof.
  induction rx as [|reg rest IH]; intros c rx1 G; [discriminate|].
  cbn [getchar uart_getc fst] in G.
  destruct (uart_getc_of (wrap32 reg) =? -1).
  - destruct (IH _ _ G) as (k & ->). exists (S k). reflexivity.
  - injection G as _ <-. exists 1%nat. reflexivity.
Qed.

Lemma uart_putc_wait_env (fuel : nat) (u : uart) : forall (st st' : state),
  uart_putc_wait fuel u st = Some (tt, st') -> env st' = env st.
Proof.
  induction fuel as [|f IH]; intros st st' H; [discriminate|].
  cbn [uart_putc_wait] in H. rewrite bind_run, get_reg_run in H.
  destruct (Z.land _ _ =? 0).
  - injection H as <-. reflexivity.
  - apply IH in H. exact H.
Qed.

Lemma uart_putc_env (fuel : nat) (u : uart) (ch : byte) (st st' : state) :
  uart_putc fuel u ch st = Some (tt, st') -> env st' = env st.
Proof.
  unfold uart_putc. rewrite bind_run.
  destruct (uart_putc_wait fuel u st) as [[[] s1]|] eqn:W; [|discriminate].
  apply uart_putc_wait_env in W. rewrite set_reg_run.
  intros H. injection H as <-. exact W.
Qed.

Lemma readline_loop_keeps (fuel : nat) (u : uart) (f : nat) :
  forall (b : Z) (rx : list Z) (i : Z) (s : state) (p : Z) (r : list Z)
         (s' : state),
    readline_loop fuel f u b rx i s = Some ((p, r), s') ->
    (exists k, r = skipn k rx) /\ env s' = env s.
Proof.
  induction f as [|f IH]; intros b rx i s p r s' H; [discriminate|].
  cbn [readline_loop] in H.
  destruct (getchar rx) as [[c rx1]|] eqn:G; [|discriminate].
  destruct (getchar_rest _ _ _ G) as (k1 & ->).
  assert (T : forall s0, env s0 = env s ->
              readline_loop fuel f u b (skipn k1 rx) i s0 = Some ((p, r), s') \/
              readline_loop fuel f u b (skipn k1 rx) (i + 1) s0 = Some ((p, r), s') \/
              readline_loop fuel f u b (skipn k1 rx) (i - 1) s0 = Some ((p, r), s') ->
              (exists k, r = skipn k rx) /\ env s' = env s).
  { intros s0 E0 [E|[E|E]]; destruct (IH _ _ _ _ _ _ _ E) as ((k & ->) & E1);
      (split; [exists (k1 + k)%nat; rewrite skipn_skipn; f_equal; lia|congruence]). }
  destruct (c <? 0).
  { injection H as _ <- <-. split; [exists k1|]; reflexivity. }
  destruct ((byte_to_Z " "%byte <=? c) && (i <? BUFSIZE - 1)).
  { rewrite bind_run in H.
    destruct (uart_putc fuel u (byte_of_Z c) s) as [[[] s1]|] eqn:P;
      [|discriminate].
    apply uart_putc_env in P. rewrite bind_run, store_char_run in H.
    eapply T; [|right; left; exact H]. exact P. }
  destruct ((c =? 8) && (0 <? i)).
  { rewrite bind_run in H.
    destruct (uart_putc fuel u (byte_of_Z c) s) as [[[] s1]|] eqn:P;
      [|discriminate].
    apply uart_putc_env in P.
    eapply T; [|right; right; exact H]. exact P. }
  destruct ((c =? 10) || (c =? 13)).
  { rewrite bind_run in H.
    destruct (uart_putc fuel u (byte_of_Z c) s) as [[[] s1]|] eqn:P;
      [|discriminate].
    apply uart_putc_env in P. rewrite bind_run, store_char_run in H.
    cbn [ret] in H.
    injection H as _ <- <-. split; [exists k1|exact P]; reflexivity. }
  eapply T; [|left; exact H]. reflexivity.
Qed.

Lemma Forall_skipn {A} (P : A -> Prop) (l : list A) :
  Forall P l -> forall k, Forall P (skipn k l).
Proof.
  induction 1 as [|x l Hx Hl IH]; intros k.
  - rewrite skipn_nil. constructor.
  - destruct k; [constructor; assumption|]. apply IH.
Qed.

(** The run of [readline] on a line typed without editing. *)
Lemma readline_plain_run
      (fuel : nat) (u : uart) (buf t : Z) (cs more : list Z) (st : state) :
  (0 < fuel)%nat ->
  buffer_ok buf BUFSIZE ->
  tx_outside u buf BUFSIZE ->
  tx_ready u (mem st) ->
  Forall (fun c => 32 <= c <= 255) cs ->
  Z.of_nat (length cs) <= BUFSIZE - 1 ->
  t = 10 \/ t = 13 ->
  Forall (fun c => 0 <= c <= 255) more ->
  exists st',
    readline fuel u NULL buf (cs ++ t :: more) st = Some ((buf, more), st') /\
    cstring_at (mem st') buf (map byte_of_Z cs) /\
    tx_chars u (trace st') = tx_chars u (trace st) ++ map byte_of_Z (cs ++ [t]) /\
    clint_base st' = clint_base st /\
    env st' = env st /\
    tx_ready u (mem st') /\
    (forall x, x < buf \/ buf + BUFSIZE <= x ->
               x < uart_tx_addr u \/ uart_tx_addr u + 4 <= x ->
               mem st' x = mem st x).
Proof.
  intros Hfu Hb O Rd Hcs Hn Ht Hmore. destruct fuel as [|f0]; [lia|].
  rewrite readline_null_prompt.
  pose proof (readline_loop_refines f0 u (S (length (cs ++ t :: more))) buf
                (cs ++ t :: more) [] st Hb O Rd
                ltac:(lia) eq_refl ltac:(constructor)
                ltac:(unfold BUFSIZE; cbn; lia)) as R.
  cbn [length] in R. change (Z.of_nat 0) with 0 in R.
  assert (A : Forall (fun c => 0 <= c <= 255) (cs ++ t :: more)).
  { apply Forall_app. split.
    - eapply Forall_impl; [|exact Hcs]. cbv beta. intros; lia.
    - constructor; [lia|exact Hmore]. }
  rewrite (rx_chars_of_chars _ A) in R.
  rewrite (edit_plain_line cs [] t more Hcs ltac:(cbn [length]; lia) Ht) in R.
  destruct R as (rx2 & st2 & R & C & L & F & N & U & B & R' & Fr).
  rewrite app_nil_l in *.
  destruct (readline_loop_keeps _ _ _ _ _ _ _ _ _ _ R) as ((k & E) & Ev).
  (* what is left unread delivers [more], and [more] has no empty read *)
  assert (rx2 = more) as ->.
  { rewrite <- C. symmetry. apply rx_chars_of_chars. rewrite E.
    apply Forall_skipn. exact A. }
  exists st2. split; [exact R|].
  split; [|split; [exact U|split; [exact B|split; [exact Ev|split;
                                   [exact R'|exact Fr]]]]].
  split; [exact L|]. apply printable_nonzero. exact F.
Qed.

Lemma uart0_outside_dram : tx_outside uart0 msg_addr BUFSIZE.
Proof. left. vm_compute. discriminate. Qed.

(** X11.  A line typed without editing comes back as typed: with room in
    the serial device at the start and the transmit register outside the
    buffer, when the device delivers at most [BUFSIZE - 1] characters
    from the space character up, then a line feed or carriage return
    [t], then [more], [readline(NULL)] returns its buffer holding exactly
    these characters and a NUL, has echoed them and [t] by storing them
    to the transmit register, and leaves [more] unread. *)
Theorem readline_returns_the_line_typed
        (fuel : nat) (u : uart) (buf t : Z) (cs more : list Z) (st : state) :
  (0 < fuel)%nat ->
  buffer_ok buf BUFSIZE ->
  tx_outside u buf BUFSIZE ->
  tx_ready u (mem st) ->
  Forall (fun c => 32 <= c <= 255) cs ->
  Z.of_nat (length cs) <= BUFSIZE - 1 ->
  t = 10 \/ t = 13 ->
  Forall (fun c => 0 <= c <= 255) more ->
  exists st',
    readline fuel u NULL buf (cs ++ t :: more) st = Some ((buf, more), st') /\
    cstring_at (mem st') buf (map byte_of_Z cs) /\
    tx_chars u (trace st') = tx_chars u (trace st) ++ map byte_of_Z (cs ++ [t]).
Proof.
  intros Hfu Hb O Rd Hcs Hn Ht Hmore.
  destruct (readline_plain_run fuel u buf t cs more st Hfu Hb O Rd Hcs Hn Ht
              Hmore) as (st' & R & C & U & _).
  exists st'. split; [exact R|]. split; [exact C|exact U].
Qed.

(** Instance of X11: "hi" and a line feed typed, "x" still to come. *)
Lemma readline_returns_the_line_typed_witness :
  exists st',
    readline 1 uart0 NULL msg_addr [104; 105; 10; 120] boot_state
      = Some ((msg_addr, [120]), st') /\
    cstring_at (mem st') msg_addr (map byte_of_Z [104; 105]) /\
    tx_chars uart0 (trace st') = map byte_of_Z [104; 105; 10].
Proof.
  destruct (readline_returns_the_line_typed 1 uart0 msg_addr 10 [104; 105]
              [120] boot_state) as (st' & R & C & U).
  - lia.
  - unfold buffer_ok, msg_addr, BUFSIZE. lia.
  - exact uart0_outside_dram.
  - exact uart0_ready_boot.
  - repeat constructor; lia.
  - unfold BUFSIZE. cbn. lia.
  - left. reflexivity.
  - repeat constructor; lia.
  - exists st'. split; [exact R|]. split; [exact C|exact U].
Defined.

(** Instance of X10, on the same input. *)
Lemma readline_stays_in_its_buffer_witness :
  exists p rx' st',
    readline 1 uart0 NULL msg_addr [104; 105; 10; 120] boot_state
      = Some ((p, rx'), st') /\
    p = msg_addr /\
    (forall x, x < msg_addr \/ msg_addr + BUFSIZE <= x ->
               x < uart_tx_addr uart0 \/ uart_tx_addr uart0 + 4 <= x ->
               mem st' x = mem boot_state x).
Proof.
  assert (Hb : buffer_ok msg_addr BUFSIZE)
    by (unfold buffer_ok, msg_addr, BUFSIZE; lia).
  pose proof (readline_loop_refines 0 uart0 5 msg_addr [104; 105; 10; 120] []
                boot_state Hb uart0_outside_dram uart0_ready_boot
                ltac:(cbn [length]; lia) eq_refl
                ltac:(constructor) ltac:(unfold BUFSIZE; cbn; lia)) as R.
  destruct (edit (rx_chars [104; 105; 10; 120]) []) as [[[l e] r]|] eqn:E;
    [|vm_compute in E; discriminate E].
  destruct R as (rx2 & st2 & R & _).
  assert (R' : readline 1 uart0 NULL msg_addr [104; 105; 10; 120] boot_state
               = Some ((msg_addr, rx2), st2))
    by (rewrite readline_null_prompt; exact R).
  destruct (readline_stays_in_its_buffer 1 uart0 msg_addr msg_addr
              [104; 105; 10; 120] rx2 boot_state st2 ltac:(lia) Hb
              uart0_outside_dram uart0_ready_boot R') as (P & _ & F).
  exists msg_addr, rx2, st2. split; [exact R'|]. split; [exact P|exact F].
Defined.
(* ================================================================== *)
(** ** main.c: the target typed at the console *)

Lemma to_hartid_ok_digit (c : byte) :
  to_hartid_ok (to_hartid_of c)
  = (byte_to_Z "1"%byte <=? byte_to_Z c) && (byte_to_Z c <=? byte_to_Z "4"%byte).
Proof. destruct c; vm_compute; reflexivity. Qed.

(** X12.  The range check of [test_ipi] on [readline(NULL)[0] - '0']
    accepts the first character of the line exactly when it is one of the
    digits 1, 2, 3, 4.  A character below the digit 0, and the NUL of an
    empty line, wraps around in the unsigned subtraction and is refused;
    so is the digit 0, the hart that asks. *)
Theorem target_is_a_digit_from_1_to_4 (c : byte) :
  to_hartid_ok (to_hartid_of c) = true <->
  In c (list_byte_of_string "1234").
Proof.
  rewrite to_hartid_ok_digit.
  destruct c; vm_compute; split; intros H;
    try discriminate H; try reflexivity;
    try (repeat (destruct H as [H|H]; [discriminate H|]); destruct H);
    tauto.
Qed.

(* ================================================================== *)
(** ** main.c: [wait_ipi] and what the other harts do meanwhile *)

(** Every pending word is a whole number of words away from the
    controller, whatever the hart id. *)
Lemma CLINT_SOFT_aligned (h : Z) :
  exists q, CLINT_SOFT CLINT_CTRL_ADDR h = 4 * q.
Proof.
  unfold CLINT_SOFT, CLINT_CTRL_ADDR, CLINT_MSIP_SIZE, CLINT_MSIP_OFFSET, wrap64.
  change (2 ^ 64) with (4 * 4611686018427387904).
  rewrite Z.add_0_r, Z.mod_mod by lia.
  pose proof (Z.div_mod (h * 4) (4 * 4611686018427387904) ltac:(lia)) as D1.
  set (r := (h * 4) mod (4 * 4611686018427387904)) in *.
  pose proof (Z.div_mod (33554432 + r) (4 * 4611686018427387904) ltac:(lia)) as D2.
  set (a := (33554432 + r) mod (4 * 4611686018427387904)) in *.
  exists (8388608 + h - 4611686018427387904 * ((h * 4) / (4 * 4611686018427387904))
          - 4611686018427387904 * ((33554432 + r) / (4 * 4611686018427387904))).
  lia.
Qed.

Lemma mip_of_clear (m : memory) (self : Z) :
  mip_of m self = 0 <->
  Z.testbit (load_le m (CLINT_CTRL_ADDR + self * CLINT_MSIP_SIZE) 4) 0 = false.
Proof.
  unfold mip_of.
  destruct (Z.testbit (load_le m (CLINT_CTRL_ADDR + self * CLINT_MSIP_SIZE) 4) 0).
  - split; intros H; discriminate H.
  - split; reflexivity.
Qed.

(** What does not raise the bit of [self] leaves it clear. *)
Lemma quiet_keeps_clear (self : Z) (e : env_event) (m : memory) :
  0 <= self < MAX_HARTS ->
  quiet_for self e = true ->
  mip_of m self = 0 ->
  mip_of (env_apply e CLINT_CTRL_ADDR m) self = 0.
Proof.
  intros Hs Q H. destruct e as [h|h|]; cbn [env_apply quiet_for] in *.
  - apply andb_prop in Q. destruct Q as [Q N]. apply andb_prop in Q.
    destruct Q as [Q1 Q2].
    apply Z.leb_le in Q1. apply Z.ltb_lt in Q2.
    apply negb_true_iff in N. apply Z.eqb_neq in N.
    rewrite mip_of_clear in *.
    rewrite <- CLINT_SOFT_boot in * by exact Hs.
    rewrite load_le_store_le_other; [exact H|].
    pose proof (CLINT_SOFT_apart CLINT_CTRL_ADDR self h Hs ltac:(lia) ltac:(lia)).
    change (Z.of_nat 4) with 4. lia.
  - rewrite mip_of_clear in *.
    destruct (CLINT_SOFT_aligned h) as (q & Eq).
    destruct (Z.eq_dec (CLINT_SOFT CLINT_CTRL_ADDR h)
                       (CLINT_CTRL_ADDR + self * CLINT_MSIP_SIZE)) as [E|E].
    + rewrite E, load_le_store_le_same. reflexivity.
    + rewrite load_le_store_le_other; [exact H|].
      unfold CLINT_CTRL_ADDR, CLINT_MSIP_SIZE in *. change (Z.of_nat 4) with 4. lia.
  - exact H.
Qed.

(** The memory after the other harts have acted. *)
Lemma wfi_run (st : state) (e : env_event) (rest : list env_event) :
  env st = e :: rest ->
  wfi st = Some (tt, mkState (env_apply e (clint_base st) (mem st))
                             (clint_base st) (trace st ++ [EvWfi]) rest).
Proof. intros H. unfold wfi. rewrite H. reflexivity. Qed.

Lemma wait_ipi_loop_sleeps (pre : list env_event) :
  forall (fuel : nat) (self : Z) (st : state) (rest : list env_event),
    clint_base st = CLINT_CTRL_ADDR ->
    0 <= self < MAX_HARTS ->
    mip_of (mem st) self = 0 ->
    forallb (quiet_for self) pre = true ->
    env st = pre ++ rest ->
    wait_ipi_loop (length pre + fuel) self st
    = wait_ipi_loop fuel self
        (mkState (fold_left (fun m e => env_apply e CLINT_CTRL_ADDR m) pre (mem st))
                 CLINT_CTRL_ADDR
                 (trace st ++ concat (map (fun _ => [EvCsrRead CSR_mip 0; EvWfi]) pre))
                 rest) /\
    mip_of (fold_left (fun m e => env_apply e CLINT_CTRL_ADDR m) pre (mem st)) self = 0.
Proof.
  induction pre as [|e pre IH]; intros fuel self st rest B Hs H Q E.
  - cbn [length fold_left map concat plus]. rewrite app_nil_r. split; [|exact H].
    f_equal. destruct st; cbn in *. subst. reflexivity.
  - cbn [forallb] in Q. apply andb_prop in Q. destruct Q as [Q1 Q2].
    cbn [length plus wait_ipi_loop fold_left map concat].
    rewrite bind_run, read_csr_mip_run, H. cbn match.
    change (Z.land 0 MIP_MSIP =? 0) with true. cbn match.
    rewrite bind_run.
    rewrite (wfi_run _ e (pre ++ rest)) by exact E.
    cbn [mem clint_base trace env]. rewrite B.
    pose proof (quiet_keeps_clear self e (mem st) Hs Q1 H) as H1.
    specialize (IH fuel self
                   (mkState (env_apply e CLINT_CTRL_ADDR (mem st)) CLINT_CTRL_ADDR
                            ((trace st ++ [EvCsrRead CSR_mip 0]) ++ [EvWfi])
                            (pre ++ rest))
                   rest eq_refl Hs H1 Q2 eq_refl).
    cbn [mem clint_base trace env] in IH. destruct IH as [IH1 IH2].
    split; [|exact IH2]. rewrite IH1. rewrite <- !app_assoc. reflexivity.
Qed.

(** The run of [wait_ipi] up to the first raise of the bit it waits
    for. *)
Lemma wait_ipi_wake_run
      (fuel : nat) (self hartid : Z) (st : state) (pre post : list env_event) :
  clint_base st = CLINT_CTRL_ADDR ->
  0 <= self < MAX_HARTS ->
  mip_of (mem st) self = 0 ->
  forallb (quiet_for self) pre = true ->
  env st = pre ++ EnvRaise self :: post ->
  (length pre + 1 < fuel)%nat ->
  wait_ipi fuel self hartid st =
  Some (0, mkState
             (store_le (fold_left (fun m e => env_apply e CLINT_CTRL_ADDR m)
                                  (pre ++ [EnvRaise self]) (mem st))
                       (CLINT_SOFT CLINT_CTRL_ADDR hartid) 4 0)
             CLINT_CTRL_ADDR
             (trace st ++
              concat (map (fun _ => [EvCsrRead CSR_mip 0; EvWfi])
                          (pre ++ [EnvRaise self])) ++
              [EvCsrRead CSR_mip MIP_MSIP; EvFence FW FO;
               EvStore 4 (CLINT_SOFT CLINT_CTRL_ADDR hartid) 0])
             post).
Proof.
  intros B Hs H Q E F.
  replace fuel with (length pre + S (S (fuel - length pre - 2)))%nat by lia.
  unfold wait_ipi. rewrite bind_run.
  destruct (wait_ipi_loop_sleeps pre (S (S (fuel - length pre - 2))) self st
              (EnvRaise self :: post) B Hs H Q E) as [R C].
  rewrite R. clear R.
  set (m1 := fold_left (fun m e => env_apply e CLINT_CTRL_ADDR m) pre (mem st)) in *.
  cbn [wait_ipi_loop]. rewrite bind_run, read_csr_mip_run.
  cbn [mem clint_base trace env]. rewrite C. cbn match.
  change (Z.land 0 MIP_MSIP =? 0) with true. cbn match.
  rewrite bind_run. unfold wfi at 1. cbn [mem clint_base trace env env_apply].
  rewrite bind_run, read_csr_mip_run. cbn [mem clint_base trace env].
  rewrite mip_of_after_raise by exact Hs. cbn match.
  change (Z.land MIP_MSIP MIP_MSIP =? 0) with false. cbn match.
  unfold ret at 1. rewrite bind_run, clint_clear_soft_run.
  cbn [mem clint_base trace env ret].
  rewrite map_app, concat_app, fold_left_app. cbn [map concat fold_left env_apply].
  fold m1. rewrite <- !app_assoc. reflexivity.
Qed.

(** X13.  [wait_ipi] sleeps through whatever the other harts do that
    does not raise the waiting hart's bit, wakes at the first raise of
    it, clears the bit of its argument and returns 0: with the bit clear
    at the call and the activity [pre], a raise of the bit, [post] ahead,
    it executes one [wfi] for each element of [pre] and for the raise,
    and leaves [post] unconsumed. *)
Theorem wait_ipi_wakes_at_the_first_raise
        (fuel : nat) (self hartid : Z) (st : state) (pre post : list env_event) :
  clint_base st = CLINT_CTRL_ADDR ->
  0 <= self < MAX_HARTS ->
  mip_of (mem st) self = 0 ->
  forallb (quiet_for self) pre = true ->
  env st = pre ++ EnvRaise self :: post ->
  (length pre + 1 < fuel)%nat ->
  exists st',
    wait_ipi fuel self hartid st = Some (0, st') /\
    env st' = post /\
    trace st' = trace st ++
                concat (map (fun _ => [EvCsrRead CSR_mip 0; EvWfi])
                            (pre ++ [EnvRaise self])) ++
                [EvCsrRead CSR_mip MIP_MSIP; EvFence FW FO;
                 EvStore 4 (CLINT_SOFT CLINT_CTRL_ADDR hartid) 0] /\
    mem st' = store_le (fold_left (fun m e => env_apply e CLINT_CTRL_ADDR m)
                                  (pre ++ [EnvRaise self]) (mem st))
                       (CLINT_SOFT CLINT_CTRL_ADDR hartid) 4 0 /\
    is_pending hartid st' = Some false.
Proof.
  intros B Hs H Q E F.
  rewrite (wait_ipi_wake_run fuel self hartid st pre post B Hs H Q E F).
  eexists. split; [reflexivity|]. cbn [mem clint_base trace env].
  split; [reflexivity|]. split; [reflexivity|]. split; [reflexivity|].
  rewrite is_pending_word. cbn [mem clint_base].
  rewrite load_le_store_le_same. reflexivity.
Qed.

(** Hart 1 is woken at the second [wfi]. *)
Lemma wait_ipi_wakes_at_the_first_raise_witness :
  exists st',
    wait_ipi 3 1 1 waiting_state = Some (0, st') /\
    env st' = [] /\
    is_pending 1 st' = Some false.
Proof.
  destruct (wait_ipi_wakes_at_the_first_raise 3 1 1 waiting_state [EnvIdle] [])
    as (st' & R & E & _ & _ & P).
  - reflexivity.
  - unfold MAX_HARTS. lia.
  - reflexivity.
  - reflexivity.
  - reflexivity.
  - cbn [length]. lia.
  - exists st'. split; [exact R|]. split; [exact E|exact P].
Defined.

Lemma wait_ipi_loop_hangs (fuel : nat) :
  forall (self : Z) (st : state),
    clint_base st = CLINT_CTRL_ADDR ->
    0 <= self < MAX_HARTS ->
    mip_of (mem st) self = 0 ->
    forallb (quiet_for self) (env st) = true ->
    wait_ipi_loop fuel self st = None.
Proof.
  induction fuel as [|f IH]; intros self st B Hs H Q; [reflexivity|].
  cbn [wait_ipi_loop]. rewrite bind_run, read_csr_mip_run, H. cbn match.
  change (Z.land 0 MIP_MSIP =? 0) with true. cbn match.
  rewrite bind_run. unfold wfi.
  cbn [mem clint_base trace env].
  destruct (env st) as [|e rest] eqn:E.
  - apply IH; cbn [mem clint_base trace env]; auto.
  - cbn [forallb] in Q. apply andb_prop in Q. destruct Q as [Q1 Q2].
    apply IH; cbn [mem clint_base trace env]; auto.
    rewrite B. apply quiet_keeps_clear; assumption.
Qed.

(** X14.  [wait_ipi] has no way out but the interrupt: with the bit of
    the waiting hart clear at the call and nothing ahead that raises it,
    the call does not return, however long it is run. *)
Theorem wait_ipi_does_not_return_unsignalled
        (self hartid : Z) (st : state) :
  clint_base st = CLINT_CTRL_ADDR ->
  0 <= self < MAX_HARTS ->
  mip_of (mem st) self = 0 ->
  forallb (quiet_for self) (env st) = true ->
  forall fuel, wait_ipi fuel self hartid st = None.
Proof.
  intros B Hs H Q fuel. unfold wait_ipi.
  rewrite bind_run, wait_ipi_loop_hangs by assumption. reflexivity.
Qed.

(** Hart 1 is not woken by a raise of the bit of hart 2. *)
Lemma wait_ipi_does_not_return_unsignalled_witness :
  wait_ipi 100 1 1 (with_env boot_state [EnvIdle; EnvRaise 2; EnvClear 1]) = None.
Proof.
  apply (wait_ipi_does_not_return_unsignalled 1 1
           (with_env boot_state [EnvIdle; EnvRaise 2; EnvClear 1])).
  - reflexivity.
  - unfold MAX_HARTS. lia.
  - reflexivity.
  - reflexivity.
Defined.

(* ================================================================== *)
(** ** clint.c: the timer registers beside the pending words *)

Lemma wrap64_add_l (a b : Z) : wrap64 (wrap64 a + b) = wrap64 (a + b).
Proof. unfold wrap64. apply Z.add_mod_idemp_l. lia. Qed.

Lemma wrap64_add_r (a b : Z) : wrap64 (a + wrap64 b) = wrap64 (a + b).
Proof. unfold wrap64. apply Z.add_mod_idemp_r. lia. Qed.

Lemma CLINT_SOFT_offset (base h : Z) :
  CLINT_SOFT base h = wrap64 (base + h * 4).
Proof.
  unfold CLINT_SOFT, CLINT_MSIP_SIZE, CLINT_MSIP_OFFSET.
  rewrite wrap64_add_l, Z.add_0_r, wrap64_add_r. reflexivity.
Qed.

Lemma mtimecmp_addr_offset (base h : Z) :
  mtimecmp_addr base h = wrap64 (base + (h * 8 + 16384)).
Proof.
  unfold mtimecmp_addr, CLINT_MTIMECMP_SIZE, CLINT_MTIMECMP_OFFSET.
  rewrite wrap64_add_l.
  replace (base + wrap64 (h * 8) + 16384) with (base + 16384 + wrap64 (h * 8))
    by lia.
  rewrite wrap64_add_r. f_equal. lia.
Qed.

(** Two registers at different offsets from the same base stay apart
    when the base is wrapped into the address space. *)
Lemma offsets_apart (base x y n k : Z) :
  0 <= x -> 0 <= n -> 0 <= k -> x + n <= y -> y + k <= 2 ^ 64 ->
  wrap64 (base + x) + n <= wrap64 (base + y) \/
  wrap64 (base + y) + k <= wrap64 (base + x).
Proof.
  unfold wrap64. change (2 ^ 64) with 18446744073709551616. intros.
  pose proof (Z.div_mod (base + x) 18446744073709551616 ltac:(lia)).
  pose proof (Z.div_mod (base + y) 18446744073709551616 ltac:(lia)).
  pose proof (Z.mod_pos_bound (base + x) 18446744073709551616 ltac:(lia)).
  pose proof (Z.mod_pos_bound (base + y) 18446744073709551616 ltac:(lia)).
  lia.
Qed.

Lemma writed_run (v a : Z) (st : state) :
  writed (ret v) a st =
  Some (tt, mkState (store_le (mem st) a 8 (wrap64 v)) (clint_base st)
                    (trace st ++ [EvFence FW FO; EvStore 8 a (wrap64 v)])
                    (env st)).
Proof.
  unfold writed, __io_bw, __io_aw, __raw_writed, store_insn, fence, emit,
    get_mem, put_mem, bind, ret. cbn [mem clint_base trace env].
  rewrite <- app_assoc. cbn [app].
  change (2 ^ (8 * Z.of_nat 8)) with (2 ^ 64).
  unfold wrap64. rewrite Z.mod_mod by (apply Z.pow_nonzero; lia).
  reflexivity.
Qed.

Lemma clint_set_timecmp_run (hartid time : Z) (st : state) :
  clint_set_timecmp hartid time st =
  Some (tt, mkState (store_le (mem st) (mtimecmp_addr (clint_base st) hartid) 8
                              (wrap64 time))
                    (clint_base st)
                    (trace st ++ [EvFence FW FO;
                                  EvStore 8 (mtimecmp_addr (clint_base st) hartid)
                                          (wrap64 time)])
                    (env st)).
Proof.
  unfold clint_set_timecmp, get_clint_base, bind at 1. rewrite writed_run.
  reflexivity.
Qed.

(** X15.  For a hart of the configured range [clint_set_timecmp] returns
    and afterwards the compare register of that hart holds the time; the
    compare registers of the other harts, every pending bit and what
    [clint_get_mtime] returns are as before, wherever the controller is
    mapped. *)
Theorem set_timecmp_writes_one_register (st : state) (hartid time : Z) :
  0 <= hartid < MAX_HARTS ->
  exists st',
    clint_set_timecmp hartid time st = Some (tt, st') /\
    load_le (mem st') (mtimecmp_addr (clint_base st) hartid) 8 = wrap64 time /\
    (forall g, 0 <= g < MAX_HARTS -> g <> hartid ->
       load_le (mem st') (mtimecmp_addr (clint_base st) g) 8
       = load_le (mem st) (mtimecmp_addr (clint_base st) g) 8) /\
    (forall g, 0 <= g < MAX_HARTS -> is_pending g st' = is_pending g st) /\
    option_map fst (clint_get_mtime st') = option_map fst (clint_get_mtime st).
Proof.
  intros Hh. eexists. split; [apply clint_set_timecmp_run|].
  cbn [mem clint_base]. unfold MAX_HARTS in *.
  split; [|split; [|split]].
  - rewrite load_le_store_le_same. change (256 ^ Z.of_nat 8) with (2 ^ 64).
    unfold wrap64. apply Z.mod_mod. lia.
  - intros g Hg Hne. apply load_le_store_le_other.
    rewrite !mtimecmp_addr_offset. change (Z.of_nat 8) with 8.
    destruct (Z.lt_total g hartid) as [L|[L|L]]; [|contradiction|].
    + destruct (offsets_apart (clint_base st) (g * 8 + 16384)
                  (hartid * 8 + 16384) 8 8) as [A|A]; lia.
    + destruct (offsets_apart (clint_base st) (hartid * 8 + 16384)
                  (g * 8 + 16384) 8 8) as [A|A]; lia.
  - intros g Hg. rewrite !is_pending_word. cbn [mem clint_base].
    rewrite load_le_store_le_other; [reflexivity|].
    rewrite mtimecmp_addr_offset, CLINT_SOFT_offset.
    change (Z.of_nat 8) with 8. change (Z.of_nat 4) with 4.
    destruct (offsets_apart (clint_base st) (g * 4) (hartid * 8 + 16384) 4 8)
      as [A|A]; lia.
  - rewrite !clint_get_mtime_run. cbn [option_map fst mem clint_base].
    f_equal. apply load_le_store_le_other.
    rewrite mtimecmp_addr_offset. unfold CLINT_MTIME_OFFSET.
    change (Z.of_nat 8) with 8.
    destruct (offsets_apart (clint_base st) (hartid * 8 + 16384) 49144 8 8)
      as [A|A]; lia.
Qed.

(** Hart 2 gets a compare value with the controller where the board has
    it. *)
Lemma set_timecmp_writes_one_register_witness :
  exists st',
    clint_set_timecmp 2 1000 boot_state = Some (tt, st') /\
    load_le (mem st') (mtimecmp_addr CLINT_CTRL_ADDR 2) 8 = 1000 /\
    is_pending 2 st' = Some false.
Proof.
  destruct (set_timecmp_writes_one_register boot_state 2 1000)
    as (st' & R & V & _ & P & _).
  - unfold MAX_HARTS. lia.
  - exists st'. split; [exact R|]. split; [exact V|].
    rewrite P by (unfold MAX_HARTS; lia). reflexivity.
Defined.

(** The run of [clint_set_timecmp] at the board's mapping. *)
Lemma clint_set_timecmp_reads_back (st : state) (hartid time : Z) :
  exists st',
    clint_set_timecmp hartid time st = Some (tt, st') /\
    load_le (mem st') (mtimecmp_addr (clint_base st) hartid) 8 = wrap64 time /\
    clint_base st' = clint_base st.
Proof.
  eexists. split; [apply clint_set_timecmp_run|]. cbn [mem clint_base].
  split; [|reflexivity].
  rewrite load_le_store_le_same. change (256 ^ Z.of_nat 8) with (2 ^ 64).
  unfold wrap64. apply Z.mod_mod. lia.
Qed.

(** X16.  Raising or clearing the pending bit of a hart of the
    configured range touches no timer register: every compare register
    and what [clint_get_mtime] returns are as before. *)
Theorem soft_interrupts_leave_the_timer_alone (st : state) (h : Z) :
  0 <= h < MAX_HARTS ->
  exists st1 st2,
    clint_send_soft h st = Some (tt, st1) /\
    clint_clear_soft h st = Some (tt, st2) /\
    (forall g, 0 <= g < MAX_HARTS ->
       load_le (mem st1) (mtimecmp_addr (clint_base st) g) 8
       = load_le (mem st) (mtimecmp_addr (clint_base st) g) 8 /\
       load_le (mem st2) (mtimecmp_addr (clint_base st) g) 8
       = load_le (mem st) (mtimecmp_addr (clint_base st) g) 8) /\
    option_map fst (clint_get_mtime st1) = option_map fst (clint_get_mtime st) /\
    option_map fst (clint_get_mtime st2) = option_map fst (clint_get_mtime st).
Proof.
  intros Hh. eexists. eexists.
  split; [apply clint_send_soft_run|]. split; [apply clint_clear_soft_run|].
  cbn [mem clint_base]. unfold MAX_HARTS in *.
  assert (T : forall g, 0 <= g < 5 ->
            mtimecmp_addr (clint_base st) g + 8 <= CLINT_SOFT (clint_base st) h \/
            CLINT_SOFT (clint_base st) h + 4 <= mtimecmp_addr (clint_base st) g).
  { intros g Hg. rewrite mtimecmp_addr_offset, CLINT_SOFT_offset.
    destruct (offsets_apart (clint_base st) (h * 4) (g * 8 + 16384) 4 8)
      as [A|A]; lia. }
  assert (C : mtime_addr (clint_base st) + 8 <= CLINT_SOFT (clint_base st) h \/
              CLINT_SOFT (clint_base st) h + 4 <= mtime_addr (clint_base st)).
  { unfold mtime_addr, CLINT_MTIME_OFFSET. rewrite CLINT_SOFT_offset.
    destruct (offsets_apart (clint_base st) (h * 4) 49144 4 8) as [A|A]; lia. }
  split; [|split].
  - intros g Hg. specialize (T g Hg).
    split; apply load_le_store_le_other;
      change (Z.of_nat 8) with 8; change (Z.of_nat 4) with 4; lia.
  - rewrite !clint_get_mtime_run. cbn [option_map fst mem clint_base].
    f_equal. apply load_le_store_le_other. fold (mtime_addr (clint_base st)).
    change (Z.of_nat 8) with 8; change (Z.of_nat 4) with 4; lia.
  - rewrite !clint_get_mtime_run. cbn [option_map fst mem clint_base].
    f_equal. apply load_le_store_le_other. fold (mtime_addr (clint_base st)).
    change (Z.of_nat 8) with 8; change (Z.of_nat 4) with 4; lia.
Qed.

(** With the compare register of hart 3 set, raising the bit of hart 3
    leaves it set. *)
Lemma soft_interrupts_leave_the_timer_alone_witness :
  exists st0 st1,
    clint_set_timecmp 3 77 boot_state = Some (tt, st0) /\
    clint_send_soft 3 st0 = Some (tt, st1) /\
    load_le (mem st1) (mtimecmp_addr CLINT_CTRL_ADDR 3) 8 = 77.
Proof.
  destruct (clint_set_timecmp_reads_back boot_state 3 77) as (st0 & R0 & V0 & B0).
  destruct (soft_interrupts_leave_the_timer_alone st0 3)
    as (st1 & st2 & R1 & _ & T & _).
  - unfold MAX_HARTS. lia.
  - exists st0, st1. split; [exact R0|]. split; [exact R1|].
    rewrite B0 in T.
    destruct (T 3 ltac:(unfold MAX_HARTS; lia)) as [T1 _].
    change (clint_base boot_state) with CLINT_CTRL_ADDR in T1, V0.
    rewrite T1. exact V0.
Defined.

(** X17.  The hart id is not checked: an id of [4096 + 2 * k] addresses
    the compare register of hart [k], so that [clint_send_soft] on it
    returns and overwrites the low word of that register with 1. *)
Theorem send_soft_out_of_range_hits_the_timer (st : state) (k : Z) :
  CLINT_SOFT (clint_base st) (4096 + 2 * k) = mtimecmp_addr (clint_base st) k /\
  exists st',
    clint_send_soft (4096 + 2 * k) st = Some (tt, st') /\
    load_le (mem st') (mtimecmp_addr (clint_base st) k) 4 = 1.
Proof.
  assert (E : CLINT_SOFT (clint_base st) (4096 + 2 * k)
              = mtimecmp_addr (clint_base st) k).
  { rewrite CLINT_SOFT_offset, mtimecmp_addr_offset. f_equal. lia. }
  split; [exact E|].
  eexists. split; [apply clint_send_soft_run|].
  cbn [mem]. rewrite E, load_le_store_le_same. reflexivity.
Qed.

(* ================================================================== *)
(** ** console.c: editing the line *)

(** The run of [readline] on characters that the editor brings to an end
    of line. *)
Lemma readline_edit_run
      (fuel : nat) (u : uart) (buf : Z) (rx : list Z) (st : state)
      (l e : list byte) (r : list Z) :
  (0 < fuel)%nat ->
  buffer_ok buf BUFSIZE ->
  tx_outside u buf BUFSIZE ->
  tx_ready u (mem st) ->
  Forall (fun c => 0 <= c <= 255) rx ->
  edit rx [] = Some (l, e, r) ->
  exists st',
    readline fuel u NULL buf rx st = Some ((buf, r), st') /\
    cstring_at (mem st') buf l /\
    Z.of_nat (length l) <= BUFSIZE - 1 /\
    tx_chars u (trace st') = tx_chars u (trace st) ++ e /\
    clint_base st' = clint_base st /\
    env st' = env st /\
    tx_ready u (mem st') /\
    (forall x, x < buf \/ buf + BUFSIZE <= x ->
               x < uart_tx_addr u \/ uart_tx_addr u + 4 <= x ->
               mem st' x = mem st x).
Proof.
  intros Hfu Hb O Rd A E. destruct fuel as [|f0]; [lia|].
  rewrite readline_null_prompt.
  pose proof (readline_loop_refines f0 u (S (length rx)) buf rx [] st Hb O Rd
                ltac:(lia) eq_refl ltac:(constructor)
                ltac:(unfold BUFSIZE; cbn; lia)) as R.
  cbn [length] in R. change (Z.of_nat 0) with 0 in R.
  rewrite (rx_chars_of_chars _ A), E in R.
  destruct R as (rx2 & st2 & R & C & L & F & N & U & B & R' & Fr).
  destruct (readline_loop_keeps _ _ _ _ _ _ _ _ _ _ R) as ((k & Ek) & Ev).
  assert (rx2 = r) as ->.
  { rewrite <- C. symmetry. apply rx_chars_of_chars. rewrite Ek.
    apply Forall_skipn. exact A. }
  exists st2. split; [exact R|].
  split; [|split; [exact N|split; [exact U|split; [exact B|split;
                                   [exact Ev|split; [exact R'|exact Fr]]]]]].
  split; [exact L|]. apply printable_nonzero. exact F.
Qed.

(** The editor on characters it stores. *)
Lemma edit_stores (cs : list Z) : forall (line : list byte) (rest : list Z),
  Forall (fun c => 32 <= c <= 255) cs ->
  Z.of_nat (length line) + Z.of_nat (length cs) <= BUFSIZE - 1 ->
  edit (cs ++ rest) line
  = match edit rest (line ++ map byte_of_Z cs) with
    | Some (l, e, r) => Some (l, map byte_of_Z cs ++ e, r)
    | None => None
    end.
Proof.
  induction cs as [|c cs IH]; intros line rest Hp Hn.
  - cbn [app map]. rewrite app_nil_r.
    destruct (edit rest line) as [[[l e] r]|]; reflexivity.
  - inversion Hp as [|c0 cs0 Hc Hcs]; subst. cbn [app edit length map] in *.
    change (byte_to_Z " "%byte) with 32.
    destruct (Z.leb_spec 32 c); [|lia].
    destruct (Z.ltb_spec (Z.of_nat (length line)) (BUFSIZE - 1)); [|lia].
    cbn [andb]. rewrite IH; try assumption.
    + rewrite <- app_assoc. cbn [app].
      destruct (edit rest (line ++ byte_of_Z c :: map byte_of_Z cs))
        as [[[l e] r]|]; reflexivity.
    + rewrite length_app. cbn [length]. lia.
Qed.

(** The editor on characters that find the line full. *)
Lemma edit_drops (extra : list Z) : forall (line : list byte) (rest : list Z),
  Forall (fun c => 32 <= c <= 255) extra ->
  Z.of_nat (length line) = BUFSIZE - 1 ->
  edit (extra ++ rest) line = edit rest line.
Proof.
  induction extra as [|c extra IH]; intros line rest Hp Hn; [reflexivity|].
  inversion Hp as [|c0 cs0 Hc Hcs]; subst. cbn [app edit].
  destruct (Z.ltb_spec (Z.of_nat (length line)) (BUFSIZE - 1)); [lia|].
  rewrite andb_false_r.
  destruct (Z.eqb_spec c 8); [lia|]. cbn [andb].
  destruct (Z.eqb_spec c 10); [lia|]. destruct (Z.eqb_spec c 13); [lia|].
  cbn [orb]. apply IH; assumption.
Qed.

Lemma map_byte_of_Z_length (cs : list Z) :
  length (map byte_of_Z cs) = length cs.
Proof. apply length_map. Qed.

Lemma chars_in_range (cs : list Z) :
  Forall (fun c => 32 <= c <= 255) cs -> Forall (fun c => 0 <= c <= 255) cs.
Proof. intros H. eapply Forall_impl; [|exact H]. cbv beta. intros; lia. Qed.

(** X18.  A backspace takes back the character typed before it: with
    room in the serial device at the start and the transmit register
    outside the buffer, when fewer than [BUFSIZE - 1] characters [cs], a
    character [c], a backspace and an end of line [t] are typed,
    [readline(NULL)] returns the line [cs]; the character and the
    backspace are both echoed, each by a store to the transmit
    register. *)
Theorem readline_backspace_erases
        (fuel : nat) (u : uart) (buf c t : Z) (cs more : list Z) (st : state) :
  (0 < fuel)%nat ->
  buffer_ok buf BUFSIZE ->
  tx_outside u buf BUFSIZE ->
  tx_ready u (mem st) ->
  Forall (fun c => 32 <= c <= 255) cs ->
  32 <= c <= 255 ->
  Z.of_nat (length cs) < BUFSIZE - 1 ->
  t = 10 \/ t = 13 ->
  Forall (fun c => 0 <= c <= 255) more ->
  exists st',
    readline fuel u NULL buf (cs ++ c :: 8 :: t :: more) st
      = Some ((buf, more), st') /\
    cstring_at (mem st') buf (map byte_of_Z cs) /\
    tx_chars u (trace st') =
      tx_chars u (trace st) ++ map byte_of_Z (cs ++ [c; 8; t]).
Proof.
  intros Hfu Hb O Rd Hcs Hc Hn Ht Hmore.
  assert (E : edit (cs ++ c :: 8 :: t :: more) []
              = Some (map byte_of_Z cs, map byte_of_Z (cs ++ [c; 8; t]), more)).
  { rewrite edit_stores by (try assumption; cbn [length]; lia).
    cbn [app edit]. rewrite map_byte_of_Z_length.
    change (byte_to_Z " "%byte) with 32.
    destruct (Z.leb_spec 32 c); [|lia].
    destruct (Z.ltb_spec (Z.of_nat (length cs)) (BUFSIZE - 1)); [|lia].
    cbn [andb]. rewrite length_app, map_byte_of_Z_length. cbn [length].
    change (32 <=? 8) with false. cbn [andb].
    change (8 =? 8) with true.
    destruct (Z.ltb_spec 0 (Z.of_nat (length cs + 1))); [|lia].
    cbn [andb]. rewrite removelast_last, map_byte_of_Z_length.
    destruct (Z.leb_spec 32 t); [lia|]. cbn [andb].
    destruct (Z.eqb_spec t 8); [lia|]. cbn [andb].
    assert ((t =? 10) || (t =? 13) = true) as ->
      by (destruct Ht as [-> | ->]; reflexivity).
    rewrite map_app. reflexivity. }
  assert (A : Forall (fun c => 0 <= c <= 255) (cs ++ c :: 8 :: t :: more)).
  { apply Forall_app. split; [apply chars_in_range; exact Hcs|].
    repeat (constructor; [lia|]). exact Hmore. }
  destruct (readline_edit_run fuel u buf _ st _ _ _ Hfu Hb O Rd A E)
    as (st' & R & C & _ & U & _).
  exists st'. split; [exact R|]. split; [exact C|exact U].
Qed.

(** Instance of X18: "hix", a backspace, a line feed. *)
Lemma readline_backspace_erases_witness :
  exists st',
    readline 1 uart0 NULL msg_addr [104; 105; 120; 8; 10] boot_state
      = Some ((msg_addr, []), st') /\
    cstring_at (mem st') msg_addr (map byte_of_Z [104; 105]) /\
    tx_chars uart0 (trace st') = map byte_of_Z [104; 105; 120; 8; 10].
Proof.
  destruct (readline_backspace_erases 1 uart0 msg_addr 120 10 [104; 105] []
              boot_state) as (st' & R & C & U).
  - lia.
  - unfold buffer_ok, msg_addr, BUFSIZE. lia.
  - exact uart0_outside_dram.
  - exact uart0_ready_boot.
  - repeat constructor; lia.
  - lia.
  - unfold BUFSIZE. cbn. lia.
  - left. reflexivity.
  - constructor.
  - exists st'. split; [exact R|]. split; [exact C|exact U].
Defined.

(** X19.  The line is cut at [BUFSIZE - 1] characters without an error:
    with room in the serial device at the start and the transmit
    register outside the buffer, characters typed when the buffer
    already holds [BUFSIZE - 1] are neither stored nor echoed (no store
    to the transmit register is made for them), and the end of line
    returns the first [BUFSIZE - 1]. *)
Theorem readline_drops_what_does_not_fit
        (fuel : nat) (u : uart) (buf t : Z) (cs extra more : list Z)
        (st : state) :
  (0 < fuel)%nat ->
  buffer_ok buf BUFSIZE ->
  tx_outside u buf BUFSIZE ->
  tx_ready u (mem st) ->
  Forall (fun c => 32 <= c <= 255) cs ->
  Forall (fun c => 32 <= c <= 255) extra ->
  Z.of_nat (length cs) = BUFSIZE - 1 ->
  t = 10 \/ t = 13 ->
  Forall (fun c => 0 <= c <= 255) more ->
  exists st',
    readline fuel u NULL buf (cs ++ extra ++ t :: more) st
      = Some ((buf, more), st') /\
    cstring_at (mem st') buf (map byte_of_Z cs) /\
    tx_chars u (trace st') = tx_chars u (trace st) ++ map byte_of_Z (cs ++ [t]).
Proof.
  intros Hfu Hb O Rd Hcs Hex Hn Ht Hmore.
  assert (E : edit (cs ++ extra ++ t :: more) []
              = Some (map byte_of_Z cs, map byte_of_Z (cs ++ [t]), more)).
  { rewrite edit_stores by (try assumption; cbn [length]; lia).
    cbn [app]. rewrite edit_drops
      by (try assumption; rewrite map_byte_of_Z_length; exact Hn).
    cbn [edit]. rewrite map_byte_of_Z_length.
    destruct (Z.ltb_spec (Z.of_nat (length cs)) (BUFSIZE - 1)); [lia|].
    rewrite andb_false_r.
    destruct (Z.eqb_spec t 8); [lia|]. cbn [andb].
    assert ((t =? 10) || (t =? 13) = true) as ->
      by (destruct Ht as [-> | ->]; reflexivity).
    rewrite map_app. reflexivity. }
  assert (A : Forall (fun c => 0 <= c <= 255) (cs ++ extra ++ t :: more)).
  { apply Forall_app. split; [apply chars_in_range; exact Hcs|].
    apply Forall_app. split; [apply chars_in_range; exact Hex|].
    constructor; [lia|exact Hmore]. }
  destruct (readline_edit_run fuel u buf _ st _ _ _ Hfu Hb O Rd A E)
    as (st' & R & C & _ & U & _).
  exists st'. split; [exact R|]. split; [exact C|exact U].
Qed.

(** Instance of X19: 1023 letters, three more, a line feed. *)
Lemma readline_drops_what_does_not_fit_witness :
  exists st',
    readline 1 uart0 NULL msg_addr
             (repeat 65 (Z.to_nat 1023) ++ [66; 67; 68] ++ 10 :: []) boot_state
      = Some ((msg_addr, []), st') /\
    cstring_at (mem st') msg_addr (map byte_of_Z (repeat 65 (Z.to_nat 1023))).
Proof.
  destruct (readline_drops_what_does_not_fit 1 uart0 msg_addr 10
              (repeat 65 (Z.to_nat 1023)) [66; 67; 68] [] boot_state)
    as (st' & R & C & _).
  - lia.
  - unfold buffer_ok, msg_addr, BUFSIZE. lia.
  - exact uart0_outside_dram.
  - exact uart0_ready_boot.
  - apply Forall_forall. intros x Hx. apply repeat_spec in Hx. lia.
  - repeat constructor; lia.
  - rewrite repeat_length. unfold BUFSIZE. lia.
  - left. reflexivity.
  - constructor.
  - exists st'. split; [exact R|exact C].
Defined.

(* ================================================================== *)
(** ** uart.c and main.c: printing a line back *)

(** X20.  [uart_puts] on a string held in memory, with room in the
    serial device at the start and the transmit register outside the
    string: it returns, has stored to the transmit register the
    characters in front of the first NUL, in order and nothing else,
    has changed no byte of memory but that register, and leaves room in
    the device. *)
Theorem uart_puts_sends_up_to_the_nul
        (fuel : nat) (u : uart) (s : Z) (bs : list byte) (st : state) :
  cstring_at (mem st) s bs ->
  (length bs < fuel)%nat ->
  buffer_ok s (Z.of_nat (length bs)) ->
  tx_ready u (mem st) ->
  tx_outside u s (Z.of_nat (S (length bs))) ->
  exists st',
    uart_puts fuel u s st = Some (tt, st') /\
    tx_chars u (trace st') = tx_chars u (trace st) ++ bs /\
    (forall x, x < uart_tx_addr u \/ uart_tx_addr u + 4 <= x ->
               mem st' x = mem st x) /\
    tx_ready u (mem st').
Proof.
  intros C F [Hs Hn] R O. unfold uart_puts.
  destruct (uart_puts_loop_run bs fuel u s st C F Hs Hn R O)
    as (m' & evs & E & R' & Fr & T).
  rewrite E. eexists. split; [reflexivity|]. cbn [after mem trace].
  split; [|split; [exact Fr|exact R']].
  rewrite tx_chars_app, T. reflexivity.
Qed.

(** "hello" is printed from where the message state holds it. *)
Lemma uart_puts_sends_up_to_the_nul_witness :
  exists st',
    uart_puts 10 uart0 msg_addr (msg_state hello) = Some (tt, st') /\
    tx_chars uart0 (trace st') = tx_chars uart0 (trace (msg_state hello)) ++ hello.
Proof.
  destruct (uart_puts_sends_up_to_the_nul 10 uart0 msg_addr hello
              (msg_state hello)) as (st' & R & U & _).
  - apply cstring_at_msg_state. reflexivity.
  - cbn. lia.
  - unfold buffer_ok, msg_addr. cbn. lia.
  - apply uart0_ready.
  - left. vm_compute. discriminate.
  - exists st'. split; [exact R|exact U].
Defined.

(** X21.  The console test of [main], with room in the serial device at
    the start and the transmit register outside the buffer: a line typed
    without editing is echoed as it is typed and then printed back whole
    after the announcement, and what was typed behind the end of line
    stays unread. *)
Theorem console_test_prints_the_line_back
        (fuel : nat) (u : uart) (self buf t : Z) (cs more : list Z)
        (st : state) :
  buffer_ok buf BUFSIZE ->
  buf <> NULL ->
  tx_ready u (mem st) ->
  tx_outside u buf BUFSIZE ->
  Forall (fun c => 32 <= c <= 255) cs ->
  Z.of_nat (length cs) <= BUFSIZE - 1 ->
  (length cs < fuel)%nat ->
  t = 10 \/ t = 13 ->
  Forall (fun c => 0 <= c <= 255) more ->
  exists st',
    main_console_test fuel u self buf (cs ++ t :: more) st = Some (more, st') /\
    tx_chars u (trace st') =
      tx_chars u (trace st) ++
      puts_chars self "Test console: " ++ map byte_of_Z (cs ++ [t]) ++
      puts_chars self "Test console OK: " ++ map byte_of_Z cs.
Proof.
  intros Hb Hnull Rd O Hcs Hn Hf Ht Hmore. unfold main_console_test.
  destruct fuel as [|f]; [lia|].
  destruct (sends_puts f u self "Test console: " st Rd)
    as (m1 & e1 & E1 & R1 & F1 & _ & T1).
  rewrite bind_run, E1.
  destruct (readline_plain_run (S f) u buf t cs more (after st m1 e1)
              ltac:(lia) Hb O R1 Hcs Hn Ht Hmore)
    as (st1 & R & C & U & _ & _ & R2 & _).
  rewrite bind_run, R. cbn [fst snd].
  destruct (Z.eqb_spec buf NULL) as [E|_]; [contradiction|].
  destruct (sends_puts f u self "Test console OK: " st1 R2)
    as (m2 & e2 & E2 & R3 & F2 & _ & T2).
  rewrite !bind_run, E2.
  destruct Hb as [Hb0 Hb1]. unfold tx_outside, BUFSIZE in *.
  destruct (uart_puts_loop_run (map byte_of_Z cs) (S f) u buf
              (after st1 m2 e2)) as (m3 & e3 & E3 & _ & _ & T3);
    rewrite ?mem_after, ?length_map; try assumption; try lia.
  - apply (cstring_at_ext (mem st1)); [|exact C].
    intros x Hx. rewrite length_map in Hx. symmetry. apply F2.
    rewrite Nat2Z.inj_succ in Hx. lia.
  - unfold tx_outside. rewrite Nat2Z.inj_succ. lia.
  - unfold uart_puts. rewrite E3. eexists. split; [reflexivity|].
    cbn [after trace]. rewrite !tx_chars_app, T3, T2, U. cbn [after trace].
    rewrite tx_chars_app, T1. rewrite <- !app_assoc. reflexivity.
Qed.

(** Instance of X21: hart 0 is given "hi" and a line feed. *)
Lemma console_test_prints_the_line_back_witness :
  exists st',
    main_console_test 5 uart0 0 msg_addr [104; 105; 10] boot_state
      = Some ([], st') /\
    tx_chars uart0 (trace st') =
      puts_chars 0 "Test console: " ++ list_byte_of_string "hi" ++ [x0a] ++
      puts_chars 0 "Test console OK: " ++ list_byte_of_string "hi".
Proof.
  destruct (console_test_prints_the_line_back 5 uart0 0 msg_addr 10
              [104; 105] [] boot_state) as (st' & R & U).
  - unfold buffer_ok, msg_addr, BUFSIZE. lia.
  - unfold msg_addr, NULL. lia.
  - exact uart0_ready_boot.
  - exact uart0_outside_dram.
  - repeat constructor; lia.
  - unfold BUFSIZE. cbn. lia.
  - cbn. lia.
  - left. reflexivity.
  - constructor.
  - exists st'. split; [exact R|exact U].
Defined.
(* ================================================================== *)
(** ** main.c: one turn of [test_ipi] *)

Lemma cstring_at_head (m : memory) (a : Z) (bs : list byte) :
  cstring_at m a bs -> m a = hd x00 bs.
Proof.
  intros [L _]. destruct bs as [|b bs]; cbn [length load_bytes app hd] in *;
    congruence.
Qed.

Lemma to_hartid_of_char (c : Z) :
  0 <= c <= 255 ->
  to_hartid_ok (to_hartid_of (byte_of_Z c)) = (49 <=? c) && (c <=? 52).
Proof.
  intros H. rewrite to_hartid_ok_digit, byte_to_of_Z, Z.mod_small by lia.
  reflexivity.
Qed.

Lemma to_hartid_of_digit (d : Z) :
  49 <= d <= 52 -> to_hartid_of (byte_of_Z d) = d - 48.
Proof.
  intros H. unfold to_hartid_of. rewrite byte_to_of_Z, Z.mod_small by lia.
  change (byte_to_Z "0"%byte) with 48. apply wrap64_small. lia.
Qed.

(** The question answered with a line whose first character is one of
    the digits 1 to 4. *)
Lemma read_target_accept_run
      (fuel n : nat) (u : uart) (self buf d t : Z) (ds more : list Z)
      (st : state) :
  (0 < fuel)%nat ->
  buffer_ok buf BUFSIZE ->
  tx_outside u buf BUFSIZE ->
  tx_ready u (mem st) ->
  49 <= d <= 52 ->
  Forall (fun c => 32 <= c <= 255) ds ->
  Z.of_nat (length ds) + 1 <= BUFSIZE - 1 ->
  t = 10 \/ t = 13 ->
  Forall (fun c => 0 <= c <= 255) more ->
  exists st',
    read_target fuel (S n) u self buf (d :: ds ++ t :: more) st
      = Some ((d - 48, more), st') /\
    tx_chars u (trace st') =
      tx_chars u (trace st) ++
      puts_chars self "Input hartid to wake up target hart: " ++
      map byte_of_Z (d :: ds ++ [t]) /\
    clint_base st' = clint_base st /\
    env st' = env st /\
    tx_ready u (mem st') /\
    (forall x, x < buf \/ buf + BUFSIZE <= x ->
               x < uart_tx_addr u \/ uart_tx_addr u + 4 <= x ->
               mem st' x = mem st x).
Proof.
  intros Hfu Hb O Rd Hd Hds Hn Ht Hmore. cbn [read_target].
  destruct fuel as [|f]; [lia|].
  destruct (sends_puts f u self "Input hartid to wake up target hart: " st Rd)
    as (m1 & e1 & E1 & R1 & F1 & _ & T1).
  rewrite bind_run, E1.
  destruct (readline_plain_run (S f) u buf t (d :: ds) more (after st m1 e1)
              Hfu Hb O R1 ltac:(constructor; [lia|exact Hds])
              ltac:(cbn [length]; lia) Ht Hmore)
    as (st1 & R & C & U & B & E & R2 & Fr).
  cbn [app] in R. rewrite bind_run, R. cbn [fst snd].
  rewrite bind_run, load_char_run.
  rewrite (cstring_at_head _ _ _ C). cbn [map hd].
  rewrite to_hartid_of_digit by exact Hd.
  assert (to_hartid_ok (d - 48) = true) as ->.
  { unfold to_hartid_ok, ZERO_HART, MAX_HARTS.
    apply andb_true_intro. split; [apply Z.leb_le|apply Z.leb_le]; lia. }
  unfold ret. eexists. split; [reflexivity|]. cbn [mem clint_base trace env].
  cbn [after mem clint_base trace env] in U, B, E, Fr.
  split; [|split; [exact B|split; [exact E|split; [exact R2|]]]].
  - rewrite tx_chars_app, U, tx_chars_app, T1. cbn [tx_chars app].
    rewrite app_nil_r, <- !app_assoc. reflexivity.
  - intros x Hx Hx'. rewrite Fr by assumption. apply F1. exact Hx'.
Qed.

(** The question answered with anything else. *)
Lemma read_target_reject_run
      (fuel n : nat) (u : uart) (self buf t : Z) (cs more : list Z)
      (st : state) :
  (0 < fuel)%nat ->
  buffer_ok buf BUFSIZE ->
  tx_outside u buf BUFSIZE ->
  tx_ready u (mem st) ->
  Forall (fun c => 32 <= c <= 255) cs ->
  Z.of_nat (length cs) <= BUFSIZE - 1 ->
  (49 <=? hd 0 cs) && (hd 0 cs <=? 52) = false ->
  t = 10 \/ t = 13 ->
  Forall (fun c => 0 <= c <= 255) more ->
  exists st1,
    read_target fuel (S n) u self buf (cs ++ t :: more) st
      = read_target fuel n u self buf more st1 /\
    tx_chars u (trace st1) =
      tx_chars u (trace st) ++
      puts_chars self "Input hartid to wake up target hart: " ++
      map byte_of_Z (cs ++ [t]) ++
      puts_chars self "Hartid out of range!" /\
    clint_base st1 = clint_base st /\
    env st1 = env st /\
    tx_ready u (mem st1) /\
    (forall x, x < buf \/ buf + BUFSIZE <= x ->
               x < uart_tx_addr u \/ uart_tx_addr u + 4 <= x ->
               mem st1 x = mem st x).
Proof.
  intros Hfu Hb O Rd Hcs Hn Hbad Ht Hmore. cbn [read_target].
  destruct fuel as [|f]; [lia|].
  destruct (sends_puts f u self "Input hartid to wake up target hart: " st Rd)
    as (m1 & e1 & E1 & R1 & F1 & _ & T1).
  rewrite bind_run, E1.
  destruct (readline_plain_run (S f) u buf t cs more (after st m1 e1)
              Hfu Hb O R1 Hcs Hn Ht Hmore)
    as (st1 & R & C & U & B & E & R2 & Fr).
  rewrite bind_run, R. cbn [fst snd].
  rewrite bind_run, load_char_run.
  rewrite (cstring_at_head _ _ _ C).
  assert (to_hartid_ok (to_hartid_of (hd x00 (map byte_of_Z cs))) = false) as ->.
  { destruct cs as [|c cs]; [reflexivity|]. cbn [map hd] in *.
    inversion Hcs; subst. rewrite to_hartid_of_char by lia. exact Hbad. }
  match goal with
  | |- context [bind (puts _ _ _ _) _ ?s] =>
      destruct (sends_puts f u self "Hartid out of range!" s R2)
        as (m3 & e3 & E3 & R3 & F3 & _ & T3)
  end.
  rewrite bind_run, E3. cbn [snd].
  eexists. split; [reflexivity|]. cbn [after mem clint_base trace env].
  cbn [after mem clint_base trace env] in U, B, E, Fr, F3.
  split; [|split; [exact B|split; [exact E|split; [exact R3|]]]].
  - rewrite !tx_chars_app, U, tx_chars_app, T1, T3. cbn [tx_chars app].
    rewrite <- !app_assoc. reflexivity.
  - intros x Hx Hx'. rewrite F3, Fr by assumption. apply F1. exact Hx'.
Qed.

(** X22.  [test_ipi] asks for the target until the line typed starts
    with one of the digits 1 to 4; only the first character of the line
    counts.  With room in the serial device at the start and the
    transmit register outside the buffer: after a line [bad] that does
    not start so (the empty line included) it prints "Hartid out of
    range!" and asks again; the line [d :: ds] with [d] such a digit is
    then taken as the hart [d - '0']. *)
Theorem test_ipi_asks_until_the_target_is_valid
        (fuel n : nat) (u : uart) (self buf d t1 t2 : Z)
        (bad ds more : list Z) (st : state) :
  (0 < fuel)%nat ->
  buffer_ok buf BUFSIZE ->
  tx_outside u buf BUFSIZE ->
  tx_ready u (mem st) ->
  Forall (fun c => 32 <= c <= 255) bad ->
  Z.of_nat (length bad) <= BUFSIZE - 1 ->
  (49 <=? hd 0 bad) && (hd 0 bad <=? 52) = false ->
  49 <= d <= 52 ->
  Forall (fun c => 32 <= c <= 255) ds ->
  Z.of_nat (length ds) + 1 <= BUFSIZE - 1 ->
  t1 = 10 \/ t1 = 13 ->
  t2 = 10 \/ t2 = 13 ->
  Forall (fun c => 0 <= c <= 255) more ->
  exists st',
    read_target fuel (S (S n)) u self buf
                (bad ++ t1 :: d :: ds ++ t2 :: more) st
      = Some ((d - 48, more), st') /\
    to_hartid_ok (d - 48) = true /\
    tx_chars u (trace st') =
      tx_chars u (trace st) ++
      puts_chars self "Input hartid to wake up target hart: " ++
      map byte_of_Z (bad ++ [t1]) ++
      puts_chars self "Hartid out of range!" ++
      puts_chars self "Input hartid to wake up target hart: " ++
      map byte_of_Z (d :: ds ++ [t2]).
Proof.
  intros Hfu Hb O Rd Hbad Hnb Hhd Hd Hds Hnd Ht1 Ht2 Hmore.
  assert (A : Forall (fun c => 0 <= c <= 255) (d :: ds ++ t2 :: more)).
  { constructor; [lia|]. apply Forall_app. split; [apply chars_in_range; exact Hds|].
    constructor; [lia|exact Hmore]. }
  destruct (read_target_reject_run fuel (S n) u self buf t1 bad
              (d :: ds ++ t2 :: more) st Hfu Hb O Rd Hbad Hnb Hhd Ht1 A)
    as (st1 & R1 & U1 & _ & _ & Rd1 & _).
  destruct (read_target_accept_run fuel n u self buf d t2 ds more st1
              Hfu Hb O Rd1 Hd Hds Hnd Ht2 Hmore)
    as (st2 & R2 & U2 & _).
  exists st2. split; [rewrite R1; exact R2|]. split.
  - unfold to_hartid_ok, ZERO_HART, MAX_HARTS.
    apply andb_true_intro. split; apply Z.leb_le; lia.
  - rewrite U2, U1, <- !app_assoc. reflexivity.
Qed.

(** Instance of X22: "7" is refused, "2" is taken. *)
Lemma test_ipi_asks_until_the_target_is_valid_witness :
  exists st',
    read_target 1 2 uart0 0 msg_addr [55; 10; 50; 10] boot_state
      = Some ((2, []), st').
Proof.
  destruct (test_ipi_asks_until_the_target_is_valid 1 0 uart0 0 msg_addr 50
              10 10 [55] [] [] boot_state) as (st' & R & _).
  - lia.
  - unfold buffer_ok, msg_addr, BUFSIZE. lia.
  - exact uart0_outside_dram.
  - exact uart0_ready_boot.
  - repeat constructor; lia.
  - unfold BUFSIZE. cbn. lia.
  - reflexivity.
  - lia.
  - constructor.
  - unfold BUFSIZE. cbn. lia.
  - left. reflexivity.
  - left. reflexivity.
  - constructor.
  - exists st'. exact R.
Defined.

Lemma tx_chars_load_events (u : uart) (bs : list byte) : forall (a : Z),
  tx_chars u (load_events a bs) = [].
Proof. induction bs as [|b bs IH]; intros a; [reflexivity|]. cbn. apply IH. Qed.

Lemma tx_chars_memcpy_events (u : uart) (n : nat) : forall (d s : Z) (m : memory),
  tx_chars u (memcpy_events n d s m) = [].
Proof.
  induction n as [|k IH]; intros d s m; [reflexivity|].
  cbn [memcpy_events tx_chars]. apply IH.
Qed.

Lemma tx_chars_waits (u : uart) (l : list env_event) :
  tx_chars u (concat (map (fun _ => [EvCsrRead CSR_mip 0; EvWfi]) l)) = [].
Proof. induction l as [|e l IH]; [reflexivity|]. cbn. exact IH. Qed.

(** What the other harts do to pending bits of the configured range
    stays inside the pending words. *)
Lemma env_frame (pre : list env_event) : forall (m : memory) (x : Z),
  forallb in_range_env pre = true ->
  x < CLINT_CTRL_ADDR \/ CLINT_END_HART_IPI <= x ->
  fold_left (fun m e => env_apply e CLINT_CTRL_ADDR m) pre m x = m x.
Proof.
  induction pre as [|e pre IH]; intros m x Q Hx; [reflexivity|].
  cbn [forallb] in Q. apply andb_prop in Q. destruct Q as [Q1 Q2].
  cbn [fold_left]. rewrite IH by assumption.
  unfold CLINT_END_HART_IPI, MAX_HARTS, CLINT_MSIP_SIZE in Hx.
  destruct e as [h|h|]; cbn [env_apply in_range_env] in *; [| |reflexivity];
    apply andb_prop in Q1; destruct Q1 as [A B];
    apply Z.leb_le in A; apply Z.ltb_lt in B;
    apply store_le_other; rewrite CLINT_SOFT_boot by lia;
    unfold MAX_HARTS, CLINT_MSIP_SIZE in *; change (Z.of_nat 4) with 4; lia.
Qed.

(** The round of [test_ipi] from the message in memory to the report. *)
Lemma test_ipi_round_run
      (fuel : nat) (u : uart) (self to_hartid m : Z) (bs : list byte)
      (pre post : list env_event) (st : state) :
  clint_base st = CLINT_CTRL_ADDR ->
  0 <= self < MAX_HARTS ->
  0 <= to_hartid < MAX_HARTS ->
  self <> to_hartid ->
  mip_of (mem st) self = 0 ->
  cstring_at (mem st) m bs ->
  (length bs < fuel)%nat ->
  buffer_ok m (Z.of_nat (S (length bs))) ->
  Z.of_nat (S (length bs)) <= SMP_SIZE ->
  apart m SMP_ADDR (Z.of_nat (S (length bs))) ->
  env st = pre ++ EnvRaise self :: post ->
  forallb (quiet_for self) pre = true ->
  forallb in_range_env pre = true ->
  (length pre + 1 < fuel)%nat ->
  tx_ready u (mem st) ->
  tx_outside u SMP_ADDR SMP_SIZE ->
  tx_outside u CLINT_CTRL_ADDR (MAX_HARTS * CLINT_MSIP_SIZE) ->
  exists st',
    test_ipi_round fuel u self to_hartid m st = Some (tt, st') /\
    cstring_at (mem st') SMP_ADDR bs /\
    is_pending self st' = Some false /\
    env st' = post /\
    clint_base st' = CLINT_CTRL_ADDR /\
    In (EvStore 4 (CLINT_SOFT CLINT_CTRL_ADDR to_hartid) 1) (trace st') /\
    tx_chars u (trace st') =
      tx_chars u (trace st) ++
      puts_chars self "Send software interrupt. Hartid=" ++
      hex_chars to_hartid ++
      puts_chars self "Finished receiving. Hartid=" ++
      hex_chars to_hartid.
Proof.
  intros B Hs Ht Hne H C F Hm Hcap Hap E Q Qr Fp Rd O Oc.
  unfold test_ipi_round.
  assert (Hbox : buffer_ok SMP_ADDR (Z.of_nat (S (length bs)))).
  { unfold buffer_ok, SMP_ADDR, SMP_SIZE in *. lia. }
  assert (O' : tx_outside u SMP_ADDR (Z.of_nat (S (length bs)))).
  { unfold tx_outside in *. lia. }
  destruct (test_ipi_send_run fuel u self to_hartid m bs st C F Hm Hbox Rd O')
    as (m2 & con & Es & Fr2 & R2 & _ & Tc).
  rewrite bind_run, Es. rewrite B.
  set (m0 := store_le (copy_fwd (S (length bs)) SMP_ADDR m (mem st))
                      (CLINT_SOFT CLINT_CTRL_ADDR to_hartid) 4 1).
  set (m1 := store_le m2 (CLINT_SOFT CLINT_CTRL_ADDR to_hartid) 4 1).
  assert (M01 : forall x, x < uart_tx_addr u \/ uart_tx_addr u + 4 <= x ->
                          m1 x = m0 x).
  { intros x Hx. apply store_le_ext. apply Fr2. exact Hx. }
  assert (C0 : cstring_at m0 SMP_ADDR bs)
    by (apply mailbox_after_send; assumption).
  pose proof (tx_not_pending u self Oc Hs) as Ns.
  assert (H1 : mip_of m1 self = 0).
  { apply mip_of_clear. apply mip_of_clear in H. unfold m1.
    rewrite <- CLINT_SOFT_boot in * by exact Hs.
    rewrite load_le_store_le_other.
    - rewrite <- H. f_equal. apply load_le_ext. intros x Hx.
      change (Z.of_nat 4) with 4 in Hx.
      rewrite Fr2 by lia.
      apply copy_fwd_other.
      + unfold SMP_ADDR. lia.
      + unfold SMP_ADDR, SMP_SIZE in *. lia.
      + rewrite CLINT_SOFT_boot in Hx by exact Hs.
        unfold MAX_HARTS, CLINT_CTRL_ADDR, CLINT_MSIP_SIZE, SMP_ADDR in *.
        lia.
    - pose proof (CLINT_SOFT_apart CLINT_CTRL_ADDR self to_hartid Hs Ht Hne).
      change (Z.of_nat 4) with 4. lia. }
  rewrite bind_run.
  match goal with
  | |- context [wait_ipi fuel self self ?s] =>
      rewrite (wait_ipi_wake_run fuel self self s pre post B Hs H1 Q E Fp)
  end.
  cbn [after mem clint_base trace env].
  set (m3 := store_le (fold_left (fun m e => env_apply e CLINT_CTRL_ADDR m)
                                 (pre ++ [EnvRaise self]) m1)
                      (CLINT_SOFT CLINT_CTRL_ADDR self) 4 0).
  assert (Qr' : forallb in_range_env (pre ++ [EnvRaise self]) = true).
  { rewrite forallb_app, Qr. cbn [forallb in_range_env].
    unfold MAX_HARTS in *.
    destruct (Z.leb_spec 0 self); [|lia].
    destruct (Z.ltb_spec self 5); [|lia]. reflexivity. }
  assert (M31 : forall x, x < CLINT_CTRL_ADDR \/ CLINT_END_HART_IPI <= x ->
                          m3 x = m1 x).
  { intros x Hx. unfold m3. rewrite store_le_other.
    - apply env_frame; assumption.
    - rewrite CLINT_SOFT_boot by exact Hs.
      unfold CLINT_END_HART_IPI, MAX_HARTS, CLINT_MSIP_SIZE in *.
      change (Z.of_nat 4) with 4. lia. }
  assert (R3 : tx_ready u m3).
  { apply (tx_ready_ext u m1);
      [|apply tx_ready_pending_store; assumption].
    intros x Hx. apply M31.
    unfold tx_outside, CLINT_END_HART_IPI in *. lia. }
  destruct fuel as [|f]; [lia|].
  pose proof (sends_bind u (puts (S f) u self "Finished receiving. Hartid=")
                (fun _ => uart_put_hex (S f) u to_hartid) tt tt _ _
                (sends_puts f u self "Finished receiving. Hartid=")
                (sends_uart_put_hex f u to_hartid)) as Sn.
  match goal with
  | |- context [bind (puts _ _ _ _) _ ?s] =>
      destruct (Sn s R3) as (m4 & e4 & E4 & R4 & F4 & _ & T4)
  end.
  rewrite E4. cbn [mem] in F4.
  eexists. split; [reflexivity|]. cbn [after mem clint_base trace env].
  split; [|split; [|split; [reflexivity|split; [reflexivity|split]]]].
  - apply (cstring_at_ext m0); [|exact C0]. intros x Hx. symmetry.
    unfold tx_outside, SMP_ADDR, SMP_SIZE, CLINT_END_HART_IPI, MAX_HARTS,
      CLINT_CTRL_ADDR, CLINT_MSIP_SIZE in *.
    rewrite F4, M31, M01 by lia. reflexivity.
  - rewrite is_pending_word. cbn [after mem clint_base].
    rewrite (load_le_ext 4 m4 m3).
    + unfold m3. rewrite load_le_store_le_same. reflexivity.
    + intros x Hx. change (Z.of_nat 4) with 4 in Hx. apply F4. lia.
  - rewrite !in_app_iff. cbn [In]. auto 30.
  - rewrite !tx_chars_app, tx_chars_load_events, tx_chars_memcpy_events,
      tx_chars_waits, Tc, T4.
    rewrite (tx_chars_pending u to_hartid 1 Oc Ht).
    change (tx_chars u (EvCsrRead CSR_mip MIP_MSIP :: ?l)) with (tx_chars u l).
    rewrite (tx_chars_pending u self 0 Oc Hs).
    cbn [app]. rewrite !app_nil_r, <- !app_assoc. reflexivity.
Qed.

(** X23.  One turn of [test_ipi], from the console to the answer of the
    target, with room in the serial device at the start and its transmit
    register outside the line buffer, the mailbox and the pending words.
    The operator types a line starting with a digit [d] from 1 to 4 and
    then a message [cs] without editing; the target answers by raising
    the bit of the asking hart after the activity [pre].  Then the turn
    returns, the mailbox holds exactly the message as a C string (a
    console line always fits it), the bit of hart [d - '0'] was raised,
    the bit of the asking hart is clear again, and the console shows the
    two questions with their echoes and the two reports. *)
Theorem test_ipi_turn_delivers_the_message
        (fuel n : nat) (u : uart) (self buf d t1 t2 : Z) (ds cs more : list Z)
        (pre post : list env_event) (st : state) :
  clint_base st = CLINT_CTRL_ADDR ->
  0 <= self < MAX_HARTS ->
  self <> d - 48 ->
  mip_of (mem st) self = 0 ->
  buffer_ok buf BUFSIZE ->
  apart buf SMP_ADDR BUFSIZE ->
  buf + BUFSIZE <= CLINT_CTRL_ADDR \/ CLINT_END_HART_IPI <= buf ->
  tx_ready u (mem st) ->
  tx_outside u buf BUFSIZE ->
  tx_outside u SMP_ADDR SMP_SIZE ->
  tx_outside u CLINT_CTRL_ADDR (MAX_HARTS * CLINT_MSIP_SIZE) ->
  49 <= d <= 52 ->
  Forall (fun c => 32 <= c <= 255) ds ->
  Z.of_nat (length ds) + 1 <= BUFSIZE - 1 ->
  Forall (fun c => 32 <= c <= 255) cs ->
  Z.of_nat (length cs) <= BUFSIZE - 1 ->
  t1 = 10 \/ t1 = 13 ->
  t2 = 10 \/ t2 = 13 ->
  Forall (fun c => 0 <= c <= 255) more ->
  env st = pre ++ EnvRaise self :: post ->
  forallb (quiet_for self) pre = true ->
  forallb in_range_env pre = true ->
  (length cs < fuel)%nat ->
  (length pre + 1 < fuel)%nat ->
  exists st',
    test_ipi_turn fuel (S n) u self buf (d :: ds ++ t1 :: cs ++ t2 :: more) st
      = Some (more, st') /\
    cstring_at (mem st') SMP_ADDR (map byte_of_Z cs) /\
    In (EvStore 4 (CLINT_SOFT CLINT_CTRL_ADDR (d - 48)) 1) (trace st') /\
    is_pending self st' = Some false /\
    env st' = post /\
    tx_chars u (trace st') =
      tx_chars u (trace st) ++
      puts_chars self "Input hartid to wake up target hart: " ++
      map byte_of_Z (d :: ds ++ [t1]) ++
      puts_chars self "Input message: " ++
      map byte_of_Z (cs ++ [t2]) ++
      puts_chars self "Send software interrupt. Hartid=" ++
      hex_chars (d - 48) ++
      puts_chars self "Finished receiving. Hartid=" ++
      hex_chars (d - 48).
Proof.
  intros B Hs Hne H Hb Hap Hcl Rd O Om Oc Hd Hds Hnd Hcs Hnc Ht1 Ht2 Hmore
         E Q Qr Fc Fp.
  assert (A : Forall (fun c => 0 <= c <= 255) (cs ++ t2 :: more)).
  { apply Forall_app. split; [apply chars_in_range; exact Hcs|].
    constructor; [lia|exact Hmore]. }
  assert (Hfu : (0 < fuel)%nat) by lia.
  unfold test_ipi_turn.
  destruct (read_target_accept_run fuel n u self buf d t1 ds (cs ++ t2 :: more)
              st Hfu Hb O Rd Hd Hds Hnd Ht1 A)
    as (st1 & R1 & U1 & B1 & E1 & Rd1 & Fr1).
  rewrite bind_run, R1. cbn [fst snd].
  destruct fuel as [|f]; [lia|].
  destruct (sends_puts f u self "Input message: " st1 Rd1)
    as (mp & ep & Ep & Rp & Fp' & _ & Tp).
  rewrite bind_run, Ep.
  destruct (readline_plain_run (S f) u buf t2 cs more (after st1 mp ep)
              Hfu Hb O Rp Hcs Hnc Ht2 Hmore)
    as (st2 & R2 & C2 & U2 & B2 & E2 & Rd2 & Fr2).
  rewrite bind_run, R2. cbn [fst snd].
  cbn [after mem clint_base trace env] in U2, B2, E2, Fr2.
  assert (Hout : forall x, x < buf \/ buf + BUFSIZE <= x ->
                           x < uart_tx_addr u \/ uart_tx_addr u + 4 <= x ->
                           mem st2 x = mem st x).
  { intros x Hx Hx'. rewrite Fr2, Fp', Fr1 by assumption. reflexivity. }
  destruct Hb as [Hb0 Hb1]. unfold BUFSIZE in *.
  assert (H2 : mip_of (mem st2) self = 0).
  { apply mip_of_clear. apply mip_of_clear in H. rewrite <- H. f_equal.
    apply load_le_ext. intros x Hx. change (Z.of_nat 4) with 4 in Hx.
    unfold tx_outside, CLINT_END_HART_IPI, MAX_HARTS, CLINT_CTRL_ADDR,
      CLINT_MSIP_SIZE in *.
    apply Hout; lia. }
  destruct (test_ipi_round_run (S f) u self (d - 48) buf (map byte_of_Z cs)
              pre post st2) as (st3 & R3 & C3 & P3 & E3 & _ & I3 & U3);
    try assumption; rewrite ?length_map.
  - congruence.
  - unfold MAX_HARTS. lia.
  - exact Fc.
  - split; lia.
  - unfold SMP_SIZE. lia.
  - unfold apart, SMP_ADDR in *. lia.
  - congruence.
  - rewrite bind_run, R3. unfold ret.
    exists st3. split; [reflexivity|]. split; [exact C3|]. split; [exact I3|].
    split; [exact P3|]. split; [exact E3|].
    rewrite U3, U2, tx_chars_app, U1, Tp.
    rewrite <- !app_assoc. reflexivity.
Qed.

(** Instance of X23: hart 0 is told "2" and "hi"; hart 2 answers at the
    second [wfi]. *)
Lemma test_ipi_turn_delivers_the_message_witness :
  exists st',
    test_ipi_turn 5 1 uart0 0 msg_addr [50; 10; 104; 105; 10]
                  (with_env boot_state [EnvClear 2; EnvRaise 0]) = Some ([], st') /\
    cstring_at (mem st') SMP_ADDR (list_byte_of_string "hi") /\
    is_pending 0 st' = Some false.
Proof.
  destruct (test_ipi_turn_delivers_the_message 5 0 uart0 0 msg_addr 50 10 10
              [] [104; 105] [] [EnvClear 2] []
              (with_env boot_state [EnvClear 2; EnvRaise 0]))
    as (st' & R & C & _ & P & _).
  - reflexivity.
  - unfold MAX_HARTS. lia.
  - lia.
  - reflexivity.
  - unfold buffer_ok, msg_addr, BUFSIZE. lia.
  - unfold apart, msg_addr, SMP_ADDR, BUFSIZE. lia.
  - unfold msg_addr, CLINT_END_HART_IPI, CLINT_CTRL_ADDR, MAX_HARTS,
      CLINT_MSIP_SIZE, BUFSIZE. lia.
  - exact uart0_ready_boot.
  - exact uart0_outside_dram.
  - exact uart0_outside_mailbox.
  - exact uart0_outside_pending.
  - lia.
  - constructor.
  - unfold BUFSIZE. cbn. lia.
  - repeat constructor; lia.
  - unfold BUFSIZE. cbn. lia.
  - left. reflexivity.
  - left. reflexivity.
  - constructor.
  - reflexivity.
  - reflexivity.
  - reflexivity.
  - cbn. lia.
  - cbn. lia.
  - exists st'. split; [exact R|]. split; [exact C|exact P].
Defined.
(* ================================================================== *)
(** ** smp.h: the barrier with a hart missing *)

Lemma ack_regs_step (k : Z) (h : hart) (m : memory) :
  not_hart k h -> ack_regs h ->
  ack_regs (fst (step h m)) /\ not_hart k (fst (step h m)).
Proof.
  destruct h as [n r1 r2 id t]. unfold not_hart, ack_regs at 1.
  cbn [pc reg1 reg2 mhartid]. intros [Hr Hk].
  split_pc 21%nat; intros A;
    cbv beta iota zeta delta
      [step pc reg1 reg2 mhartid htrace nth_error smp_resume exec next goto
       wr_reg rd_reg log fst snd L_wait L_sweep L_broadcast];
    repeat match goal with
           | |- context [if ?c then _ else _] => destruct c eqn:T
           end;
    cbv beta iota zeta delta [ack_regs not_hart pc reg1 reg2 mhartid fst snd];
    (split; [|split; assumption]); try exact I.
  - (* 10: li reg1, CLINT_CTRL_ADDR *)
    reflexivity.
  - (* 11: csrr reg2, mhartid *)
    split; [exact A|reflexivity].
  - (* 12: slli reg2, reg2, 2 *)
    destruct A as [A1 A2]. split; [exact A1|]. rewrite A2.
    rewrite Z.shiftl_mul_pow2 by lia.
    unfold MAX_HARTS, CLINT_MSIP_SIZE in *. change (2 ^ 2) with 4.
    apply wrap64_small. lia.
  - (* 13: add reg2, reg2, reg1 *)
    destruct A as [A1 A2]. split; [exact A1|]. rewrite A1, A2.
    unfold MAX_HARTS, CLINT_CTRL_ADDR, CLINT_MSIP_SIZE in *.
    rewrite wrap64_small; lia.
Qed.

(** A hart at or behind the wait label stores nothing but a zero into
    its own pending word. *)
Lemma waiting_hart_store (h : hart) (m : memory) :
  0 <= mhartid h < MAX_HARTS -> ack_regs h -> (L_wait <= pc h)%nat ->
  snd (step h m) = m \/
  snd (step h m) = store_le m (CLINT_CTRL_ADDR + mhartid h * CLINT_MSIP_SIZE) 4 0.
Proof.
  destruct h as [n r1 r2 id t]. unfold ack_regs, L_wait.
  cbn [pc reg1 reg2 mhartid]. intros Hr A Hn.
  split_pc 21%nat; try lia;
    cbv beta iota zeta delta
      [step pc reg1 reg2 mhartid htrace nth_error smp_resume exec next goto
       wr_reg rd_reg log fst snd L_wait L_sweep L_broadcast];
    repeat match goal with
           | |- context [if ?c then _ else _] => destruct c eqn:T
           end;
    try (left; reflexivity).
  right. destruct A as [_ ->]. rewrite word_address by lia. reflexivity.
Qed.

(** A zero stored into the pending word of another hart leaves the word
    of hart [k] raised. *)
Lemma raised_zero_store (m : memory) (k id : Z) :
  0 <= k < MAX_HARTS -> 0 <= id < MAX_HARTS -> id <> k ->
  msip_word m k = 1 ->
  msip_word (store_le m (CLINT_CTRL_ADDR + id * CLINT_MSIP_SIZE) 4 0) k = 1.
Proof.
  intros Hk Hi Hne H. unfold msip_word in *.
  rewrite load_le_store_le_other; [exact H|].
  unfold MAX_HARTS, CLINT_MSIP_SIZE in *. change (Z.of_nat 4) with 4. lia.
Qed.

Lemma held_up_mem (k : Z) (p : hart) (m m' : memory) :
  (msip_word m k = 1 -> msip_word m' k = 1) ->
  held_up k p m -> held_up k p m'.
Proof.
  destruct p as [n r1 r2 id t]. unfold held_up. cbn [pc reg1 reg2].
  intros W.
  split_pc 20%nat; intros H;
    repeat match goal with
           | H : exists _, _ |- _ => destruct H as [? H]
           | H : _ /\ _ |- _ => destruct H
           end;
    try exact I; try (split; [lia|auto]);
    try (eexists; repeat split; eauto; fail);
    try (split; [auto|]; eexists; repeat split; eauto; fail).
Qed.

Lemma msip_word_raise (m : memory) (k j : Z) (v : Z) :
  0 <= k < MAX_HARTS -> 0 <= j < MAX_HARTS ->
  (j = k -> v = 1) ->
  (j <> k -> msip_word m k = 1) ->
  msip_word (store_le m (CLINT_CTRL_ADDR + j * CLINT_MSIP_SIZE) 4 v) k = 1.
Proof.
  intros Hk Hj Hv Hm. unfold msip_word in *.
  destruct (Z.eq_dec j k) as [->|Hne].
  - rewrite load_le_store_le_same, Hv by reflexivity. reflexivity.
  - rewrite load_le_store_le_other; [apply Hm; exact Hne|].
    unfold MAX_HARTS, CLINT_MSIP_SIZE in *. change (Z.of_nat 4) with 4. lia.
Qed.

(** Every instruction of the primary keeps it held up. *)
Lemma held_up_step (k : Z) (p : hart) (m : memory) :
  0 <= k < MAX_HARTS ->
  not_hart k p -> ack_regs p ->
  held_up k p m -> held_up k (fst (step p m)) (snd (step p m)).
Proof.
  destruct p as [n r1 r2 id t]. unfold not_hart, ack_regs, held_up at 1.
  cbn [pc reg1 reg2 mhartid]. intros Hk [Hr Hne].
  split_pc 21%nat; intros A H;
    cbv beta iota zeta delta
      [step pc reg1 reg2 mhartid htrace nth_error smp_resume exec next goto
       wr_reg rd_reg log fst snd L_wait L_sweep L_broadcast];
    repeat match goal with
           | |- context [if ?c then _ else _] => destruct c eqn:T
           end;
    cbv beta iota zeta delta [held_up at_hart pc reg1 reg2 fst snd];
    unfold at_hart in H; cbn [reg1 reg2] in H.
  all: try match type of H with
           | (_ < _)%nat /\ _ =>
               solve [destruct H as [H0 H1]; split; [lia|exact H1]]
           end.
  - (* 0: li reg1, CLINT_CTRL_ADDR *)
    exists 0. unfold MAX_HARTS, CLINT_CTRL_ADDR in *.
    split; [lia|]. split; [rewrite wrap64_small; lia|lia].
  - (* 1: li reg2, 1 *)
    destruct H as (j & Hj & Ha & W). exists j.
    split; [exact Hj|]. split; [exact Ha|]. split; [reflexivity|exact W].
  - (* 2: sw reg2, 0(reg1) *)
    destruct H as (j & Hj & Ha & Hv & W). exists j.
    split; [exact Hj|]. split; [exact Ha|]. intros Hkj.
    rewrite Ha, word_address by (unfold MAX_HARTS in *; lia).
    apply msip_word_raise; try assumption.
    + intros _. exact Hv.
    + intros Hn. apply W. lia.
  - (* 3: addi reg1, reg1, 4 *)
    destruct H as (j & Hj & Ha & W). exists (j + 1).
    unfold MAX_HARTS, CLINT_CTRL_ADDR, CLINT_MSIP_SIZE in *.
    split; [lia|]. split; [rewrite Ha, wrap64_small; lia|].
    intros Hkj. apply W. lia.
  - (* 4: li reg2, CLINT_END_HART_IPI *)
    destruct H as (j & Hj & Ha & W). exists j.
    split; [exact Hj|]. split; [exact Ha|]. split; [|exact W].
    apply wrap64_small.
    unfold CLINT_END_HART_IPI, MAX_HARTS, CLINT_CTRL_ADDR, CLINT_MSIP_SIZE. lia.
  - (* 5: blt reg1, reg2, 41b, taken *)
    destruct H as (j & Hj & Ha & Hv & W). exists j.
    split; [|split; [exact Ha|exact W]].
    rewrite Ha, Hv in T. apply Z.ltb_lt in T.
    rewrite !signed64_small in T;
      unfold CLINT_END_HART_IPI, MAX_HARTS, CLINT_CTRL_ADDR, CLINT_MSIP_SIZE in *;
      lia.
  - (* 5: blt reg1, reg2, 41b, not taken *)
    destruct H as (j & Hj & Ha & Hv & W). split; [lia|]. apply W.
    rewrite Ha, Hv in T. apply Z.ltb_ge in T.
    rewrite !signed64_small in T;
      unfold CLINT_END_HART_IPI, MAX_HARTS, CLINT_CTRL_ADDR, CLINT_MSIP_SIZE in *;
      lia.
  - (* 14: sw zero, 0(reg2) *)
    destruct H as [_ W]. destruct A as [A1 A2]. split.
    + rewrite A2, word_address by (unfold MAX_HARTS in *; lia).
      apply raised_zero_store; assumption.
    + exists 0. split; [lia|]. rewrite A1. lia.
  - (* 15: lw reg2, 0(reg1) *)
    destruct H as (W & j & Hj & Ha). split; [exact W|]. exists j.
    split; [exact Hj|]. split; [exact Ha|]. intros ->.
    rewrite Ha, word_address by (unfold MAX_HARTS in *; lia).
    unfold msip_word in W. rewrite W. discriminate.
  - (* 16: bnez reg2, 41b, not taken *)
    destruct H as (W & j & Hj & Ha & Hz). split; [exact W|]. exists j.
    split; [|exact Ha]. apply Z.eqb_eq in T.
    destruct (Z.eq_dec j k) as [E|E]; [exfalso; apply (Hz E); exact T|lia].
  - (* 16: bnez reg2, 41b, taken *)
    destruct H as (W & j & Hj & Ha & Hz). split; [exact W|]. exists j.
    split; [exact Hj|exact Ha].
  - (* 17: addi reg1, reg1, 4 *)
    destruct H as (W & j & Hj & Ha). split; [exact W|]. exists (j + 1).
    unfold MAX_HARTS, CLINT_CTRL_ADDR, CLINT_MSIP_SIZE in *.
    split; [lia|]. rewrite Ha, wrap64_small; lia.
  - (* 18: li reg2, CLINT_END_HART_IPI *)
    destruct H as (W & j & Hj & Ha). split; [exact W|]. exists j.
    split; [exact Hj|]. split; [exact Ha|].
    apply wrap64_small.
    unfold CLINT_END_HART_IPI, MAX_HARTS, CLINT_CTRL_ADDR, CLINT_MSIP_SIZE. lia.
  - (* 19: blt reg1, reg2, 41b, taken *)
    destruct H as (W & j & Hj & Ha & Hv). split; [exact W|]. exists j.
    split; [lia|exact Ha].
  - (* 19: blt reg1, reg2, 41b, not taken: the sweep is not at its end *)
    destruct H as (W & j & Hj & Ha & Hv). exfalso.
    rewrite Ha, Hv in T. apply Z.ltb_ge in T.
    rewrite !signed64_small in T;
      unfold CLINT_END_HART_IPI, MAX_HARTS, CLINT_CTRL_ADDR, CLINT_MSIP_SIZE in *;
      lia.
Qed.

Lemma absent_step (k : Z) (i : nat) (s : system) :
  0 <= k < MAX_HARTS -> absent_inv k s -> absent_inv k (sys_step i s).
Proof.
  intros Hk. destruct s as [hs m]. unfold absent_inv, sys_step. cbn [harts smem].
  destruct hs as [|p others]; [intros []|]. intros (Hp & Ha & Ho).
  inversion Ha as [|p0 o0 [Ap Np] Hao]; subst.
  destruct i as [|j]; cbn [nth_error].
  - pose proof (held_up_step k p m Hk Np Ap Hp) as H.
    pose proof (ack_regs_step k p m Np Ap) as H'.
    destruct (step p m) as [p' m']. cbn [set_nth harts smem fst snd] in *.
    split; [exact H|]. split; [constructor; assumption|exact Ho].
  - destruct (nth_error others j) as [h|] eqn:N; cbn [harts smem];
      [|split; [exact Hp|split; assumption]].
    assert (Hin : In h others) by (apply nth_error_In in N; exact N).
    assert (Hh : (L_wait <= pc h)%nat)
      by (rewrite Forall_forall in Ho; apply Ho; exact Hin).
    assert (Hah : ack_regs h /\ not_hart k h)
      by (rewrite Forall_forall in Hao; apply Hao; exact Hin).
    destruct Hah as [Ah Nh].
    destruct (secondary_step h m Hh) as [Hpc _].
    pose proof (waiting_hart_store h m (proj1 Nh) Ah Hh) as Hm.
    pose proof (ack_regs_step k h m Nh Ah) as H'.
    destruct (step h m) as [h' m']. cbn [set_nth harts smem fst snd] in *.
    split; [|split].
    + destruct Hm as [-> | ->]; [exact Hp|].
      apply (held_up_mem k p m); [|exact Hp].
      apply raised_zero_store; [exact Hk|apply Nh|apply Nh].
    + constructor; [split; assumption|].
      apply Forall_set_nth; assumption.
    + apply Forall_set_nth; assumption.
Qed.

Lemma absent_run (k : Z) (sched : list nat) : forall (s : system),
  0 <= k < MAX_HARTS -> absent_inv k s -> absent_inv k (run sched s).
Proof.
  induction sched as [|i rest IH]; intros s Hk H; [exact H|].
  cbn [run]. apply IH; [exact Hk|]. apply absent_step; assumption.
Qed.

(** X24.  The barrier of [smp_resume] is wired to [MAX_HARTS] harts:
    when the harts are as the boot code leaves them and none of them is
    hart [k], for a [k] below the hart count, the primary never leaves
    the macro, whatever the interleaving.  It raises the pending word of
    hart [k] in its broadcast, nobody clears it, and its sweep waits for
    it. *)
Theorem barrier_never_opens_with_a_hart_missing
        (sched : list nat) (s : system) (k : Z) :
  booted s = true ->
  0 <= k < MAX_HARTS ->
  Forall (not_hart k) (harts s) ->
  option_map pc (primary (run sched s)) <> Some L_end.
Proof.
  intros B Hk N.
  assert (I0 : absent_inv k s).
  { unfold booted in B. unfold absent_inv.
    destruct (harts s) as [|p others]; [discriminate|].
    apply andb_prop in B. destruct B as [B0 Bo]. apply Nat.eqb_eq in B0.
    rewrite forallb_forall in Bo.
    split; [unfold held_up; rewrite B0; exact I|]. split.
    - rewrite Forall_forall in *. intros h Hh. split; [|apply N; exact Hh].
      unfold ack_regs. destruct Hh as [<-|Hh]; [rewrite B0; exact I|].
      apply Bo in Hh. apply Nat.eqb_eq in Hh. rewrite Hh. exact I.
    - rewrite Forall_forall. intros h Hh. apply Bo in Hh.
      apply Nat.eqb_eq in Hh. lia. }
  pose proof (absent_run k sched s Hk I0) as I1.
  unfold absent_inv in I1. unfold primary.
  destruct (harts (run sched s)) as [|p others]; [contradiction|].
  cbn [nth_error option_map]. destruct I1 as [H _]. intros E.
  injection E as E. unfold held_up in H. rewrite E in H.
  cbn [L_end] in H. destruct H as [H _]. lia.
Qed.

(** Instance of X24: without hart 3 the schedule that opens the barrier
    for five harts leaves the primary inside the macro. *)
Lemma barrier_never_opens_with_a_hart_missing_witness :
  booted boot_system_without_3 = true /\
  option_map pc (primary (run barrier_schedule boot_system_without_3))
  <> Some L_end.
Proof.
  split; [reflexivity|].
  apply (barrier_never_opens_with_a_hart_missing barrier_schedule
           boot_system_without_3 3).
  - reflexivity.
  - unfold MAX_HARTS. lia.
  - unfold boot_system_without_3, not_hart, MAX_HARTS. cbn [harts map].
    repeat constructor; cbn [mhartid]; lia.
Defined.

(* ================================================================== *)
(** ** io.h: what is written is what is read *)

Lemma sext_trunc (w : nat) (v : Z) :
  (w = 1 \/ w = 2 \/ w = 4 \/ w = 8)%nat ->
  0 <= v < 2 ^ (8 * Z.of_nat w) ->
  sext w v mod 2 ^ (8 * Z.of_nat w) = v.
Proof.
  intros Hw Hv. unfold sext, wrap64. cbv zeta.
  destruct Hw as [-> | [-> | [-> | ->]]];
    cbn [Z.of_nat Pos.of_succ_nat Pos.succ Z.mul Pos.mul Pos.add] in *;
    match goal with
    | |- context [2 ^ (?b - 1)] =>
        let h := eval compute in (2 ^ (b - 1)) in
        let f := eval compute in (2 ^ b) in
        let q := eval compute in (2 ^ (64 - b) - 1) in
        change (2 ^ (b - 1)) with h; change (2 ^ b) with f in *;
        change (2 ^ 64) with 18446744073709551616;
        destruct (Z.ltb_spec v h);
        [apply Z.mod_small; lia|];
        try rewrite (Z.mod_small (v + 18446744073709551616 - f)) by lia;
        replace (v + 18446744073709551616 - f) with (v + q * f) by lia;
        rewrite Z.mod_add by lia; apply Z.mod_small; lia
    end.
Qed.

Lemma store_le_trunc (w : nat) : forall (m : memory) (a v : Z),
  store_le m a w (v mod 2 ^ (8 * Z.of_nat w)) = store_le m a w v.
Proof.
  induction w as [|k IH]; intros m a v; [reflexivity|].
  cbn [store_le]. rewrite Nat2Z.inj_succ.
  replace (8 * Z.succ (Z.of_nat k)) with (8 + 8 * Z.of_nat k) by lia.
  rewrite Z.pow_add_r by lia. change (2 ^ 8) with 256.
  assert (P : 0 < 2 ^ (8 * Z.of_nat k)) by (apply Z.pow_pos_nonneg; lia).
  rewrite Z.rem_mul_r by lia.
  assert (B : byte_of_Z (v mod 256 + 256 * ((v / 256) mod 2 ^ (8 * Z.of_nat k)))
              = byte_of_Z v).
  { unfold byte_of_Z.
    rewrite (Z.mul_comm 256), Z.mod_add, Z.mod_mod by lia. reflexivity. }
  assert (D : (v mod 256 + 256 * ((v / 256) mod 2 ^ (8 * Z.of_nat k))) / 256
              = (v / 256) mod 2 ^ (8 * Z.of_nat k)).
  { rewrite Z.add_comm, (Z.mul_comm 256), Z.div_add_l by lia.
    rewrite (Z.div_small (v mod 256)) by (apply Z.mod_pos_bound; lia). lia. }
  rewrite B, D. apply IH.
Qed.

(** A store of the low [w] bytes of [v] and a load of the same width
    from the same address. *)
Lemma write_read_run (w : nat) (v a : Z) (st : state) :
  (w = 1 \/ w = 2 \/ w = 4 \/ w = 8)%nat ->
  (fence FW FO ;;
   store_insn w (v mod 2 ^ (8 * Z.of_nat w)) a ;;
   r <- (x <- load_insn w a ;; ret (x mod 2 ^ (8 * Z.of_nat w))) ;;
   fence FI FR ;; ret r) st
  = Some (v mod 2 ^ (8 * Z.of_nat w),
          after st (store_le (mem st) a w v)
                [EvFence FW FO;
                 EvStore w a (v mod 2 ^ (8 * Z.of_nat w));
                 EvLoad w a (v mod 2 ^ (8 * Z.of_nat w));
                 EvFence FI FR]).
Proof.
  intros Hw.
  assert (P : 0 < 2 ^ (8 * Z.of_nat w)) by (apply Z.pow_pos_nonneg; lia).
  assert (E : 256 ^ Z.of_nat w = 2 ^ (8 * Z.of_nat w)).
  { change 256 with (2 ^ 8). rewrite <- Z.pow_mul_r by lia. reflexivity. }
  unfold fence, store_insn, load_insn, get_mem, put_mem, emit, bind, ret, after.
  cbn [mem clint_base trace env].
  rewrite store_le_trunc, Z.mod_mod by lia.
  rewrite load_le_store_le_same, E.
  rewrite sext_trunc by (try exact Hw; apply Z.mod_pos_bound; exact P).
  rewrite <- !app_assoc. reflexivity.
Qed.

(** X25.  The accessors of io.h give back what they wrote: for each of
    the four widths, [writeX(v, a)] followed by [readX(a)] returns [v]
    cut to the width (the sign extension of [lb], [lh] and [lw] does not
    show), and what the two do is a [fence w,o], the store, the load and
    a [fence i,r], in this order. *)
Theorem io_read_returns_what_was_written (v a : Z) (st : state) :
  (writeb (ret v) a ;; readb a) st
  = Some (v mod 2 ^ 8,
          after st (store_le (mem st) a 1 v)
                [EvFence FW FO; EvStore 1 a (v mod 2 ^ 8);
                 EvLoad 1 a (v mod 2 ^ 8); EvFence FI FR]) /\
  (writeh (ret v) a ;; readh a) st
  = Some (v mod 2 ^ 16,
          after st (store_le (mem st) a 2 v)
                [EvFence FW FO; EvStore 2 a (v mod 2 ^ 16);
                 EvLoad 2 a (v mod 2 ^ 16); EvFence FI FR]) /\
  (writew (ret v) a ;; readw a) st
  = Some (v mod 2 ^ 32,
          after st (store_le (mem st) a 4 v)
                [EvFence FW FO; EvStore 4 a (v mod 2 ^ 32);
                 EvLoad 4 a (v mod 2 ^ 32); EvFence FI FR]) /\
  (writed (ret v) a ;; readd a) st
  = Some (v mod 2 ^ 64,
          after st (store_le (mem st) a 8 v)
                [EvFence FW FO; EvStore 8 a (v mod 2 ^ 64);
                 EvLoad 8 a (v mod 2 ^ 64); EvFence FI FR]).
Proof.
  pose proof (write_read_run 1 v a st ltac:(auto)) as H1.
  pose proof (write_read_run 2 v a st ltac:(auto)) as H2.
  pose proof (write_read_run 4 v a st ltac:(auto)) as H4.
  pose proof (write_read_run 8 v a st ltac:(auto)) as H8.
  change (8 * Z.of_nat 1) with 8 in H1. change (8 * Z.of_nat 2) with 16 in H2.
  change (8 * Z.of_nat 4) with 32 in H4. change (8 * Z.of_nat 8) with 64 in H8.
  split; [|split; [|split]].
  - rewrite <- H1. reflexivity.
  - rewrite <- H2. reflexivity.
  - rewrite <- H4. reflexivity.
  - rewrite <- H8. reflexivity.
Qed.

(* ================================================================== *)
(** ** uart.c: [uart_init] *)

Lemma uart_reg_addr_small (u : uart) (i : Z) :
  0 <= i < 8 -> 0 <= uart_base u -> uart_base u + 32 <= 2 ^ 64 ->
  uart_reg_addr u i = uart_base u + 4 * i.
Proof.
  intros Hi H0 H1. unfold uart_reg_addr, wrap32.
  rewrite Z.shiftl_mul_pow2 by lia. change (2 ^ 2) with 4.
  rewrite Z.mod_small by lia. rewrite wrap64_small by lia. lia.
Qed.

Lemma uart_min_clk_divisor_range (in_freq max_target_hz : Z) :
  0 <= uart_min_clk_divisor in_freq max_target_hz < 2 ^ 32.
Proof.
  unfold uart_min_clk_divisor. cbv zeta.
  destruct (_ =? 0); [lia|]. unfold wrap32. apply Z.mod_pos_bound. lia.
Qed.

(** X26.  Called with a clock of zero, or with a rate that is not zero
    (with another clock and a rate of zero the code divides by zero),
    [uart_init] returns and leaves the device with its interrupts
    disabled and its transmitter and receiver enabled.  With a clock of
    zero, as [main] calls it, it does not touch the divisor register;
    with any other clock the divisor register holds what
    [uart_min_clk_divisor] makes of the clock and the rate.  The data
    registers, the pending register and everything outside the device
    are not written. *)
Theorem uart_init_programs_the_device
        (base in_freq baudrate : Z) (st : state) :
  0 <= base -> base + 32 <= 2 ^ 64 ->
  0 <= in_freq < 2 ^ 32 -> 0 <= baudrate < 2 ^ 32 ->
  in_freq = 0 \/ 0 < baudrate ->
  exists u st',
    uart_init base in_freq baudrate st = Some (u, st') /\
    u = mkUart base in_freq baudrate /\
    load_le (mem st') (uart_reg_addr u UART_REG_IE) 4 = 0 /\
    load_le (mem st') (uart_reg_addr u UART_REG_TXCTRL) 4 = UART_TXCTRL_TXEN /\
    load_le (mem st') (uart_reg_addr u UART_REG_RXCTRL) 4 = UART_RXCTRL_RXEN /\
    load_le (mem st') (uart_reg_addr u UART_REG_DIV) 4
    = (if in_freq =? 0 then load_le (mem st) (uart_reg_addr u UART_REG_DIV) 4
       else uart_min_clk_divisor in_freq baudrate) /\
    (forall x,
        x < uart_reg_addr u UART_REG_TXCTRL \/
        uart_reg_addr u UART_REG_IP <= x < uart_reg_addr u UART_REG_DIV \/
        uart_reg_addr u UART_REG_DIV + 4 <= x ->
        mem st' x = mem st x).
Proof.
  intros H0 H1 Hf Hb _.
  set (u := mkUart base in_freq baudrate).
  assert (Eu : mkUart (wrap64 base) (wrap32 in_freq) (wrap32 baudrate) = u).
  { unfold u, wrap32. rewrite wrap64_small, !Z.mod_small by lia. reflexivity. }
  assert (A : forall i, 0 <= i < 8 -> uart_reg_addr u i = base + 4 * i).
  { intros i Hi. apply uart_reg_addr_small; cbn [uart_base u]; lia. }
  unfold uart_init. cbv zeta. rewrite Eu. cbn [uart_in_freq uart_baudrate u].
  exists u.
  pose proof (uart_min_clk_divisor_range in_freq baudrate) as Hd.
  unfold UART_REG_IE, UART_REG_TXCTRL, UART_REG_RXCTRL, UART_REG_DIV,
    UART_REG_IP, UART_TXCTRL_TXEN, UART_RXCTRL_RXEN.
  rewrite !A by lia.
  assert (W : wrap32 (uart_min_clk_divisor in_freq baudrate)
              = uart_min_clk_divisor in_freq baudrate)
    by (apply Z.mod_small; exact Hd).
  destruct (Z.eqb_spec in_freq 0) as [E|E];
    rewrite !bind_run; unfold ret at 1;
    rewrite ?set_reg_run, ?bind_run; rewrite ?set_reg_run, ?bind_run;
    rewrite ?set_reg_run, ?bind_run; rewrite ?set_reg_run;
    cbn [after mem clint_base trace env]; rewrite ?A by lia;
    (eexists; split; [reflexivity|]); cbn [after mem];
    change (wrap32 0) with 0; change (wrap32 1) with 1; rewrite ?W;
    (split; [reflexivity|]);
    repeat split;
    try (intros x Hx);
    repeat first
      [ rewrite load_le_store_le_same
      | rewrite load_le_store_le_other by (change (Z.of_nat 4) with 4; lia)
      | rewrite store_le_other by (change (Z.of_nat 4) with 4; lia) ];
    try reflexivity.
  change (256 ^ Z.of_nat 4) with (2 ^ 32). apply Z.mod_small. exact Hd.
Qed.

(** Instance of X26: the call [main] makes. *)
Lemma uart_init_programs_the_device_witness :
  exists u st',
    uart_init 0x10010000 0 115200 boot_state = Some (u, st') /\
    load_le (mem st') (uart_reg_addr u UART_REG_TXCTRL) 4 = 1 /\
    load_le (mem st') (uart_reg_addr u UART_REG_RXCTRL) 4 = 1.
Proof.
  destruct (uart_init_programs_the_device 0x10010000 0 115200 boot_state)
    as (u & st' & R & _ & _ & T & X & _); try lia.
  exists u, st'. split; [exact R|]. split; [exact T|exact X].
Defined.

